(** * Brewin interpreter (interpreterv4.py): a shallow embedding

  The evaluator of [src/interpreterv4.py] is embedded here as Rocq
  functions over an explicit interpreter state: the scope stack
  [variable_scope_list], the alias stack [variable_alias_list], a store for
  the mutable Python objects the interpreter shares by reference (object
  field dicts and lambda structures), the output log and the pending input.

  Python dicts are insertion-ordered and the interpreter iterates over them
  (capture search, capture construction, alias refresh), so they are
  association lists kept in insertion order.  Python list indexing accepts
  negative indices; the two cascade loops index with [i - 1], so that
  behaviour is written out. *)

From Stdlib Require Import String Ascii List ZArith Bool Lia Arith DecimalString.
Import ListNotations.
Local Open Scope string_scope.
Local Open Scope Z_scope.

Set Implicit Arguments.
Set Warnings "-register-all".

(* ================================================================== *)
(** ** Python dicts and lists *)

Module PyDict.

Class EqKey (K : Type) : Type := {
keqb : K -> K -> bool;
keqb_spec : forall a b, keqb a b = true <-> a = b
}.

Lemma string_eqb_iff (a b : string) : String.eqb a b = true <-> a = b.
Proof. apply String.eqb_eq. Qed.

#[export] Instance string_key : EqKey string :=
{| keqb := String.eqb; keqb_spec := string_eqb_iff |}.

Definition name_eqb (a b : option string) : bool :=
match a, b with
| Some x, Some y => String.eqb x y
| None, None => true
| _, _ => false
end.

Lemma name_eqb_iff (a b : option string) : name_eqb a b = true <-> a = b.
Proof.
destruct a as [x|], b as [y|]; simpl; split; intro H;
  try discriminate; try reflexivity.
- apply String.eqb_eq in H. now subst.
- inversion H; subst. apply String.eqb_refl.
Qed.

#[export] Instance name_key : EqKey (option string) :=
{| keqb := name_eqb; keqb_spec := name_eqb_iff |}.

Section Dict.
Context {K V : Type} `{EqKey K}.

(** A dict: entries in insertion order. *)
Definition dict : Type := list (K * V).

(** [d.get(k)] / [d[k]] (with [None] for the KeyError). *)
Fixpoint dict_get (k : K) (d : dict) : option V :=
  match d with
  | [] => None
  | (k', v) :: r => if keqb k k' then Some v else dict_get k r
  end.

(** [k in d] *)
Definition dict_mem (k : K) (d : dict) : bool :=
  match dict_get k d with Some _ => true | None => false end.

(** [d[k] = v]: an existing key keeps its position, a new one goes last. *)
Fixpoint dict_set (k : K) (v : V) (d : dict) : dict :=
  match d with
  | [] => [(k, v)]
  | (k', v') :: r =>
      if keqb k k' then (k', v) :: r else (k', v') :: dict_set k v r
  end.

End Dict.

Arguments dict : clear implicits.

End PyDict.
Import PyDict.

Module PyList.
Section PyList.
Context {A : Type}.

(** [l[i]] with Python's negative indices; [None] is the IndexError. *)
Definition py_index (l : list A) (i : Z) : option A :=
  let n := Z.of_nat (length l) in
  if (0 <=? i) && (i <? n) then nth_error l (Z.to_nat i)
  else if (- n <=? i) && (i <? 0) then nth_error l (Z.to_nat (n + i))
  else None.

(** replace position [i] (a plain index) *)
Fixpoint set_nth (i : nat) (x : A) (l : list A) : list A :=
  match l, i with
  | [], _ => []
  | _ :: r, O => x :: r
  | y :: r, S j => y :: set_nth j x r
  end.

(** the plain index a Python index denotes *)
Definition py_norm (l : list A) (i : Z) : option nat :=
  let n := Z.of_nat (length l) in
  if (0 <=? i) && (i <? n) then Some (Z.to_nat i)
  else if (- n <=? i) && (i <? 0) then Some (Z.to_nat (n + i))
  else None.

(** [l.pop()] *)
Definition py_pop (l : list A) : option (list A) :=
  match l with
  | [] => None
  | _ => Some (removelast l)
  end.

End PyList.
End PyList.
Import PyList.

(* ================================================================== *)
(** ** The parsed program

    [brewparse] (the parser, outside this development) hands the interpreter a
    tree of [Element] nodes, each an [elem_type] tag and a dict of fields.
    The node kinds the interpreter dispatches on are a closed set, so the tree
    is an inductive type: one constructor per [elem_type]. *)

(** ['arg'] and ['refarg'] nodes of a definition's [args]. *)
Inductive ArgKind : Type := ByValue | ByRef.

Record Param : Type := mkParam { p_kind : ArgKind; p_name : string }.

(** the operators [is_binary_op] accepts *)
Inductive BinOp : Type := Add | Sub | Mul | Div | Lt | Le | Gt | Ge.

Inductive Expr : Type :=
| ENewObj                                  (* '@' *)
| EInt (val : Z)                           (* 'int' *)
| EString (val : string)                   (* 'string' *)
| EBool (val : bool)                       (* 'bool' *)
| ENil                                     (* 'nil' *)
| EVar (name : string)                     (* 'var' *)
| EBin (op : BinOp) (op1 op2 : Expr)       (* + - * / < <= > >= *)
| ENeg (op1 : Expr)                        (* 'neg' *)
| EAnd (op1 op2 : Expr)                    (* '&&' *)
| EOr (op1 op2 : Expr)                     (* '||' *)
| ENot (op1 : Expr)                        (* '!' *)
| EEq (op1 op2 : Expr)                     (* '==' *)
| ENe (op1 op2 : Expr)                     (* '!=' *)
| EFcall (name : string) (args : list Expr)             (* 'fcall' *)
| EMcall (objref name : string) (args : list Expr)      (* 'mcall' *)
| ELambda (args : list Param) (statements : list Stmt)  (* 'lambda' *)
with Stmt : Type :=
| SAssign (name : string) (expression : Expr)           (* '=' *)
| SFcall (name : string) (args : list Expr)
| SMcall (objref name : string) (args : list Expr)
| SReturn (expression : option Expr)
| SIf (condition : Expr) (statements : list Stmt)
      (else_statements : option (list Stmt))
| SWhile (condition : Expr) (statements : list Stmt).

(** A ['func'] node. *)
Record FuncDef : Type := mkFunc {
  f_name : string;
  f_args : list Param;
  f_statements : list Stmt
}.

(** [ast.dict['functions']] *)
Definition Program : Type := list FuncDef.

(** A call node as [do_func_call] reads it: [objref] is present on an
    ['mcall'] node only. *)
Record CallNode : Type := mkCall {
  c_objref : option string;
  c_name : string;
  c_args : list Expr
}.

(** [node.get('name')]: the ['name'] field of an expression node, [None] for
    a node kind that has none. *)
Definition node_name (e : Expr) : option string :=
  match e with
  | EVar n => Some n
  | EFcall n _ => Some n
  | EMcall _ n _ => Some n
  | _ => None
  end.

(* ================================================================== *)
(** ** Values and the interpreter state *)

(** [Type] of type_valuev1, with the members this interpreter tests. *)
Inductive Type_ : Type := INT | BOOL | STRING | NIL | OBJ | FUNC | LAMBDA.

Definition Type_eqb (a b : Type_) : bool :=
  match a, b with
  | INT, INT | BOOL, BOOL | STRING, STRING | NIL, NIL
  | OBJ, OBJ | FUNC, FUNC | LAMBDA, LAMBDA => true
  | _, _ => false
  end.

(** A dict key of a scope frame, alias table or capture snapshot: a variable
    name, or Python's [None] (what [node.get('name')] yields when a reference
    parameter is passed an expression that has no name). *)
Abbreviation name := (option string).

(** [Value(t, v)].  Scalars are immutable and carry their payload.  An object
    and a lambda are mutable and shared: the value is their address in the
    store.  A function value refers to a definition node; [==] compares those
    nodes by identity, and [copy.deepcopy] makes a new node, so the node's
    identity [node_id] travels with the definition. *)
Inductive Value : Type :=
| VInt (v : Z)
| VBool (v : bool)
| VString (v : string)
| VNil
| VObj (addr : nat)
| VFunc (node_id : nat) (def : FuncDef)
| VLambda (addr : nat).

Definition type (v : Value) : Type_ :=
  match v with
  | VInt _ => INT
  | VBool _ => BOOL
  | VString _ => STRING
  | VNil => NIL
  | VObj _ => OBJ
  | VFunc _ _ => FUNC
  | VLambda _ => LAMBDA
  end.

Abbreviation Frame := (dict name Value).
Abbreviation AliasTable := (dict name name).

(** What the store holds: the field dict of an object, and the two-element
    list [[lambda_node, captured_vars]] of a lambda. *)
Inductive Cell : Type :=
| ObjCell (fields : dict string Value)
| LambdaCell (lambda_args : list Param) (lambda_statements : list Stmt)
             (captured_vars : dict name Value).

Record State : Type := mkState {
  variable_scope_list : list Frame;
  variable_alias_list : list AliasTable;
  store : list Cell;
  next_node : nat;            (* identity of the next deep-copied function node *)
  output_log : list string;   (* lines given to the output sink, oldest first *)
  inp : list string           (* input tokens not read yet *)
}.

Definition set_scopes (s : list Frame) (st : State) : State :=
  mkState s (variable_alias_list st) (store st) (next_node st)
          (output_log st) (inp st).

Definition set_aliases (a : list AliasTable) (st : State) : State :=
  mkState (variable_scope_list st) a (store st) (next_node st)
          (output_log st) (inp st).

Definition set_store (h : list Cell) (st : State) : State :=
  mkState (variable_scope_list st) (variable_alias_list st) h (next_node st)
          (output_log st) (inp st).

Definition set_next_node (n : nat) (st : State) : State :=
  mkState (variable_scope_list st) (variable_alias_list st) (store st) n
          (output_log st) (inp st).

Definition set_output (o : list string) (st : State) : State :=
  mkState (variable_scope_list st) (variable_alias_list st) (store st)
          (next_node st) o (inp st).

Definition set_inp (i : list string) (st : State) : State :=
  mkState (variable_scope_list st) (variable_alias_list st) (store st)
          (next_node st) (output_log st) i.

(** The [lambda_node] argument threaded through the evaluator: [None], the
    list [[lambda_node, captured_vars]] of the lambda being run (its store
    address), or, on the nested-lambda path of [do_func_call], a [Value]
    taken from the outer snapshot (which is not subscriptable). *)
Inductive LambdaCtx : Type :=
| LNone
| LCell (addr : nat)
| LValue (v : Value).

(* ================================================================== *)
(** ** Outcomes *)

(** [ErrorType] of intbase: what [super().error] is called with. *)
Inductive ErrorType : Type := NAME_ERROR | TYPE_ERROR.

(** Exceptions of the host language the interpreter does not raise itself. *)
Inductive HostException : Type :=
| ZeroDivisionError
| IndexError
| KeyError
| TypeError
| AttributeError
| ValueError.

Inductive Failure : Type :=
| Error (e : ErrorType)        (* super().error(e, ...) *)
| Host (h : HostException)
| OutOfFuel                    (* the model's recursion bound was reached *)
| OutsideModel.                (* a host operation on text the model does
                                  not cover, see [isdigit] *)

(** Every operation either returns with the state it leaves, or aborts the
    run; the state at the abort is kept so that what was output before it can
    be read off. *)
Inductive Result (A : Type) : Type :=
| Ok (a : A) (st : State)
| Fail (f : Failure) (st : State).
Arguments Ok {A} a st.
Arguments Fail {A} f st.

Definition M (A : Type) : Type := State -> Result A.

Definition ret {A : Type} (a : A) : M A := fun st => Ok a st.

Definition bind {A B : Type} (m : M A) (k : A -> M B) : M B :=
  fun st =>
    match m st with
    | Ok a st' => k a st'
    | Fail f st' => Fail f st'
    end.

Definition raise {A : Type} (f : Failure) : M A := fun st => Fail f st.

(** [super().error(e, ...)] *)
Definition error {A : Type} (e : ErrorType) : M A := raise (Error e).

Definition host {A : Type} (h : HostException) : M A := raise (Host h).

Definition get_state : M State := fun st => Ok st st.
Definition modify (f : State -> State) : M unit := fun st => Ok tt (f st).

(** lift a partial host operation, raising [h] where Python would *)
Definition or_raise {A : Type} (h : HostException) (o : option A) : M A :=
  match o with
  | Some a => ret a
  | None => host h
  end.

Declare Scope interp_scope.
Delimit Scope interp_scope with interp.
Notation "x <- m ;; k" := (bind m (fun x => k))
  (at level 100, m at next level, right associativity) : interp_scope.
Notation "m ;;; k" := (bind m (fun _ => k))
  (at level 100, right associativity) : interp_scope.
Local Open Scope interp_scope.

(* ================================================================== *)
(** ** Helpers of the interpreter that touch no state *)

(** [get_bool_from_int] *)
Definition get_bool_from_int (int_val : Z) : bool := negb (int_val =? 0).

(** [get_int_from_bool] *)
Definition get_int_from_bool (bool_val : bool) : Z := if bool_val then 1 else 0.

(** [get_bool_value]: [create_value("true")] or [create_value("false")]. *)
Definition get_bool_value (b : bool) : Value := VBool b.

(** Modelled from the spec: [create_value] of type_valuev1 is not among the
    sources.  The interpreter's comments (lines 280-286) and the spec (4.3)
    say what it does on text: the texts [true], [false] and [nil] become the
    Bool and Nil values, any other text a String.  An integer becomes an Int
    (written [VInt] directly where the interpreter passes one). *)
Definition create_value (val : string) : Value :=
  if String.eqb val "true" then VBool true
  else if String.eqb val "false" then VBool false
  else if String.eqb val "nil" then VNil
  else VString val.

(** [Interpreter.NIL_VALUE] *)
Definition NIL_VALUE : Value := VNil.

(** ['.' in s] *)
Fixpoint has_dot (s : string) : bool :=
  match s with
  | EmptyString => false
  | String c r => if Ascii.eqb c "."%char then true else has_dot r
  end.

(** [s.split('.')] *)
Fixpoint split_dot (s : string) : list string :=
  match s with
  | EmptyString => [EmptyString]
  | String c r =>
      if Ascii.eqb c "."%char then EmptyString :: split_dot r
      else match split_dot r with
           | h :: t => String c h :: t
           | [] => [String c EmptyString]
           end
  end.

(** one of the characters 0..9 *)
Definition is_digit (c : ascii) : bool :=
  let n := nat_of_ascii c in ((48 <=? n) && (n <=? 57))%nat.

Fixpoint all_digits (s : string) : bool :=
  match s with
  | EmptyString => true
  | String c r => is_digit c && all_digits r
  end.

(** a text that is not empty and has the characters 0..9 only *)
Definition ascii_digits (s : string) : bool :=
  match s with
  | EmptyString => false
  | _ => all_digits s
  end.

(** every character of the text is an ASCII character *)
Fixpoint ascii_text (s : string) : bool :=
  match s with
  | EmptyString => true
  | String c r => (nat_of_ascii c <? 128)%nat && ascii_text r
  end.

(** the longest digit text the host's [int] converts whatever its version
    (Python 3.11 refuses a longer one with ValueError by default, earlier
    versions convert it) *)
Definition int_max_str_digits : nat := 4300.

(** [s.isdigit()].  Python decides it by the Unicode properties of the
    characters: besides 0..9 it holds for the decimal digits of other
    scripts and for digits such as the superscript two.  The model answers
    for ASCII text, where it holds exactly when the text is not empty and
    has the characters 0..9 only; [None] is a text with a character outside
    ASCII, which the model does not cover. *)
Definition isdigit (s : string) : option bool :=
  if ascii_text s then Some (ascii_digits s) else None.

Fixpoint int_of_digits (acc : Z) (s : string) : Z :=
  match s with
  | EmptyString => acc
  | String c r => int_of_digits (10 * acc + (Z.of_nat (nat_of_ascii c) - 48)) r
  end.

(** [int(s)] for a text of the characters 0..9 that is not longer than
    [int_max_str_digits]: the number it writes in decimal.  [None] is any
    other text, which the model does not cover. *)
Definition int_of_string (s : string) : option Z :=
  if ascii_digits s && (String.length s <=? int_max_str_digits)%nat
  then Some (int_of_digits 0 s)
  else None.

(** [x in l] for a list of names *)
Fixpoint name_in (x : name) (l : list name) : bool :=
  match l with
  | [] => false
  | y :: r => keqb x y || name_in x r
  end.

(** [str(i)] *)
Definition str_of_int (i : Z) : string := NilZero.string_of_int (Z.to_int i).

(* ================================================================== *)
(** ** The store *)

Definition obj_fields (h : list Cell) (a : nat) : option (dict string Value) :=
  match nth_error h a with
  | Some (ObjCell f) => Some f
  | _ => None
  end.

Definition lambda_captured (h : list Cell) (a : nat) : option (dict name Value) :=
  match nth_error h a with
  | Some (LambdaCell _ _ c) => Some c
  | _ => None
  end.

Definition lambda_node (h : list Cell) (a : nat)
  : option (list Param * list Stmt) :=
  match nth_error h a with
  | Some (LambdaCell ps body _) => Some (ps, body)
  | _ => None
  end.

(** [Value(Type.OBJ, {})], [Value(Type.LAMBDA, [node, captured])]: a new cell *)
Definition alloc (c : Cell) : M nat :=
  fun st => Ok (length (store st)) (set_store (store st ++ [c]) st).

(** [obj.v[field_name] = v] *)
Definition set_field (a : nat) (field : string) (v : Value) (h : list Cell)
  : list Cell :=
  match nth_error h a with
  | Some (ObjCell f) => set_nth a (ObjCell (dict_set field v f)) h
  | _ => h
  end.

(** [captured_vars_dict[k] = v] on the lambda structure at [a] *)
Definition set_captured (a : nat) (k : name) (v : Value) (h : list Cell)
  : list Cell :=
  match nth_error h a with
  | Some (LambdaCell ps body c) =>
      set_nth a (LambdaCell ps body (dict_set k v c)) h
  | _ => h
  end.

(* ------------------------------------------------------------------ *)
(** *** [copy.deepcopy]

    A deep copy rebuilds everything reachable from a value; its memo makes a
    shared or cyclic part copied once.  Scalars are immutable, so their copy
    is the value itself.  A function value gets a copy of its definition node
    (a new node identity), an object and a lambda a new cell. *)

Record CopyState : Type := mkCopy {
  memo_cells : list (nat * nat);   (* address -> address of its copy *)
  memo_nodes : list (nat * nat);   (* node identity -> identity of its copy *)
  c_store : list Cell;
  c_next : nat
}.

Fixpoint memo_find (a : nat) (m : list (nat * nat)) : option nat :=
  match m with
  | [] => None
  | (x, y) :: r => if Nat.eqb a x then Some y else memo_find a r
  end.

(** copy the values of a dict, in its order *)
Fixpoint copy_entries {K : Type}
  (cp : Value -> CopyState -> option (Value * CopyState))
  (d : list (K * Value)) (cs : CopyState)
  : option (list (K * Value) * CopyState) :=
  match d with
  | [] => Some ([], cs)
  | (k, v) :: r =>
      match cp v cs with
      | None => None
      | Some (v', cs1) =>
          match copy_entries cp r cs1 with
          | None => None
          | Some (r', cs2) => Some ((k, v') :: r', cs2)
          end
      end
  end.

(** [None]: the recursion bound [fuel] was reached (or an address is not in
    the store, which no reachable state has). *)
Fixpoint deepcopy_value (fuel : nat) (v : Value) (cs : CopyState)
  : option (Value * CopyState) :=
  match v with
  | VInt _ | VBool _ | VString _ | VNil => Some (v, cs)
  | VFunc id d =>
      match memo_find id (memo_nodes cs) with
      | Some id' => Some (VFunc id' d, cs)
      | None =>
          let id' := c_next cs in
          Some (VFunc id' d,
                mkCopy (memo_cells cs) ((id, id') :: memo_nodes cs)
                       (c_store cs) (S id'))
      end
  | VObj a =>
      match memo_find a (memo_cells cs) with
      | Some a' => Some (VObj a', cs)
      | None =>
          match fuel, obj_fields (c_store cs) a with
          | S n, Some f =>
              let a' := length (c_store cs) in
              let cs1 := mkCopy ((a, a') :: memo_cells cs) (memo_nodes cs)
                                (c_store cs ++ [ObjCell []]) (c_next cs) in
              match copy_entries (deepcopy_value n) f cs1 with
              | Some (f', cs2) =>
                  Some (VObj a',
                        mkCopy (memo_cells cs2) (memo_nodes cs2)
                               (set_nth a' (ObjCell f') (c_store cs2))
                               (c_next cs2))
              | None => None
              end
          | _, _ => None
          end
      end
  | VLambda a =>
      match memo_find a (memo_cells cs) with
      | Some a' => Some (VLambda a', cs)
      | None =>
          match fuel, nth_error (c_store cs) a with
          | S n, Some (LambdaCell ps body c) =>
              let a' := length (c_store cs) in
              let cs1 := mkCopy ((a, a') :: memo_cells cs) (memo_nodes cs)
                                (c_store cs ++ [LambdaCell ps body []])
                                (c_next cs) in
              match copy_entries (deepcopy_value n) c cs1 with
              | Some (c', cs2) =>
                  Some (VLambda a',
                        mkCopy (memo_cells cs2) (memo_nodes cs2)
                               (set_nth a' (LambdaCell ps body c') (c_store cs2))
                               (c_next cs2))
              | None => None
              end
          | _, _ => None
          end
      end
  end.

(** [copy.deepcopy(v)]: one call, with a memo of its own *)
Definition deepcopy (fuel : nat) (v : Value) : M Value :=
  fun st =>
    match deepcopy_value fuel v (mkCopy [] [] (store st) (next_node st)) with
    | Some (v', cs) => Ok v' (set_next_node (c_next cs) (set_store (c_store cs) st))
    | None => Fail OutOfFuel st
    end.

(* ================================================================== *)
(** ** The scope stack and the alias stack *)

(** The scan [for i in range(len(scopes)-1, -1, -1)] that stops at the first
    frame holding [x]: called with [n = len(scopes)], it looks at the frames
    [n-1], ..., [0] in that order. *)
Fixpoint closest_scope (x : name) (scopes : list Frame) (n : nat) : option nat :=
  match n with
  | O => None
  | S i =>
      match nth_error scopes i with
      | Some f => if dict_mem x f then Some i else closest_scope x scopes i
      | None => closest_scope x scopes i
      end
  end.

(** [validate_var_name] (lines 648-660) *)
Definition validate_var_name (var_name : string) (gentle : bool)
  : M (option nat) :=
  fun st =>
    let scopes := variable_scope_list st in
    match closest_scope (Some var_name) scopes (length scopes) with
    | Some i => Ok (Some i) st
    | None => if gentle then Ok None st else Fail (Error NAME_ERROR) st
    end.

(** [scopes[i][k]]: [inl] the value, [inr] the exception *)
Definition scope_get (scopes : list Frame) (i : Z) (k : name)
  : Value + HostException :=
  match py_index scopes i with
  | None => inr IndexError
  | Some f =>
      match dict_get k f with
      | Some v => inl v
      | None => inr KeyError
      end
  end.

(** [scopes[i][k] = v]; [None] is the IndexError *)
Definition frame_set (scopes : list Frame) (i : Z) (k : name) (v : Value)
  : option (list Frame) :=
  match py_norm scopes i with
  | None => None
  | Some j =>
      match nth_error scopes j with
      | Some f => Some (set_nth j (dict_set k v f) scopes)
      | None => None
      end
  end.

(** The loop of lines 239-244: while the alias table of the current frame has
    an entry for the current name, write the value one frame down under the
    aliased name and go on from there.  The index only decreases; [budget]
    counts how many more decrements keep it a valid (possibly negative) index
    of [variable_alias_list], after which the test of the loop raises
    IndexError; callers pass [closest_scope_index + len(variable_alias_list)].
    [None] is that IndexError. *)
Fixpoint write_cascade (budget : nat) (closest_scope_index : Z)
  (target_var_name : name) (resulting_value : Value)
  (aliases : list AliasTable) (scopes : list Frame) : option (list Frame) :=
  match py_index aliases closest_scope_index with
  | None => None
  | Some tbl =>
      match dict_get target_var_name tbl with
      | None => Some scopes
      | Some ref_var_name =>
          match frame_set scopes (closest_scope_index - 1) ref_var_name
                          resulting_value with
          | None => None
          | Some scopes' =>
              match budget with
              | O => None
              | S b =>
                  write_cascade b (closest_scope_index - 1) ref_var_name
                                resulting_value aliases scopes'
              end
          end
      end
  end.

(** Assignment to a bare variable (lines 218-244). *)
Definition assign_var (target_var_name : string) (resulting_value : Value)
  : M unit :=
  fun st =>
    let scopes := variable_scope_list st in
    let aliases := variable_alias_list st in
    match closest_scope (Some target_var_name) scopes (length scopes) with
    | None =>
        match frame_set scopes (Z.of_nat (length scopes) - 1)
                        (Some target_var_name) resulting_value with
        | Some scopes' => Ok tt (set_scopes scopes' st)
        | None => Fail (Host IndexError) st
        end
    | Some i =>
        match frame_set scopes (Z.of_nat i) (Some target_var_name)
                        resulting_value with
        | None => Fail (Host IndexError) st
        | Some scopes1 =>
            match write_cascade (i + length aliases) (Z.of_nat i)
                                (Some target_var_name) resulting_value
                                aliases scopes1 with
            | Some scopes2 => Ok tt (set_scopes scopes2 st)
            | None => Fail (Host IndexError) (set_scopes scopes1 st)
            end
        end
    end.

(** The loop of lines 396-400: follow alias entries downwards from
    [(search_scope_index, top_most_var_name)] to the pair that has none.
    [budget] as in [write_cascade]; [None] is the IndexError. *)
Fixpoint find_root (budget : nat) (search_scope_index : Z)
  (top_most_var_name : name) (aliases : list AliasTable) : option (Z * name) :=
  match py_index aliases search_scope_index with
  | None => None
  | Some tbl =>
      match dict_get top_most_var_name tbl with
      | None => Some (search_scope_index, top_most_var_name)
      | Some y =>
          match budget with
          | O => None
          | S b => find_root b (search_scope_index - 1) y aliases
          end
      end
  end.

(** The [for key, val in alias.items()] loop of lines 414-417 on frame [j]:
    every key whose alias is among [referenced] is rebound to [new_value] and
    collected. *)
Fixpoint refresh_entries (j : Z) (new_value : Value) (referenced : list name)
  (entries : AliasTable) (scopes : list Frame) (collected : list name)
  : option (list Frame * list name) :=
  match entries with
  | [] => Some (scopes, collected)
  | (key, val) :: r =>
      if name_in val referenced then
        match frame_set scopes j key new_value with
        | None => None
        | Some scopes' =>
            refresh_entries j new_value referenced r scopes' (collected ++ [key])
        end
      else refresh_entries j new_value referenced r scopes collected
  end.

(** The loop of lines 412-419, [count] frames starting at frame [j]. *)
Fixpoint refresh_loop (count : nat) (j : Z) (new_value : Value)
  (referenced : list name) (aliases : list AliasTable) (scopes : list Frame)
  : option (list Frame) :=
  match count with
  | O => Some scopes
  | S c =>
      match py_index aliases j with
      | None => None
      | Some tbl =>
          match refresh_entries j new_value referenced tbl scopes [] with
          | None => None
          | Some (scopes', collected) =>
              refresh_loop c (j + 1) new_value collected aliases scopes'
          end
      end
  end.

(** Read of a bare variable from the call stack (lines 379-424). *)
Definition read_var (var_name : string) : M Value :=
  scope_index <- validate_var_name var_name false ;;
  fun st =>
    let scopes := variable_scope_list st in
    let aliases := variable_alias_list st in
    let x := Some var_name in
    match scope_index with
    | None => Fail (Error NAME_ERROR) st
    | Some i =>
        match nth_error aliases i with
        | None => Fail (Host IndexError) st
        | Some tbl =>
            match dict_get x tbl with
            | None =>
                match scope_get scopes (Z.of_nat i) x with
                | inl v => Ok v st
                | inr h => Fail (Host h) st
                end
            | Some ref_var_name =>
                match find_root (i + length aliases) (Z.of_nat i) x aliases with
                | None => Fail (Host IndexError) st
                | Some (search_scope_index, top_most_var_name) =>
                    match scope_get scopes search_scope_index
                                    top_most_var_name with
                    | inr _ =>
                        (* the [except:] of lines 408-409 *)
                        match scope_get scopes (Z.of_nat i) x with
                        | inl v => Ok v st
                        | inr h => Fail (Host h) st
                        end
                    | inl new_value =>
                        let start := search_scope_index + 1 in
                        match refresh_loop
                                (Z.to_nat (Z.of_nat (length scopes) - start))
                                start new_value [top_most_var_name]
                                aliases scopes with
                        | None => Fail (Host IndexError) st
                        | Some scopes1 =>
                            let st1 := set_scopes scopes1 st in
                            match scope_get scopes1 (Z.of_nat i - 1)
                                            ref_var_name with
                            | inr h => Fail (Host h) st1
                            | inl v =>
                                match frame_set scopes1 (Z.of_nat i) x v with
                                | None => Fail (Host IndexError) st1
                                | Some scopes2 => Ok v (set_scopes scopes2 st)
                                end
                            end
                        end
                    end
                end
            end
        end
    end.

(* ================================================================== *)
(** ** Variable references (the ['var'] branch, lines 295-424) *)

(** The search of lines 299-308 in the snapshot of the lambda being run:
    entries in the snapshot's order; at each one the key is compared first,
    and a Lambda entry's own snapshot is searched next. *)
Fixpoint search_captured (h : list Cell) (var_name : string)
  (captured_vars : dict name Value) : option Value :=
  match captured_vars with
  | [] => None
  | (key, value) :: r =>
      if keqb (Some var_name) key then Some value
      else
        match value with
        | VLambda a2 =>
            match lambda_captured h a2 with
            | Some lambda_dict =>
                match dict_get (Some var_name) lambda_dict with
                | Some value2 => Some value2
                | None => search_captured h var_name r
                end
            | None => search_captured h var_name r
            end
        | _ => search_captured h var_name r
        end
  end.

(** [lambda_node[Interpreter.CAPTURED_VARS]] *)
Definition captured_of (lam : LambdaCtx) : M (option (nat * dict name Value)) :=
  fun st =>
    match lam with
    | LNone => Ok None st
    | LCell a =>
        match lambda_captured (store st) a with
        | Some c => Ok (Some (a, c)) st
        | None => Fail (Host TypeError) st
        end
    | LValue _ => Fail (Host TypeError) st   (* a Value is not subscriptable *)
    end.

(** The definitions of [functions_list] named [x], each with its position
    (the identity of its node). *)
Fixpoint functions_named (x : string) (functions_list : Program) (pos : nat)
  : list (nat * FuncDef) :=
  match functions_list with
  | [] => []
  | elem :: r =>
      if String.eqb (f_name elem) x
      then (pos, elem) :: functions_named x r (S pos)
      else functions_named x r (S pos)
  end.

(** The walk of lines 358-369 (and 708-720) up the [proto] fields.  A cyclic
    prototype chain makes the source loop for ever; [None] says the bound was
    reached, [Some None] that the walk ended without the field. *)
Fixpoint proto_lookup (fuel : nat) (h : list Cell) (field_name : string)
  (obj_fields_dict : dict string Value) : option (option Value) :=
  match fuel with
  | O => None
  | S n =>
      match dict_get "proto" obj_fields_dict with
      | Some (VObj a) =>
          match obj_fields h a with
          | Some d =>
              match dict_get field_name d with
              | Some v => Some (Some v)
              | None => proto_lookup n h field_name d
              end
          | None => Some None
          end
      | Some _ => Some None
      | None => Some None
      end
  end.

(** [obj_name, field_name = var_name.split('.')[0], var_name.split('.')[1]] *)
Definition split_names (dotted : string) : string * string :=
  match split_dot dotted with
  | o :: f :: _ => (o, f)
  | o :: [] => (o, EmptyString)
  | [] => (EmptyString, EmptyString)
  end.

(** Read of [obj.field] (lines 330-375). *)
Definition read_field (fuel : nat) (var_name : string) : M Value :=
  let (obj_name, field_name) := split_names var_name in
  closest_scope_index <- validate_var_name obj_name false ;;
  fun st =>
    match closest_scope_index with
    | None => Fail (Error NAME_ERROR) st
    | Some i =>
        match scope_get (variable_scope_list st) (Z.of_nat i) (Some obj_name) with
        | inr h => Fail (Host h) st
        | inl (VObj a) =>
            match obj_fields (store st) a with
            | None => Fail (Host KeyError) st
            | Some d =>
                match dict_get field_name d with
                | Some v => Ok v st
                | None =>
                    match proto_lookup fuel (store st) field_name d with
                    | None => Fail OutOfFuel st
                    | Some (Some v) => Ok v st
                    | Some None => Fail (Error NAME_ERROR) st
                    end
                end
            end
        | inl _ => Fail (Error TYPE_ERROR) st
        end
    end.

(** The ['var'] branch of [evaluate_expression]. *)
Definition evaluate_var (functions_list : Program) (fuel : nat)
  (var_name : string) (lam : LambdaCtx) : M Value :=
  cap <- captured_of lam ;;
  fun st =>
    match
      match cap with
      | Some (_, captured_vars_dict) =>
          search_captured (store st) var_name captured_vars_dict
      | None => None
      end
    with
    | Some value => Ok value st
    | None =>
        match functions_named var_name functions_list 0 with
        | [(pos, matched_elem)] => Ok (VFunc pos matched_elem) st
        | _ :: _ :: _ => Fail (Error NAME_ERROR) st
        | [] =>
            if has_dot var_name then read_field fuel var_name st
            else read_var var_name st
        end
    end.

(* ================================================================== *)
(** ** Lambda literals (the ['lambda'] branch, lines 614-630) *)

(** The inner loop of lines 624-627 over one frame. *)
Fixpoint capture_entries (formal_param_name_list : list name)
  (entries : Frame) (captured_vars : dict name Value)
  : M (dict name Value) :=
  match entries with
  | [] => ret captured_vars
  | (key, value) :: r =>
      if name_in key formal_param_name_list
      then capture_entries formal_param_name_list r captured_vars
      else
        match type value with
        | OBJ | LAMBDA => capture_entries formal_param_name_list r captured_vars
        | _ =>
            copy <- deepcopy 0 value ;;
            capture_entries formal_param_name_list r
                            (dict_set key copy captured_vars)
        end
  end.

(** The outer loop of line 622: frames [n-1], ..., [0] in that order. *)
Fixpoint capture_frames (formal_param_name_list : list name)
  (scopes : list Frame) (n : nat) (captured_vars : dict name Value)
  : M (dict name Value) :=
  match n with
  | O => ret captured_vars
  | S i =>
      match nth_error scopes i with
      | Some curr_scope_dict =>
          c <- capture_entries formal_param_name_list curr_scope_dict
                               captured_vars ;;
          capture_frames formal_param_name_list scopes i c
      | None => capture_frames formal_param_name_list scopes i captured_vars
      end
  end.

(** The snapshot a lambda literal with parameters [args] takes. *)
Definition capture (args : list Param) : M (dict name Value) :=
  fun st =>
    let formal_param_name_list := map (fun a => Some (p_name a)) args in
    let scopes := variable_scope_list st in
    capture_frames formal_param_name_list scopes (length scopes) [] st.

(** The ['lambda'] branch of [evaluate_expression]. *)
Definition evaluate_lambda (args : list Param) (statements : list Stmt)
  : M Value :=
  captured_vars <- capture args ;;
  a <- alloc (LambdaCell args statements captured_vars) ;;
  ret (VLambda a).

(* ================================================================== *)
(** ** Operators *)

Definition int_of_bool_value (v : Value) : Value :=
  match v with
  | VBool b => VInt (get_int_from_bool b)
  | _ => v
  end.

Definition bool_of_int_value (v : Value) : Value :=
  match v with
  | VInt i => VBool (get_bool_from_int i)
  | _ => v
  end.

(** The binary arithmetic and relational operators (lines 431-461). *)
Definition binary_op (op : BinOp) (op1_val op2_val : Value) : M Value :=
  match op, op1_val, op2_val with
  | Add, VString a, VString b => ret (create_value (a ++ b))
  | _, _, _ =>
      match int_of_bool_value op1_val, int_of_bool_value op2_val with
      | VInt a, VInt b =>
          match op with
          | Add => ret (VInt (a + b))
          | Sub => ret (VInt (a - b))
          | Mul => ret (VInt (a * b))
          | Div => if b =? 0 then host ZeroDivisionError else ret (VInt (a / b))
          | Lt => ret (get_bool_value (a <? b))
          | Le => ret (get_bool_value (a <=? b))
          | Gt => ret (get_bool_value (a >? b))
          | Ge => ret (get_bool_value (a >=? b))
          end
      | _, _ => error TYPE_ERROR
      end
  end.

(** ['neg'] (lines 464-473) *)
Definition neg_op (op1_val : Value) : M Value :=
  match op1_val with
  | VInt a => ret (VInt (a * (-1)))
  | _ => error TYPE_ERROR
  end.

(** ['&&'] and ['||'] (lines 476-494); [is_and] tells which *)
Definition logic_op (is_and : bool) (op1_val op2_val : Value) : M Value :=
  match bool_of_int_value op1_val, bool_of_int_value op2_val with
  | VBool a, VBool b =>
      ret (get_bool_value (if is_and then a && b else a || b))
  | _, _ => error TYPE_ERROR
  end.

(** ['!'] (lines 497-509) *)
Definition not_op (op1_val : Value) : M Value :=
  match bool_of_int_value op1_val with
  | VBool a => ret (get_bool_value (negb a))
  | _ => error TYPE_ERROR
  end.

(** What ['=='] answers (lines 512-564); ['!='] answers the opposite. *)
Definition values_equal (op1_val op2_val : Value) : bool :=
  match op1_val, op2_val with
  | VLambda a, VLambda b => Nat.eqb a b          (* op1_val is op2_val *)
  | VObj a, VObj b => Nat.eqb a b                (* op1_val is op2_val *)
  | VString a, VString b => String.eqb a b
  | VInt a, VInt b => a =? b
  | VBool a, VBool b => Bool.eqb a b
  | VInt a, VBool b => Bool.eqb (get_bool_from_int a) b
  | VBool a, VInt b => Bool.eqb a (get_bool_from_int b)
  | VNil, VNil => true
  | VFunc a _, VFunc b _ => Nat.eqb a b          (* op1_val.v is op2_val.v *)
  | _, _ => false
  end.

Definition equality_op (is_eq : bool) (op1_val op2_val : Value) : M Value :=
  ret (get_bool_value (if is_eq then values_equal op1_val op2_val
                       else negb (values_equal op1_val op2_val))).

(** The coercion of an [if] or [while] condition (lines 85-92, 112-119). *)
Definition condition_bool (condition : Value) : M bool :=
  match condition with
  | VInt i => ret (get_bool_from_int i)
  | VBool b => ret b
  | _ => error TYPE_ERROR
  end.

(* ================================================================== *)
(** ** The sink, the source and the two stacks as operations *)

(** Modelled from the spec: [output] of InterpreterBase is not among the
    sources; the output sink accepts one finished line of text per call. *)
Definition output (line : string) : M unit :=
  modify (fun st => set_output (output_log st ++ [line]) st).

(** Modelled from the spec: [get_input] of InterpreterBase is not among the
    sources; the input source yields one raw text token per call.  With no
    token left there is no text to work on, and the methods the interpreter
    calls on the result fail in the host. *)
Definition get_input : M string :=
  fun st =>
    match inp st with
    | t :: r => Ok t (set_inp r st)
    | [] => Fail (Host AttributeError) st
    end.

(** [variable_scope_list.append({}); variable_alias_list.append({})] *)
Definition push_scope : M unit :=
  modify (fun st =>
    set_aliases (variable_alias_list st ++ [[]])
                (set_scopes (variable_scope_list st ++ [[]]) st)).

(** [variable_scope_list.pop()] *)
Definition pop_scope : M unit :=
  fun st =>
    match py_pop (variable_scope_list st) with
    | Some s => Ok tt (set_scopes s st)
    | None => Fail (Host IndexError) st
    end.

(** [variable_alias_list.pop()] *)
Definition pop_alias : M unit :=
  fun st =>
    match py_pop (variable_alias_list st) with
    | Some a => Ok tt (set_aliases a st)
    | None => Fail (Host IndexError) st
    end.

(** [variable_scope_list[i][k] = v] for a plain index *)
Definition bind_in_scope (i : nat) (k : name) (v : Value) : M unit :=
  fun st =>
    match frame_set (variable_scope_list st) (Z.of_nat i) k v with
    | Some s => Ok tt (set_scopes s st)
    | None => Fail (Host IndexError) st
    end.

(** [variable_alias_list[i][k] = r] for a plain index *)
Definition bind_alias (i : nat) (k : name) (r : name) : M unit :=
  fun st =>
    match nth_error (variable_alias_list st) i with
    | Some tbl =>
        Ok tt (set_aliases (set_nth i (dict_set k r tbl) (variable_alias_list st)) st)
    | None => Fail (Host IndexError) st
    end.

(** [variable_scope_list[i][k]] for a plain index *)
Definition read_scope (i : nat) (k : name) : M Value :=
  fun st =>
    match scope_get (variable_scope_list st) (Z.of_nat i) k with
    | inl v => Ok v st
    | inr h => Fail (Host h) st
    end.

(* ================================================================== *)
(** ** The evaluator

    [get_printable] of type_valuev1 is not among the sources; the interpreter
    uses its result as text ([final_output += get_printable(arg_value)]), so
    it is taken as a parameter of that type.  [functions_list] is
    [self.ast.dict['functions']], set once by [run]. *)

Section Interp.
Variable get_printable : Value -> string.

Section WithProgram.
Variable functions_list : Program.

(** The methods of the interpreter call one another; their bodies are written
    first against the two entry points they recurse through, and the knot is
    tied by the [Fixpoint] that follows. *)
Section Bodies.
Variable evaluate_expression : Expr -> LambdaCtx -> M Value.
Variable run_statement : Stmt -> LambdaCtx -> M (option Value).
(** bound on the depth of a deep copy made by these bodies *)
Variable depth : nat.

(** The statement loop shared by [run_func] (lines 58-62),
    [run_if_statements] (43-47) and the body of [while] (132-136): run the
    statements in order and stop at the first that returns a value. *)
Fixpoint run_block (statements : list Stmt) (lam : LambdaCtx)
  : M (option Value) :=
  match statements with
  | [] => ret None
  | statement_node :: rest =>
      temp_return_val <- run_statement statement_node lam ;;
      match temp_return_val with
      | Some v => ret (Some v)
      | None => run_block rest lam
      end
  end.

(** [run_if_statements] (lines 39-51) *)
Definition run_if_statements (statements : list Stmt) : M (option Value) :=
  return_value <- run_block statements LNone ;;
  pop_scope ;;;
  ret return_value.

(** [run_func] (lines 54-67) *)
Definition run_func (statements : list Stmt) (lam : LambdaCtx) : M Value :=
  return_value <- run_block statements lam ;;
  pop_scope ;;;
  pop_alias ;;;
  ret (match return_value with Some v => v | None => NIL_VALUE end).

(** Assignment to [obj.field] (lines 178-210). *)
Definition assign_field (target_var_name : string) (resulting_value : Value)
  : M unit :=
  let (obj_name, field_name) := split_names target_var_name in
  if String.eqb field_name "proto"
     && negb (Type_eqb (type resulting_value) OBJ)
     && negb (Type_eqb (type resulting_value) NIL)
  then error TYPE_ERROR
  else
    closest_scope_index <- validate_var_name obj_name false ;;
    match closest_scope_index with
    | None => error NAME_ERROR
    | Some i =>
        o <- read_scope i (Some obj_name) ;;
        match o with
        | VObj a => modify (fun st => set_store (set_field a field_name resulting_value (store st)) st)
        | _ => error TYPE_ERROR
        end
    end.

(** [do_assignment] (lines 164-244) *)
Definition do_assignment (target_var_name : string) (source_node : Expr)
  (lam : LambdaCtx) : M unit :=
  resulting_value <- evaluate_expression source_node lam ;;
  cap <- captured_of lam ;;
  match
    match cap with
    | Some (a, captured_vars_dict) =>
        if dict_mem (Some target_var_name) captured_vars_dict then Some a else None
    | None => None
    end
  with
  | Some a =>
      modify (fun st =>
        set_store (set_captured a (Some target_var_name) resulting_value (store st)) st)
  | None =>
      if has_dot target_var_name
      then assign_field target_var_name resulting_value
      else assign_var target_var_name resulting_value
  end.

(** The loop of lines 667-669 of [print]. *)
Fixpoint print_args (args : list Expr) (outer_lambda_node : LambdaCtx)
  (final_output : string) : M string :=
  match args with
  | [] => ret final_output
  | arg :: rest =>
      arg_value <- evaluate_expression arg outer_lambda_node ;;
      print_args rest outer_lambda_node (final_output ++ get_printable arg_value)
  end.

(** The prompt of [inputi] and [inputs] (lines 568-577, 589-598). *)
Definition input_prompt (args : list Expr) (lam : LambdaCtx) : M unit :=
  match args with
  | [] => ret tt
  | arg0 :: rest =>
      match rest with
      | _ :: _ => error NAME_ERROR
      | [] =>
          arg_value <- evaluate_expression arg0 lam ;;
          output (get_printable arg_value)
      end
  end.

(** the [inputi] branch (lines 567-585) *)
Definition evaluate_inputi (args : list Expr) (lam : LambdaCtx) : M Value :=
  input_prompt args lam ;;;
  user_input <- get_input ;;
  match isdigit user_input with
  | Some false => error TYPE_ERROR
  | Some true =>
      match int_of_string user_input with
      | Some i => ret (VInt i)
      | None => raise OutsideModel
      end
  | None => raise OutsideModel
  end.

(** the [inputs] branch (lines 588-601) *)
Definition evaluate_inputs (args : list Expr) (lam : LambdaCtx) : M Value :=
  input_prompt args lam ;;;
  user_input <- get_input ;;
  ret (create_value user_input).

(** What a call runs: the [args] and [statements] of a function definition
    or of a lambda node. *)
Definition Callee : Type := (list Param * list Stmt)%type.

Definition callee_of (d : FuncDef) : Callee := (f_args d, f_statements d).

(** The loop of lines 677-680: the last definition with the call's name and
    argument count. *)
Fixpoint match_name_arity (fname : string) (nargs : nat) (fl : Program)
  (function_elem : option Callee) : option Callee :=
  match fl with
  | [] => function_elem
  | elem :: r =>
      if String.eqb (f_name elem) fname && Nat.eqb (length (f_args elem)) nargs
      then match_name_arity fname nargs r (Some (callee_of elem))
      else match_name_arity fname nargs r function_elem
  end.

(** The loop of lines 734-742 and 776-784 for a Function value: every
    definition with the value's name must take the call's argument count;
    the last one is the callee.  [None] is the TYPE_ERROR. *)
Fixpoint match_func_value (fname : string) (nargs : nat) (fl : Program)
  (function_elem : option Callee) : option (option Callee) :=
  match fl with
  | [] => Some function_elem
  | elem :: r =>
      if String.eqb (f_name elem) fname then
        if Nat.eqb (length (f_args elem)) nargs
        then match_func_value fname nargs r (Some (callee_of elem))
        else None
      else match_func_value fname nargs r function_elem
  end.

(** The method lookup of lines 700-727 on the receiver's fields. *)
Definition find_method (method_name : string) (obj_fields_dict : dict string Value)
  : M Value :=
  fun st =>
    match dict_get method_name obj_fields_dict with
    | Some v => Ok v st
    | None =>
        match proto_lookup depth (store st) method_name obj_fields_dict with
        | None => Fail OutOfFuel st
        | Some (Some v) => Ok v st
        | Some None => Fail (Error NAME_ERROR) st
        end
    end.

(** Lines 686-764: the receiver of an ['mcall'] and the callee its method
    gives.  The result is the receiver, the callee so far and the lambda the
    callee belongs to. *)
Definition resolve_method (obj_name method_name : string) (nargs : nat)
  (function_elem : option Callee)
  : M (Value * option Callee * LambdaCtx) :=
  scope_index <- validate_var_name obj_name false ;;
  match scope_index with
  | None => error NAME_ERROR
  | Some i =>
      object <- read_scope i (Some obj_name) ;;
      match object with
      | VObj a =>
          st <- get_state ;;
          obj_fields_dict <- or_raise KeyError (obj_fields (store st) a) ;;
          var_value <- find_method method_name obj_fields_dict ;;
          match var_value with
          | VFunc _ updated_statement_node =>
              match match_func_value (f_name updated_statement_node) nargs
                                     functions_list function_elem with
              | Some fe => ret (object, fe, LNone)
              | None => error TYPE_ERROR
              end
          | VLambda l =>
              st' <- get_state ;;
              node <- or_raise KeyError (lambda_node (store st') l) ;;
              if negb (Nat.eqb (length (fst node)) nargs)
              then error NAME_ERROR
              else ret (object, Some node, LCell l)
          | _ => error TYPE_ERROR
          end
      | _ => error TYPE_ERROR
      end
  end.

(** Lines 797-801: the callee read out of the outer lambda's snapshot entry
    [lambda_node = captured_vars_dict[name]], which is a [Value];
    [lambda_node.v[LAMBDA_NODE]] subscripts its payload. *)
Definition nested_callee (v : Value) : M Callee :=
  match v with
  | VLambda l =>
      st <- get_state ;;
      or_raise KeyError (lambda_node (store st) l)
  | VObj _ => host KeyError              (* a dict has no key 0 *)
  | VString EmptyString => host IndexError
  | VString _ => host AttributeError     (* a character has no [dict] *)
  | _ => host TypeError
  end.

(** Lines 767-817: the callee a variable named like the call gives. *)
Definition resolve_variable (fname : string) (nargs : nat)
  (outer_lambda_node : LambdaCtx) : M (option Callee * LambdaCtx) :=
  scope_index <- validate_var_name fname false ;;
  match scope_index with
  | None => error NAME_ERROR
  | Some i =>
      var_value <- read_scope i (Some fname) ;;
      match var_value with
      | VFunc _ updated_statement_node =>
          match match_func_value (f_name updated_statement_node) nargs
                                 functions_list None with
          | Some fe => ret (fe, LNone)
          | None => error TYPE_ERROR
          end
      | VLambda l =>
          cap <- captured_of outer_lambda_node ;;
          match
            match cap with
            | Some (_, captured_vars_dict) => dict_get (Some fname) captured_vars_dict
            | None => None
            end
          with
          | Some inner =>
              node <- nested_callee inner ;;
              ret (Some node, LValue inner)
          | None =>
              st <- get_state ;;
              node <- or_raise KeyError (lambda_node (store st) l) ;;
              if negb (Nat.eqb (length (fst node)) nargs)
              then error TYPE_ERROR
              else ret (Some node, LCell l)
          end
      | _ => error TYPE_ERROR
      end
  end.

(** The loop of lines 829-846: evaluate each argument and bind it to the
    parameter at the same position in the frame [scope_index]. *)
Fixpoint bind_args (scope_index : nat) (args_val_list : list Expr)
  (args_name_list : list Param) : M unit :=
  match args_val_list with
  | [] => ret tt
  | arg_node :: rest =>
      arg_val <- evaluate_expression arg_node LNone ;;
      match args_name_list with
      | [] => host IndexError
      | p :: params =>
          let arg_name := Some (p_name p) in
          match p_kind p, type arg_val with
          | ByValue, LAMBDA | ByValue, OBJ =>
              c <- deepcopy depth arg_val ;;
              bind_in_scope scope_index arg_name c
          | _, _ => bind_in_scope scope_index arg_name arg_val
          end ;;;
          match p_kind p with
          | ByRef => bind_alias scope_index arg_name (node_name arg_node)
          | ByValue => ret tt
          end ;;;
          bind_args scope_index rest params
      end
  end.

(** [do_func_call] (lines 663-858) *)
Definition do_func_call (statement_node : CallNode)
  (outer_lambda_node : LambdaCtx) : M Value :=
  if String.eqb (c_name statement_node) "print" then
    final_output <- print_args (c_args statement_node) outer_lambda_node "" ;;
    output final_output ;;;
    ret NIL_VALUE
  else
    let nargs := length (c_args statement_node) in
    let function_elem0 :=
      match_name_arity (c_name statement_node) nargs functions_list None in
    r1 <- match c_objref statement_node with
          | Some obj_name =>
              r <- resolve_method obj_name (c_name statement_node) nargs
                                  function_elem0 ;;
              let '(object, fe, l) := r in
              ret (Some object, fe, l)
          | None => ret (None, function_elem0, LNone)
          end ;;
    let '(object, function_elem1, lambda_node1) := r1 in
    r2 <- match function_elem1 with
          | Some fe => ret (Some fe, lambda_node1)
          | None =>
              resolve_variable (c_name statement_node) nargs outer_lambda_node
          end ;;
    let '(function_elem, lambda_node) := r2 in
    match function_elem with
    | Some (args_name_list, statements) =>
        push_scope ;;;
        st <- get_state ;;
        let scope_index := (length (variable_scope_list st) - 1)%nat in
        bind_args scope_index (c_args statement_node) args_name_list ;;;
        match object, c_objref statement_node with
        | Some o, Some objref =>
            bind_in_scope scope_index (Some "this") o ;;;
            bind_alias scope_index (Some "this") (Some objref)
        | _, _ => ret tt
        end ;;;
        run_func statements lambda_node
    | None => error NAME_ERROR
    end.

End Bodies.

(** [evaluate_expression] (lines 272-635), [run_statement] (71-159) and the
    [while] loop of lines 127-157.  [fuel] bounds the nesting of these three;
    the source has no such bound, and a run that needs more than [fuel] ends
    in [OutOfFuel]. *)
Fixpoint evaluate_expression (fuel : nat) (source_node : Expr)
  (lam : LambdaCtx) {struct fuel} : M Value :=
  match fuel with
  | O => raise OutOfFuel
  | S n =>
      match source_node with
      | ENewObj =>
          a <- alloc (ObjCell []) ;;
          ret (VObj a)
      | EInt val => ret (VInt val)
      | EString val =>
          if String.eqb val "true" || String.eqb val "false"
          then ret (VString val)
          else if String.eqb val "nil" then ret (VString val)
          else ret (create_value val)
      | EBool val => ret (get_bool_value val)
      | ENil => ret (create_value "nil")
      | EVar var_name => evaluate_var functions_list n var_name lam
      | EBin op e1 e2 =>
          op1_val <- evaluate_expression n e1 lam ;;
          op2_val <- evaluate_expression n e2 lam ;;
          binary_op op op1_val op2_val
      | ENeg e1 =>
          op1_val <- evaluate_expression n e1 lam ;;
          neg_op op1_val
      | EAnd e1 e2 =>
          op1_val <- evaluate_expression n e1 lam ;;
          op2_val <- evaluate_expression n e2 lam ;;
          logic_op true op1_val op2_val
      | EOr e1 e2 =>
          op1_val <- evaluate_expression n e1 lam ;;
          op2_val <- evaluate_expression n e2 lam ;;
          logic_op false op1_val op2_val
      | ENot e1 =>
          op1_val <- evaluate_expression n e1 lam ;;
          not_op op1_val
      | EEq e1 e2 =>
          op1_val <- evaluate_expression n e1 lam ;;
          op2_val <- evaluate_expression n e2 lam ;;
          equality_op true op1_val op2_val
      | ENe e1 e2 =>
          op1_val <- evaluate_expression n e1 lam ;;
          op2_val <- evaluate_expression n e2 lam ;;
          equality_op false op1_val op2_val
      | EFcall fname args =>
          if String.eqb fname "inputi"
          then evaluate_inputi (evaluate_expression n) args lam
          else if String.eqb fname "inputs"
          then evaluate_inputs (evaluate_expression n) args lam
          else do_func_call (evaluate_expression n) (run_statement n) n
                            (mkCall None fname args) LNone
      | EMcall objref fname args =>
          if String.eqb fname "inputi"
          then evaluate_inputi (evaluate_expression n) args lam
          else if String.eqb fname "inputs"
          then evaluate_inputs (evaluate_expression n) args lam
          else do_func_call (evaluate_expression n) (run_statement n) n
                            (mkCall (Some objref) fname args) LNone
      | ELambda args statements => evaluate_lambda args statements
      end
  end
with run_statement (fuel : nat) (statement_node : Stmt)
  (lam : LambdaCtx) {struct fuel} : M (option Value) :=
  match fuel with
  | O => raise OutOfFuel
  | S n =>
      match statement_node with
      | SAssign target source =>
          do_assignment (evaluate_expression n) target source lam ;;;
          ret None
      | SFcall fname args =>
          do_func_call (evaluate_expression n) (run_statement n) n
                       (mkCall None fname args) lam ;;;
          ret None
      | SMcall objref fname args =>
          do_func_call (evaluate_expression n) (run_statement n) n
                       (mkCall (Some objref) fname args) lam ;;;
          ret None
      | SReturn None => ret (Some NIL_VALUE)
      | SReturn (Some source_node) =>
          v <- evaluate_expression n source_node lam ;;
          c <- deepcopy n v ;;
          ret (Some c)
      | SIf cond statements else_statements =>
          condition <- evaluate_expression n cond LNone ;;
          b <- condition_bool condition ;;
          if b then
            push_scope ;;;
            run_if_statements (run_statement n) statements
          else
            match else_statements with
            | Some es =>
                push_scope ;;;
                run_if_statements (run_statement n) es
            | None => ret None
            end
      | SWhile cond statements =>
          condition <- evaluate_expression n cond LNone ;;
          b <- condition_bool condition ;;
          while_loop n b cond statements
      end
  end
with while_loop (fuel : nat) (condition : bool) (cond : Expr)
  (statements : list Stmt) {struct fuel} : M (option Value) :=
  match fuel with
  | O => raise OutOfFuel
  | S n =>
      if condition then
        push_scope ;;;
        return_value <- run_block (run_statement n) statements LNone ;;
        pop_scope ;;;
        match return_value with
        | Some v => ret (Some v)
        | None =>
            c <- evaluate_expression n cond LNone ;;
            b <- condition_bool c ;;
            while_loop n b cond statements
        end
      else ret None
  end.

End WithProgram.

(** [get_main_node] (lines 27-36): the first function named [main]. *)
Fixpoint get_main_node (functions_list : Program) : M FuncDef :=
  match functions_list with
  | [] => error NAME_ERROR
  | elem :: r =>
      if String.eqb (f_name elem) "main" then ret elem else get_main_node r
  end.

(** The interpreter before [run]: nothing output, [input] to read, and no
    scope stack yet. *)
Definition initial_state (program : Program) (input : list string) : State :=
  mkState [] [] [] (length program) [] input.

(** [run] (lines 17-24), on the parsed program. *)
Definition run (fuel : nat) (program : Program) (input : list string)
  : Result Value :=
  (main_node <- get_main_node program ;;
   modify (fun st => set_aliases [[]] (set_scopes [[]] st)) ;;;
   run_func (run_statement program fuel) (f_statements main_node) LNone)
    (initial_state program input).

End Interp.

(* ================================================================== *)
(** ** Rendering used by the worked programs *)

(** Modelled from the spec: [get_printable] of type_valuev1 is not among the
    sources.  The output sink contract (section 6) renders an Int as decimal
    digits, a Bool as [true] or [false], a String as its raw text and Nil as
    the nil literal.  It names no rendering for Object, Function and Lambda
    values; the worked programs below never print one, and they are given
    the empty text here. *)
Definition spec_printable (v : Value) : string :=
  match v with
  | VInt i => str_of_int i
  | VBool true => "true"
  | VBool false => "false"
  | VString s => s
  | VNil => "nil"
  | VObj _ | VFunc _ _ | VLambda _ => ""
  end.

(* ================================================================== *)
(** ** Vocabulary of the statements *)

(** Evaluating expressions one after the other, left to right, each in the
    state the one before it left. *)
Fixpoint evaluate_args (ev : Expr -> LambdaCtx -> M Value) (args : list Expr)
  (lam : LambdaCtx) : M (list Value) :=
  match args with
  | [] => ret []
  | a :: r =>
      v <- ev a lam ;;
      vs <- evaluate_args ev r lam ;;
      ret (v :: vs)
  end.

(** texts put one after the other, with nothing between them *)
Definition concat_all (l : list string) : string :=
  fold_right String.append EmptyString l.

(** What the search of lines 299-308 finds for [x] in the snapshot of the
    lambda being run; nothing outside a lambda body. *)
Definition snapshot_search (lam : LambdaCtx) (st : State) (x : string)
  : option Value :=
  match lam with
  | LCell a =>
      match lambda_captured (store st) a with
      | Some c => search_captured (store st) x c
      | None => None
      end
  | _ => None
  end.

(** [lam] is what [run_func] is given for a lambda that is in the store, or
    no lambda at all. *)
Definition lambda_ctx_ok (lam : LambdaCtx) (st : State) : Prop :=
  match lam with
  | LNone => True
  | LCell a => exists c, lambda_captured (store st) a = Some c
  | LValue _ => False
  end.

(** the binding of [k] in frame [j] *)
Definition lookup (scopes : list Frame) (j : nat) (k : name) : option Value :=
  match nth_error scopes j with
  | Some f => dict_get k f
  | None => None
  end.

(** a value a snapshot may hold: neither an Object nor a Lambda *)
Definition capturable (v : Value) : bool :=
  match type v with
  | OBJ | LAMBDA => false
  | _ => true
  end.

(** [alias_chain aliases i x j z]: following alias entries downwards from
    name [x] of frame [i], one frame per entry, passes name [z] of frame
    [j]. *)
Inductive alias_chain (aliases : list AliasTable)
  : nat -> name -> nat -> name -> Prop :=
| chain_here : forall i x, alias_chain aliases i x i x
| chain_down : forall i x tbl y j z,
    nth_error aliases (S i) = Some tbl ->
    dict_get x tbl = Some y ->
    alias_chain aliases i y j z ->
    alias_chain aliases (S i) x j z.

(** frame [r] has an alias table, and it has no entry for [z] *)
Definition no_alias (aliases : list AliasTable) (r : nat) (z : name) : Prop :=
  exists tbl, nth_error aliases r = Some tbl /\ dict_get z tbl = None.

(** whether the snapshot of the lambda being run has [x] as a key *)
Definition snapshot_holds (lam : LambdaCtx) (st : State) (x : string) : bool :=
  match lam with
  | LCell a =>
      match lambda_captured (store st) a with
      | Some c => dict_mem (Some x) c
      | None => false
      end
  | _ => false
  end.

(** [refers_to aliases r z j k]: name [k] of frame [j], a frame above [r],
    aliases name [z] of frame [r] directly (an entry [k -> z] in the table
    of frame [r + 1]) or through names of the frames between. *)
Inductive refers_to (aliases : list AliasTable) (r : nat) (z : name)
  : nat -> name -> Prop :=
| refers_directly : forall tbl k,
    nth_error aliases (S r) = Some tbl ->
    In (k, z) tbl ->
    refers_to aliases r z (S r) k
| refers_through : forall j m tbl k,
    refers_to aliases r z j m ->
    nth_error aliases (S j) = Some tbl ->
    In (k, m) tbl ->
    refers_to aliases r z (S j) k.

(** the keys of [tbl] whose alias is among [referenced], in the table's
    order *)
Fixpoint collected (referenced : list name) (tbl : AliasTable) : list name :=
  match tbl with
  | [] => []
  | (key, val) :: r =>
      if name_in val referenced then key :: collected referenced r
      else collected referenced r
  end.

(** [frame] with every name of [ks] bound to [v] *)
Fixpoint set_all (ks : list name) (v : Value) (frame : Frame) : Frame :=
  match ks with
  | [] => frame
  | k :: r => set_all r v (dict_set k v frame)
  end.

(** the names of frame [r + d] that the refresh of lines 411-419 rebinds
    when it starts from name [z] of frame [r] ([z] itself for [d = 0]) *)
Fixpoint refreshed (aliases : list AliasTable) (r : nat) (z : name) (d : nat)
  : list name :=
  match d with
  | O => [z]
  | S d' => collected (refreshed aliases r z d') (nth (r + S d') aliases [])
  end.

(** [shift ds da st st']: from [st] to [st'] the scope stack grew by
    exactly [ds] frames and the alias stack by at least [da] tables. *)
Definition shift (ds da : Z) (st st' : State) : Prop :=
  Z.of_nat (length (variable_scope_list st'))
  = Z.of_nat (length (variable_scope_list st)) + ds
  /\ Z.of_nat (length (variable_alias_list st)) + da
     <= Z.of_nat (length (variable_alias_list st')).

(** every completed run of [m] shifts the stacks by [ds] and at least
    [da] *)
Definition keeps {A : Type} (ds da : Z) (m : M A) : Prop :=
  forall st a st', m st = Ok a st' -> shift ds da st st'.


(** the state an operation leaves, whether it returned or aborted *)
Definition outcome_state {A : Type} (r : Result A) : State :=
  match r with
  | Ok _ st => st
  | Fail _ st => st
  end.

(** [grows st st']: from [st] to [st'] lines were only added to the output,
    tokens were only taken from the front of the input, and no cell of the
    store went away. *)
Definition grows (st st' : State) : Prop :=
  (exists l, output_log st' = (output_log st ++ l)%list)
  /\ (exists k, inp st = (k ++ inp st')%list)
  /\ (length (store st) <= length (store st'))%nat.

(** every run of [m], completed or aborted, leaves a state grown from the
    one it started in *)
Definition monotone {A : Type} (m : M A) : Prop :=
  forall st, grows st (outcome_state (m st)).

(** an immutable value: an Int, a Bool, a String or nil *)
Definition scalar (v : Value) : bool :=
  match v with
  | VInt _ | VBool _ | VString _ | VNil => true
  | _ => false
  end.

(** the truth value [&&], [||] and [!] read in an operand: a Bool is itself,
    an Int is true unless it is 0, anything else has none *)
Definition truth (v : Value) : option bool :=
  match v with
  | VBool b => Some b
  | VInt i => Some (negb (i =? 0))
  | _ => None
  end.
(* ================================================================== *)
(** ** Worked programs and states

    The programs and interpreter states the statements below are tried on,
    and the predicates their proofs share. *)

Definition empty_state : State := mkState [[]] [[]] [] 0 [] [].

Definition prog_no_main : Program :=
  [mkFunc "start" [] [SFcall "print" [EString "hi"]]].

(** a [main] that takes a parameter, and two functions named [main] *)
Definition prog_main_with_parameter : Program :=
  [mkFunc "main" [mkParam ByValue "x"] [SFcall "print" [EString "hi"]]].

Definition prog_two_mains : Program :=
  [mkFunc "main" [] [SFcall "print" [EString "first"]];
   mkFunc "main" [] [SFcall "print" [EString "second"]]].

Definition state_with_input (tokens : list string) : State :=
  mkState [[]] [[]] [] 0 [] tokens.

Definition def_f : FuncDef := mkFunc "f" [] [].

Definition prog_function_and_variable : Program :=
  [def_f;
   mkFunc "main" []
     [SAssign "f" (EInt 5);
      SAssign "l" (ELambda [] [SFcall "print" [EVar "f"]]);
      SFcall "l" [];
      SFcall "print" [EEq (EVar "f") (EInt 5)]]].

(** the state in the body of the lambda of [prog_function_and_variable] *)
Definition in_lambda_capturing_f : State :=
  mkState [[(Some "f", VInt 5); (Some "l", VLambda 0)]; []] [[]; []]
          [LambdaCell [] [SFcall "print" [EVar "f"]] [(Some "f", VInt 5)]]
          2 [] [].

Definition prog_stale_alias : Program :=
  [mkFunc "f" [mkParam ByRef "b"] [];
   mkFunc "g" [mkParam ByValue "b"] [SAssign "b" (EInt 9)];
   mkFunc "main" []
     [SAssign "a" (EInt 1);
      SIf (EBool true) [] None;
      SFcall "f" [EVar "a"];
      SFcall "g" [EInt 7];
      SFcall "print" [EVar "a"]]].

Definition state_i_is_0 : State :=
  mkState [[(Some "i", VInt 0)]] [[]] [] 0 [] [].

Definition prog_shadowed_capture : Program :=
  [mkFunc "f" [mkParam ByValue "x"]
     [SAssign "l" (ELambda [] [SFcall "print" [EVar "x"]]);
      SFcall "print" [EVar "x"];
      SFcall "l" []];
   mkFunc "main" [] [SAssign "x" (EInt 1); SFcall "f" [EInt 2]]].

(** the stack inside [f] of [prog_shadowed_capture] *)
Definition two_frames_binding_x : State :=
  mkState [[(Some "x", VInt 1)]; [(Some "x", VInt 2)]] [[]; []] [] 2 [] [].

Definition all_capturable (c : dict name Value) : Prop :=
  forall k v, In (k, v) c -> capturable v = true.

Definition same_but_nodes (st st' : State) : Prop :=
  variable_scope_list st' = variable_scope_list st /\
  variable_alias_list st' = variable_alias_list st /\
  store st' = store st /\
  output_log st' = output_log st /\
  inp st' = inp st.

Definition prog_object_in_scope : Program :=
  [mkFunc "main" []
     [SAssign "o" ENewObj;
      SAssign "l" (ELambda [] [SAssign "z" (EVar "o");
                               SFcall "print" [EString "ok"]]);
      SFcall "l" []]].

(** the state in the body of the lambda of [prog_object_in_scope] *)
Definition in_lambda_with_o_on_the_stack : State :=
  mkState [[(Some "o", VObj 0); (Some "l", VLambda 1)]; []] [[]; []]
          [ObjCell [];
           LambdaCell [] [SAssign "z" (EVar "o");
                          SFcall "print" [EString "ok"]] []]
          1 [] [].

Definition prog_object_out_of_scope : Program :=
  [mkFunc "mk" []
     [SAssign "o" ENewObj;
      SReturn (Some (ELambda [] [SReturn (Some (EVar "o"))]))];
   mkFunc "main" [] [SAssign "l" (EFcall "mk" []); SFcall "l" []]].

(** the state in the body of the lambda of [prog_object_out_of_scope] *)
Definition in_lambda_after_mk_returned : State :=
  mkState [[(Some "l", VLambda 2)]; []] [[]; []]
          [ObjCell [];
           LambdaCell [] [SReturn (Some (EVar "o"))] [];
           LambdaCell [] [SReturn (Some (EVar "o"))] []]
          2 [] [].

(** [lia] after [dict] is unfolded, so that the lengths of one stack read
    as one term *)
Ltac len_lia := unfold dict in *; lia.

(** [a=1; func f(ref b){ b = 2; } f(a);] with a [print(a)] after the call *)
Definition prog_reference_parameter : Program :=
  [mkFunc "f" [mkParam ByRef "b"] [SAssign "b" (EInt 2)];
   mkFunc "main" []
     [SAssign "a" (EInt 1); SFcall "f" [EVar "a"]; SFcall "print" [EVar "a"]]].

(** the state in the body of [f] *)
Definition in_f_with_b_aliasing_a : State :=
  mkState [[(Some "a", VInt 1)]; [(Some "b", VInt 1)]]
          [[]; [(Some "b", Some "a")]] [] 2 [] [].

Definition prog_assignment_in_lambda : Program :=
  [mkFunc "g" [mkParam ByRef "y"]
     [SAssign "l" (ELambda [] [SAssign "y" (EInt 5)]);
      SFcall "l" [];
      SFcall "print" [EVar "y"]];
   mkFunc "main" []
     [SAssign "a" (EInt 1); SFcall "g" [EVar "a"]; SFcall "print" [EVar "a"]]].

(** the state in the body of the lambda of [prog_assignment_in_lambda] *)
Definition in_lambda_capturing_y : State :=
  mkState [[(Some "a", VInt 1)];
           [(Some "y", VInt 1); (Some "l", VLambda 0)];
           []]
          [[]; [(Some "y", Some "a")]; []]
          [LambdaCell [] [SAssign "y" (EInt 5)]
                      [(Some "y", VInt 1); (Some "a", VInt 1)]]
          2 [] [].

(** [c] of frame 2 aliases [b] of frame 1, which aliases [a] of frame 0;
    [a] was written last *)
Definition chain_c_b_a : State :=
  mkState [[(Some "a", VInt 7)]; [(Some "b", VInt 1)]; [(Some "c", VInt 1)]]
          [[]; [(Some "b", Some "a")]; [(Some "c", Some "b")]] [] 0 [] [].

Definition prog_reference_through_a_block : Program :=
  [mkFunc "f" [mkParam ByRef "b"]
     [SAssign "a" (EInt 5); SFcall "print" [EVar "b"]];
   mkFunc "main" []
     [SAssign "a" (EInt 1);
      SIf (EBool true) [SFcall "f" [EVar "a"]] None]].

(** the state in [f] of [prog_reference_through_a_block] after [a = 5] *)
Definition in_f_called_from_a_block : State :=
  mkState [[(Some "a", VInt 5)]; []; [(Some "b", VInt 1)]]
          [[]; []; [(Some "b", Some "a")]] [] 2 [] [].

(** The transitive chain of the claim, run as a program: [h] writes through
    the innermost alias [c], and [g] then reads the intermediate alias
    [b]; [g] writes through [b], and [main] reads [a]. *)
Definition prog_transitive_chain : Program :=
  [mkFunc "h" [mkParam ByRef "c"] [SAssign "c" (EInt 3)];
   mkFunc "g" [mkParam ByRef "b"]
     [SFcall "h" [EVar "b"]; SFcall "print" [EVar "b"];
      SAssign "b" (EInt 4)];
   mkFunc "main" []
     [SAssign "a" (EInt 1); SFcall "g" [EVar "a"]; SFcall "print" [EVar "a"]]].

(** [x] holds an object whose prototype is the object [y] holds, which has
    the field [f] *)
Definition object_with_prototype : State :=
  mkState [[(Some "x", VObj 0); (Some "y", VObj 1)]] [[]]
          [ObjCell [("proto", VObj 1)]; ObjCell [("f", VInt 5)]] 0 [] [].

(** a function body that returns before its last statement *)
Definition body_returning_early : list Stmt :=
  [SReturn (Some (EInt 7)); SReturn (Some (EInt 8))].

(** [main] calls [f] with two arguments, [f] is defined with one *)
Definition prog_wrong_arity : Program :=
  [mkFunc "f" [mkParam ByValue "a"] [];
   mkFunc "main" [] [SFcall "f" [EInt 1; EInt 2]]].

(** [f] is defined twice with one parameter *)
Definition prog_f_twice : Program :=
  [mkFunc "f" [mkParam ByValue "a"] [SReturn (Some (EInt 1))];
   mkFunc "f" [mkParam ByValue "b"] [SReturn (Some (EInt 2))]].

(** [x] holds an Int *)
Definition state_x_is_5 : State :=
  mkState [[(Some "x", VInt 5)]] [[]] [] 0 [] [].

(** [x] holds a lambda of one parameter *)
Definition state_x_is_a_lambda : State :=
  mkState [[(Some "x", VLambda 0)]] [[]]
          [LambdaCell [mkParam ByValue "a"] [] []] 0 [] [].

(** [o] holds an object whose field [m] is a lambda of one parameter *)
Definition state_o_has_a_lambda_method : State :=
  mkState [[(Some "o", VObj 0)]] [[]]
          [ObjCell [("m", VLambda 1)];
           LambdaCell [mkParam ByValue "a"] [] []] 0 [] [].

Definition prog_printing_main : Program :=
  [mkFunc "main" [] [SAssign "x" (EInt 1); SFcall "print" [EVar "x"]]].

(** [f] takes [x] and [y]; the caller has an [x] of its own *)
Definition prog_two_parameters : Program :=
  [mkFunc "f" [mkParam ByValue "x"; mkParam ByValue "y"]
          [SReturn (Some (EVar "y"))]].

(* ================================================================== *)
(** ** Facts about dicts and lists *)

Section DictFacts.
Context {K V : Type} `{EqKey K}.

Lemma keqb_refl (k : K) : keqb k k = true.
Proof. now apply keqb_spec. Qed.

Lemma keqb_neq (a b : K) : a <> b -> keqb a b = false.
Proof.
  intro N. destruct (keqb a b) eqn:E; [|reflexivity].
  apply keqb_spec in E. contradiction.
Qed.

Lemma keqb_false (a b : K) : keqb a b = false -> a <> b.
Proof.
  intros E ->. rewrite keqb_refl in E. discriminate.
Qed.

Lemma key_eq_dec (a b : K) : {a = b} + {a <> b}.
Proof.
  destruct (keqb a b) eqn:E.
  - left. now apply keqb_spec.
  - right. now apply keqb_false.
Qed.

Lemma dict_get_set_same (k : K) (v : V) (d : dict K V) :
  dict_get k (dict_set k v d) = Some v.
Proof.
  induction d as [|[k' v'] r IH]; simpl.
  - now rewrite keqb_refl.
  - destruct (keqb k k') eqn:E; simpl; rewrite E; [reflexivity|exact IH].
Qed.

Lemma dict_get_set_other (k k0 : K) (v : V) (d : dict K V) :
  k0 <> k -> dict_get k0 (dict_set k v d) = dict_get k0 d.
Proof.
  intro N. induction d as [|[k' v'] r IH]; simpl.
  - now rewrite (keqb_neq N).
  - destruct (keqb k k') eqn:E; simpl.
    + apply keqb_spec in E. subst k'. now rewrite (keqb_neq N).
    + now rewrite IH.
Qed.

Lemma dict_get_In (k : K) (v : V) (d : dict K V) :
  dict_get k d = Some v -> In (k, v) d.
Proof.
  induction d as [|[k' v'] r IH]; simpl; [discriminate|].
  destruct (keqb k k') eqn:E.
  - intro Hv. inversion Hv; subst. apply keqb_spec in E. subst. now left.
  - intro Hv. right. now apply IH.
Qed.

Lemma dict_mem_true (k : K) (d : dict K V) :
  dict_mem k d = true <-> exists v, dict_get k d = Some v.
Proof.
  unfold dict_mem. destruct (dict_get k d) as [v|]; split.
  - intros _. now exists v.
  - reflexivity.
  - discriminate.
  - intros [v Hv]. discriminate.
Qed.

Lemma dict_mem_false (k : K) (d : dict K V) :
  dict_mem k d = false <-> dict_get k d = None.
Proof.
  unfold dict_mem. destruct (dict_get k d); split; congruence.
Qed.

Lemma dict_mem_set (k k0 : K) (v : V) (d : dict K V) :
  dict_mem k0 (dict_set k v d) = (keqb k0 k || dict_mem k0 d)%bool.
Proof.
  unfold dict_mem. destruct (key_eq_dec k0 k) as [->|N].
  - now rewrite dict_get_set_same, keqb_refl.
  - now rewrite (dict_get_set_other _ _ N), (keqb_neq N).
Qed.
End DictFacts.

Section ListFacts.
Context {A : Type}.

Lemma set_nth_length (i : nat) (x : A) (l : list A) :
  length (set_nth i x l) = length l.
Proof.
  revert i. induction l as [|y r IH]; intros [|j]; simpl; auto.
Qed.

Lemma nth_error_set_nth_same (i : nat) (x : A) (l : list A) :
  (i < length l)%nat -> nth_error (set_nth i x l) i = Some x.
Proof.
  revert i. induction l as [|y r IH]; intros [|j] Hl; simpl in *;
    try lia; auto. apply IH. lia.
Qed.

Lemma nth_error_set_nth_other (i j : nat) (x : A) (l : list A) :
  i <> j -> nth_error (set_nth i x l) j = nth_error l j.
Proof.
  revert i j. induction l as [|y r IH]; intros [|i] [|j] N; simpl;
    try reflexivity; try congruence. apply IH. congruence.
Qed.

Lemma py_index_nat (l : list A) (i : nat) :
  py_index l (Z.of_nat i) = nth_error l i.
Proof.
  unfold py_index.
  destruct (Z.leb_spec 0 (Z.of_nat i)); [|lia]. simpl.
  destruct (Z.ltb_spec (Z.of_nat i) (Z.of_nat (length l))).
  - now rewrite Nat2Z.id.
  - destruct (Z.ltb_spec (Z.of_nat i) 0); [lia|].
    rewrite andb_false_r. symmetry. apply nth_error_None. lia.
Qed.

Lemma py_norm_nat (l : list A) (i : nat) :
  (i < length l)%nat -> py_norm l (Z.of_nat i) = Some i.
Proof.
  intro Hl. unfold py_norm.
  destruct (Z.leb_spec 0 (Z.of_nat i)); [|lia].
  destruct (Z.ltb_spec (Z.of_nat i) (Z.of_nat (length l))); [|lia].
  simpl. now rewrite Nat2Z.id.
Qed.
End ListFacts.

Section DictMoreFacts.
Context {K V : Type} `{EqKey K}.

Lemma In_dict_set (k k' : K) (v v' : V) (d : dict K V) :
  In (k', v') (dict_set k v d) -> (k' = k /\ v' = v) \/ In (k', v') d.
Proof.
  induction d as [|[k0 v0] r IH]; simpl.
  - intros [E|[]]. inversion E. auto.
  - destruct (keqb k k0) eqn:E; simpl.
    + apply keqb_spec in E. subst k0.
      intros [E'|Hin]; [inversion E'; auto|auto].
    + intros [E'|Hin]; [auto|].
      destruct (IH Hin) as [?|?]; auto.
Qed.

Lemma dict_get_None_not_In (k : K) (d : dict K V) :
  dict_get k d = None -> forall v, ~ In (k, v) d.
Proof.
  induction d as [|[k0 v0] r IH]; simpl; intros Hg v; [tauto|].
  destruct (keqb k k0) eqn:E; [discriminate|].
  intros [E'|Hin].
  - inversion E'; subst. rewrite keqb_refl in E. discriminate.
  - exact (IH Hg v Hin).
Qed.
End DictMoreFacts.

Unset Implicit Arguments.

(* ================================================================== *)
(** ** Equations of the evaluator *)

Section Equations.
Variable gp : Value -> string.
Variable fl : Program.

Lemma evaluate_bin_eq (n : nat) (op : BinOp) (e1 e2 : Expr) (lam : LambdaCtx) :
  evaluate_expression gp fl (S n) (EBin op e1 e2) lam =
  (op1_val <- evaluate_expression gp fl n e1 lam ;;
   op2_val <- evaluate_expression gp fl n e2 lam ;;
   binary_op op op1_val op2_val).
Proof. reflexivity. Qed.

Lemma evaluate_var_eq (n : nat) (x : string) (lam : LambdaCtx) :
  evaluate_expression gp fl (S n) (EVar x) lam = evaluate_var fl n x lam.
Proof. reflexivity. Qed.

Lemma evaluate_lambda_eq (n : nat) (ps : list Param) (body : list Stmt)
  (lam : LambdaCtx) :
  evaluate_expression gp fl (S n) (ELambda ps body) lam = evaluate_lambda ps body.
Proof. reflexivity. Qed.

Lemma evaluate_inputi_eq (n : nat) (args : list Expr) (lam : LambdaCtx) :
  evaluate_expression gp fl (S n) (EFcall "inputi" args) lam =
  evaluate_inputi gp (evaluate_expression gp fl n) args lam.
Proof. reflexivity. Qed.

Lemma run_assign_eq (n : nat) (x : string) (e : Expr) (lam : LambdaCtx) :
  run_statement gp fl (S n) (SAssign x e) lam =
  (do_assignment (evaluate_expression gp fl n) x e lam ;;; ret None).
Proof. reflexivity. Qed.

Lemma run_fcall_eq (n : nat) (f : string) (args : list Expr) (lam : LambdaCtx) :
  run_statement gp fl (S n) (SFcall f args) lam =
  (do_func_call gp fl (evaluate_expression gp fl n) (run_statement gp fl n) n
                (mkCall None f args) lam ;;; ret None).
Proof. reflexivity. Qed.

Lemma evaluate_fcall_eq (n : nat) (f : string) (args : list Expr)
  (lam : LambdaCtx) :
  String.eqb f "inputi" = false -> String.eqb f "inputs" = false ->
  evaluate_expression gp fl (S n) (EFcall f args) lam =
  do_func_call gp fl (evaluate_expression gp fl n) (run_statement gp fl n) n
               (mkCall None f args) LNone.
Proof. intros H1 H2. simpl. now rewrite H1, H2. Qed.

End Equations.

(* ================================================================== *)
(** ** Division by zero *)

Lemma binary_op_div_zero (v1 v2 : Value) (a : Z) (st : State) :
  int_of_bool_value v1 = VInt a ->
  int_of_bool_value v2 = VInt 0 ->
  binary_op Div v1 v2 st = Fail (Host ZeroDivisionError) st.
Proof.
  intros H1 H2. unfold binary_op. rewrite H1, H2. reflexivity.
Qed.

(** C8.  A division whose operands evaluate, after the Bool-to-Int coercion,
    to Ints with divisor 0 ends the evaluation in the host's
    ZeroDivisionError: no NAME_ERROR, no TYPE_ERROR and no value. *)
Theorem division_by_zero_is_a_host_exception
  (gp : Value -> string) (fl : Program) (n : nat) (e1 e2 : Expr)
  (lam : LambdaCtx) (st st1 st2 : State) (v1 v2 : Value) (a : Z) :
  evaluate_expression gp fl n e1 lam st = Ok v1 st1 ->
  evaluate_expression gp fl n e2 lam st1 = Ok v2 st2 ->
  int_of_bool_value v1 = VInt a ->
  int_of_bool_value v2 = VInt 0 ->
  evaluate_expression gp fl (S n) (EBin Div e1 e2) lam st
  = Fail (Host ZeroDivisionError) st2.
Proof.
  intros E1 E2 H1 H2.
  rewrite evaluate_bin_eq. unfold bind. rewrite E1, E2.
  now apply binary_op_div_zero with (a := a).
Qed.

Lemma division_by_zero_witness :
  evaluate_expression spec_printable [] 2 (EBin Div (EInt 7) (EBool false))
                      LNone empty_state
  = Fail (Host ZeroDivisionError) empty_state.
Proof.
  apply (division_by_zero_is_a_host_exception spec_printable [] 1
           (EInt 7) (EBool false) LNone empty_state empty_state empty_state
           (VInt 7) (VBool false) 7); reflexivity.
Defined.

(* ================================================================== *)
(** ** print *)

Lemma string_app_nil_r (s : string) : (s ++ "")%string = s.
Proof. induction s as [|c s IH]; simpl; [reflexivity|now rewrite IH]. Qed.

Lemma string_app_assoc (a b c : string) :
  ((a ++ b) ++ c)%string = (a ++ (b ++ c))%string.
Proof. induction a as [|x a IH]; simpl; [reflexivity|now rewrite IH]. Qed.

Lemma print_args_spec (gp : Value -> string)
  (ev : Expr -> LambdaCtx -> M Value) (lam : LambdaCtx) (args : list Expr) :
  forall (acc : string) (st st' : State) (vs : list Value),
    evaluate_args ev args lam st = Ok vs st' ->
    print_args gp ev args lam acc st
    = Ok (acc ++ concat_all (map gp vs))%string st'.
Proof.
  induction args as [|a r IH]; intros acc st st' vs H; simpl in *.
  - unfold ret in *. inversion H; subst. simpl. now rewrite string_app_nil_r.
  - unfold bind in *. destruct (ev a lam st) as [v st1|f st1]; [|discriminate].
    destruct (evaluate_args ev r lam st1) as [vs1 st2|f st2] eqn:E;
      [|discriminate].
    unfold ret in H. inversion H; subst.
    rewrite (IH _ _ _ _ E). simpl. now rewrite string_app_assoc.
Qed.

(** C10.  A call of [print], with any number of arguments and whether
    written as a function or a method call: once its arguments have been
    evaluated left to right to the values [vs], exactly one line is added to
    the output, the renderings of [vs] put together with no separator, and
    the call's value is Nil. *)
Theorem print_sends_one_line_and_is_nil
  (gp : Value -> string) (fl : Program) (n : nat) (objref : option string)
  (args : list Expr) (lam : LambdaCtx) (st st' : State) (vs : list Value) :
  evaluate_args (evaluate_expression gp fl n) args lam st = Ok vs st' ->
  do_func_call gp fl (evaluate_expression gp fl n) (run_statement gp fl n) n
               (mkCall objref "print" args) lam st
  = Ok NIL_VALUE
       (set_output (output_log st' ++ [concat_all (map gp vs)]) st').
Proof.
  intro H. unfold do_func_call. simpl.
  unfold bind. rewrite (print_args_spec gp _ _ _ "" _ _ _ H). reflexivity.
Qed.

Lemma print_witness :
  do_func_call spec_printable [] (evaluate_expression spec_printable [] 1)
               (run_statement spec_printable [] 1) 1
               (mkCall None "print" [EInt 4; EString "x"; EBool true])
               LNone empty_state
  = Ok VNil (set_output ["4xtrue"] empty_state).
Proof.
  apply (print_sends_one_line_and_is_nil spec_printable [] 1 None
           [EInt 4; EString "x"; EBool true] LNone empty_state empty_state
           [VInt 4; VString "x"; VBool true]).
  reflexivity.
Defined.

(** A [print] statement with no argument sends the empty line. *)
Example print_nothing :
  run_statement spec_printable [] 2 (SFcall "print" []) LNone empty_state
  = Ok None (set_output [""] empty_state).
Proof. reflexivity. Qed.

(* ================================================================== *)
(** ** main *)

Lemma get_main_node_none (prog : Program) (st : State) :
  (forall f, In f prog -> f_name f <> "main") ->
  get_main_node prog st = Fail (Error NAME_ERROR) st.
Proof.
  induction prog as [|e r IH]; intro H; simpl; [reflexivity|].
  destruct (String.eqb (f_name e) "main") eqn:E.
  - apply String.eqb_eq in E. exfalso. apply (H e); [now left|exact E].
  - apply IH. intros f Hf. apply H. now right.
Qed.

Lemma get_main_node_first (pre post : Program) (m : FuncDef) (st : State) :
  (forall f, In f pre -> f_name f <> "main") ->
  f_name m = "main" ->
  get_main_node (pre ++ m :: post)%list st = Ok m st.
Proof.
  induction pre as [|e r IH]; intros H Hm; simpl.
  - rewrite Hm. reflexivity.
  - destruct (String.eqb (f_name e) "main") eqn:E.
    + apply String.eqb_eq in E. exfalso. apply (H e); [now left|exact E].
    + apply IH; [|exact Hm]. intros f Hf. apply H. now right.
Qed.

(** C5, as the code has it.  A program with no function named [main] fails
    with NAME_ERROR in the state the interpreter starts in: nothing was run
    or output.  A program that has one runs the body of the first function
    named [main], whatever that function's parameters and whatever follows
    it in the program, further functions named [main] included. *)
Theorem run_fails_only_without_a_main
  (gp : Value -> string) (fuel : nat) (prog : Program) (input : list string) :
  ((forall f, In f prog -> f_name f <> "main") ->
   run gp fuel prog input
   = Fail (Error NAME_ERROR) (initial_state prog input))
  /\
  (forall pre m post,
     prog = (pre ++ m :: post)%list ->
     (forall f, In f pre -> f_name f <> "main") ->
     f_name m = "main" ->
     run gp fuel prog input
     = run_func (run_statement gp prog fuel) (f_statements m) LNone
                (mkState [[]] [[]] [] (length prog) [] input)).
Proof.
  split.
  - intro H. unfold run, bind. now rewrite get_main_node_none.
  - intros pre m post -> Hpre Hm. unfold run, bind.
    rewrite (get_main_node_first _ _ _ _ Hpre Hm). reflexivity.
Qed.

Lemma run_without_main_witness :
  run spec_printable 5 prog_no_main []
  = Fail (Error NAME_ERROR) (initial_state prog_no_main []).
Proof.
  apply (proj1 (run_fails_only_without_a_main spec_printable 5 prog_no_main [])).
  intros f [<-|[]]. discriminate.
Defined.

(** C5 as stated fails: neither program has exactly one [main] with zero
    arguments, and each runs to the end and prints. *)
Lemma main_arity_and_count_are_not_checked :
  (exists st, run spec_printable 5 prog_main_with_parameter [] = Ok VNil st
              /\ output_log st = ["hi"])
  /\ (exists st, run spec_printable 5 prog_two_mains [] = Ok VNil st
                 /\ output_log st = ["first"]).
Proof.
  split; eexists; split; vm_compute; reflexivity.
Qed.

(* ================================================================== *)
(** ** inputi *)

Lemma int_of_digits_nonneg (s : string) :
  forall acc, all_digits s = true -> 0 <= acc -> 0 <= int_of_digits acc s.
Proof.
  induction s as [|c s IH]; intros acc Hd Hacc;
    cbn [all_digits int_of_digits] in *; [exact Hacc|].
  apply andb_true_iff in Hd. destruct Hd as [Hc Hs].
  apply IH; [exact Hs|].
  unfold is_digit in Hc. apply andb_true_iff in Hc. destruct Hc as [Hlo _].
  apply Nat.leb_le in Hlo. lia.
Qed.

Lemma ascii_digits_nonneg (t : string) :
  ascii_digits t = true -> 0 <= int_of_digits 0 t.
Proof.
  intro H. apply int_of_digits_nonneg; [|lia].
  destruct t; [discriminate|exact H].
Qed.

Lemma ascii_digits_minus (t : string) : ascii_digits (String "-" t) = false.
Proof. reflexivity. Qed.

Lemma evaluate_inputi_read (gp : Value -> string)
  (ev : Expr -> LambdaCtx -> M Value) (args : list Expr) (lam : LambdaCtx)
  (st st1 : State) (t : string) (rest : list string) :
  input_prompt gp ev args lam st = Ok tt st1 ->
  inp st1 = t :: rest ->
  ascii_text t = true ->
  (String.length t <=? int_max_str_digits)%nat = true ->
  evaluate_inputi gp ev args lam st
  = if ascii_digits t then Ok (VInt (int_of_digits 0 t)) (set_inp rest st1)
    else Fail (Error TYPE_ERROR) (set_inp rest st1).
Proof.
  intros Hp Hi Ha Hl. unfold evaluate_inputi, bind. rewrite Hp.
  unfold get_input. rewrite Hi. unfold isdigit, int_of_string.
  rewrite Ha, Hl. destruct (ascii_digits t); reflexivity.
Qed.

(** C7, as the code has it.  An [inputi] call with more than one argument is
    a NAME_ERROR before anything is evaluated, output or read.  With one
    argument the prompt is evaluated and its rendering sent to the output
    before the token is read.  For a token of ASCII characters, at most
    [int_max_str_digits] of them: the token is accepted only if it is not
    empty and all digits, and is then the non-negative number it writes in
    decimal; any other such token, a negative literal such as [-5] included,
    is a TYPE_ERROR. *)
Theorem inputi_accepts_only_digit_tokens
  (gp : Value -> string) (fl : Program) (n : nat) (lam : LambdaCtx)
  (st : State) :
  (forall args, (2 <= length args)%nat ->
     evaluate_expression gp fl (S n) (EFcall "inputi" args) lam st
     = Fail (Error NAME_ERROR) st)
  /\
  (forall t rest,
     inp st = t :: rest ->
     ascii_text t = true ->
     (String.length t <=? int_max_str_digits)%nat = true ->
     evaluate_expression gp fl (S n) (EFcall "inputi" []) lam st
     = if ascii_digits t
       then Ok (VInt (int_of_digits 0 t)) (set_inp rest st)
       else Fail (Error TYPE_ERROR) (set_inp rest st))
  /\
  (forall p v st1 t rest,
     evaluate_expression gp fl n p lam st = Ok v st1 ->
     inp st1 = t :: rest ->
     ascii_text t = true ->
     (String.length t <=? int_max_str_digits)%nat = true ->
     evaluate_expression gp fl (S n) (EFcall "inputi" [p]) lam st
     = if ascii_digits t
       then Ok (VInt (int_of_digits 0 t))
               (set_inp rest (set_output (output_log st1 ++ [gp v]) st1))
       else Fail (Error TYPE_ERROR)
                 (set_inp rest (set_output (output_log st1 ++ [gp v]) st1)))
  /\
  (forall t, ascii_digits t = true -> 0 <= int_of_digits 0 t)
  /\
  (forall t, ascii_digits (String "-" t) = false).
Proof.
  split; [|split; [|split; [|split]]].
  - intros args Hlen. rewrite evaluate_inputi_eq.
    destruct args as [|a [|b r]]; simpl in Hlen; try lia. reflexivity.
  - intros t rest Hi Ha Hl. rewrite evaluate_inputi_eq.
    apply evaluate_inputi_read; [reflexivity|exact Hi|exact Ha|exact Hl].
  - intros p v st1 t rest Hp Hi Ha Hl. rewrite evaluate_inputi_eq.
    apply evaluate_inputi_read; [|exact Hi|exact Ha|exact Hl].
    simpl. unfold bind. rewrite Hp. reflexivity.
  - exact ascii_digits_nonneg.
  - exact ascii_digits_minus.
Qed.

Lemma inputi_witness :
  evaluate_expression spec_printable [] 2
    (EFcall "inputi" [EString "n?"]) LNone (state_with_input ["042"; "7"])
  = Ok (VInt 42) (mkState [[]] [[]] [] 0 ["n?"] ["7"]).
Proof.
  exact (proj1 (proj2 (proj2
    (inputi_accepts_only_digit_tokens spec_printable [] 1 LNone
       (state_with_input ["042"; "7"]))))
    (EString "n?") (VString "n?") (state_with_input ["042"; "7"])
    "042" ["7"] eq_refl eq_refl eq_refl eq_refl).
Defined.

(** C7 as stated fails: the token [-5] writes a negative integer literal,
    and [inputi] does not parse it, it ends in TYPE_ERROR. *)
Lemma inputi_rejects_a_negative_literal :
  evaluate_expression spec_printable [] 2 (EFcall "inputi" []) LNone
                      (state_with_input ["-5"])
  = Fail (Error TYPE_ERROR) (state_with_input []).
Proof. reflexivity. Qed.

(* ================================================================== *)
(** ** A variable named like a function *)

Lemma functions_named_filter (x : string) (fl : Program) :
  forall pos,
    map snd (functions_named x fl pos)
    = filter (fun e => String.eqb (f_name e) x) fl.
Proof.
  induction fl as [|e r IH]; intro pos; simpl; [reflexivity|].
  destruct (String.eqb (f_name e) x); simpl; now rewrite IH.
Qed.

Lemma functions_named_nth (x : string) (fl : Program) :
  forall pos p d,
    In (p, d) (functions_named x fl pos) ->
    (pos <= p)%nat /\ nth_error fl (p - pos) = Some d.
Proof.
  induction fl as [|e r IH]; intros pos p d Hin; simpl in *; [contradiction|].
  destruct (String.eqb (f_name e) x).
  - destruct Hin as [Heq|Hin].
    + inversion Heq; subst. split; [lia|]. now rewrite Nat.sub_diag.
    + apply IH in Hin. destruct Hin as [Hle Hn]. split; [lia|].
      replace (p - pos)%nat with (S (p - S pos)) by lia. exact Hn.
  - apply IH in Hin. destruct Hin as [Hle Hn]. split; [lia|].
    replace (p - pos)%nat with (S (p - S pos)) by lia. exact Hn.
Qed.

(** What the ['var'] branch does before it looks at the call stack. *)
Lemma evaluate_var_prefix (fl : Program) (n : nat) (x : string)
  (lam : LambdaCtx) (st : State) :
  lambda_ctx_ok lam st ->
  evaluate_var fl n x lam st
  = match snapshot_search lam st x with
    | Some v => Ok v st
    | None =>
        match functions_named x fl 0 with
        | [(pos, d)] => Ok (VFunc pos d) st
        | _ :: _ :: _ => Fail (Error NAME_ERROR) st
        | [] => if has_dot x then read_field n x st else read_var x st
        end
    end.
Proof.
  intro Hok. unfold evaluate_var, bind.
  destruct lam as [|a|v]; simpl in *.
  - reflexivity.
  - destruct Hok as [c Hc]. rewrite Hc. reflexivity.
  - contradiction.
Qed.

(** C9, as the code has it.  Where the snapshot of the lambda being run has
    the name (directly or one level down), its value is the result.
    Otherwise, and always outside a lambda body, a name that matches
    exactly one function definition evaluates to the Function value of that
    definition, and a name that matches several is a NAME_ERROR, whatever
    the scope frames hold: the definitions are looked at before the call
    stack. *)
Theorem function_lookup_precedes_the_call_stack
  (gp : Value -> string) (fl : Program) (n : nat) (x : string)
  (lam : LambdaCtx) (st : State) :
  lambda_ctx_ok lam st ->
  match snapshot_search lam st x with
  | Some v => evaluate_expression gp fl (S n) (EVar x) lam st = Ok v st
  | None =>
      (forall d,
         filter (fun e => String.eqb (f_name e) x) fl = [d] ->
         exists pos,
           nth_error fl pos = Some d /\
           evaluate_expression gp fl (S n) (EVar x) lam st
           = Ok (VFunc pos d) st)
      /\
      ((2 <= length (filter (fun e => String.eqb (f_name e) x) fl))%nat ->
       evaluate_expression gp fl (S n) (EVar x) lam st
       = Fail (Error NAME_ERROR) st)
  end.
Proof.
  intro Hok. rewrite evaluate_var_eq, (evaluate_var_prefix fl n x lam st Hok).
  destruct (snapshot_search lam st x) as [v|]; [reflexivity|].
  pose proof (functions_named_filter x fl 0) as Hf.
  pose proof (functions_named_nth x fl 0) as Hn.
  destruct (functions_named x fl 0) as [|[pos d] [|q r]] eqn:E.
  - rewrite <- Hf. simpl. split; [intros d Hd; discriminate|intro; lia].
  - rewrite <- Hf. simpl. split; [|intro; lia].
    intros d' Hd. inversion Hd; subst d'. exists pos. split; [|reflexivity].
    destruct (Hn pos d (or_introl eq_refl)) as [_ Hnth].
    now rewrite Nat.sub_0_r in Hnth.
  - rewrite <- Hf. simpl. split; [intros d' Hd; discriminate|].
    intros _. reflexivity.
Qed.

Lemma function_lookup_witness :
  In def_f prog_function_and_variable /\
  evaluate_expression spec_printable prog_function_and_variable 1
                      (EVar "f") LNone in_lambda_capturing_f
  = Ok (VFunc 0 def_f) in_lambda_capturing_f.
Proof.
  split; [now left|].
  destruct (proj1 (function_lookup_precedes_the_call_stack spec_printable
              prog_function_and_variable 0 "f" LNone in_lambda_capturing_f I)
              def_f eq_refl) as [pos [Hpos Hev]].
  destruct pos as [|[|[|pos]]]; simpl in Hpos; try discriminate;
    inversion Hpos; subst; exact Hev.
Defined.

(** C9 as stated fails: [f] matches exactly one function definition and a
    variable [f] exists in a scope frame, yet inside the lambda, whose
    snapshot took that variable, [f] evaluates to the Int 5 and not to a
    Function value.  The program prints 5 from the lambda, and [false] for
    [f == 5] in [main], where [f] is the function. *)
Lemma captured_variable_hides_the_function :
  filter (fun e => String.eqb (f_name e) "f") prog_function_and_variable
  = [def_f]
  /\ lookup (variable_scope_list in_lambda_capturing_f) 0 (Some "f")
     = Some (VInt 5)
  /\ evaluate_expression spec_printable prog_function_and_variable 1
                         (EVar "f") (LCell 0) in_lambda_capturing_f
     = Ok (VInt 5) in_lambda_capturing_f
  /\ exists st, run spec_printable 6 prog_function_and_variable [] = Ok VNil st
                /\ output_log st = ["5"; "false"].
Proof.
  split; [vm_compute; reflexivity|].
  split; [vm_compute; reflexivity|].
  split; [vm_compute; reflexivity|].
  eexists. split; vm_compute; reflexivity.
Qed.

(* ================================================================== *)
(** ** Stacks after a block *)

(** C4 fails on the code.  [run_if_statements] and the [while] loop pop the
    scope frame of a block but not its alias table ([run_func] pops both):
    after an [if] block, after an [if] block left by [return], and after a
    [while] loop, the alias stack is longer than the scope stack.  The table
    left behind is reused by later calls: in [prog_stale_alias] the value
    parameter [b] of [g] writes through the alias the earlier call [f(a)]
    recorded, and [main] prints 9 for [a]. *)
Theorem block_exit_leaves_its_alias_table :
  (exists st, run_statement spec_printable [] 3 (SIf (EBool true) [] None)
                            LNone empty_state = Ok None st
              /\ length (variable_scope_list st) = 1%nat
              /\ length (variable_alias_list st) = 2%nat)
  /\
  (exists st, run_statement spec_printable [] 3
                (SIf (EBool true) [SReturn None] None) LNone empty_state
              = Ok (Some VNil) st
              /\ length (variable_scope_list st) = 1%nat
              /\ length (variable_alias_list st) = 2%nat)
  /\
  (exists st, run_statement spec_printable [] 8
                (SWhile (EBin Lt (EVar "i") (EInt 2))
                        [SAssign "i" (EBin Add (EVar "i") (EInt 1))])
                LNone state_i_is_0 = Ok None st
              /\ length (variable_scope_list st) = 1%nat
              /\ length (variable_alias_list st) = 3%nat)
  /\
  (exists st, run spec_printable 6 prog_stale_alias [] = Ok VNil st
              /\ output_log st = ["9"]).
Proof.
  split; [|split; [|split]]; eexists; (split; [vm_compute; reflexivity|]);
    try split; vm_compute; reflexivity.
Qed.

(* ================================================================== *)
(** ** Capture *)

(** C3 fails on the code.  With [x] bound in two frames, the binding a read
    of [x] sees is the innermost one, 2; the snapshot of a lambda literal
    evaluated there holds the outermost one, 1, because the capture loop
    walks the frames innermost first and lets each later frame overwrite the
    entry.  [prog_shadowed_capture] prints 2 from [f] and then 1 from the
    lambda created in [f]. *)
Theorem capture_takes_the_outermost_binding :
  evaluate_expression spec_printable [] 1 (EVar "x") LNone two_frames_binding_x
  = Ok (VInt 2) two_frames_binding_x
  /\ capture [] two_frames_binding_x
     = Ok [(Some "x", VInt 1)] two_frames_binding_x
  /\ exists st, run spec_printable 8 prog_shadowed_capture [] = Ok VNil st
                /\ output_log st = ["2"; "1"].
Proof.
  split; [vm_compute; reflexivity|].
  split; [vm_compute; reflexivity|].
  eexists. split; vm_compute; reflexivity.
Qed.

(* ================================================================== *)
(** ** Objects and lambdas stay out of a snapshot *)

(** The deep copy of a value that is no Object and no Lambda needs no fuel,
    keeps the kind of the value and touches neither the stacks nor the
    store. *)
Lemma deepcopy_capturable (fuel : nat) (v : Value) (st : State) :
  capturable v = true ->
  exists v' st',
    deepcopy fuel v st = Ok v' st' /\
    capturable v' = true /\
    variable_scope_list st' = variable_scope_list st /\
    variable_alias_list st' = variable_alias_list st /\
    store st' = store st /\
    output_log st' = output_log st /\
    inp st' = inp st.
Proof.
  intro Hc. destruct st.
  destruct v; try discriminate; unfold deepcopy; destruct fuel; simpl;
    eexists; eexists; (split; [reflexivity|]); repeat split; reflexivity.
Qed.

Lemma same_but_nodes_refl (st : State) : same_but_nodes st st.
Proof. repeat split. Qed.

Lemma same_but_nodes_trans (a b c : State) :
  same_but_nodes a b -> same_but_nodes b c -> same_but_nodes a c.
Proof.
  unfold same_but_nodes. intros (A1 & A2 & A3 & A4 & A5) (B1 & B2 & B3 & B4 & B5).
  repeat split; congruence.
Qed.

Lemma capture_entries_capturable (formals : list name) (entries : Frame) :
  forall (c : dict name Value) (st : State),
    all_capturable c ->
    exists c' st',
      capture_entries formals entries c st = Ok c' st' /\
      all_capturable c' /\ same_but_nodes st st'.
Proof.
  induction entries as [|[key value] r IH]; intros c st Hc; simpl.
  - exists c, st. split; [reflexivity|]. split; [exact Hc|].
    apply same_but_nodes_refl.
  - destruct (name_in key formals); [now apply IH|].
    destruct (capturable value) eqn:Ecap.
    + destruct (deepcopy_capturable 0 value st Ecap)
        as (v' & st1 & Hd & Hc' & Hsame).
      assert (Hstep :
        exists c' st', (copy <- deepcopy 0 value ;;
                        capture_entries formals r (dict_set key copy c)) st
                       = Ok c' st'
                       /\ all_capturable c' /\ same_but_nodes st st').
      { unfold bind. rewrite Hd.
        destruct (IH (dict_set key v' c) st1) as (c2 & st2 & H2 & Hc2 & Hs2).
        - intros k v Hin. apply In_dict_set in Hin.
          destruct Hin as [[_ ->]|Hin]; [exact Hc'|exact (Hc k v Hin)].
        - exists c2, st2. split; [exact H2|]. split; [exact Hc2|].
          eapply same_but_nodes_trans; [|exact Hs2]. exact Hsame. }
      unfold capturable in Ecap.
      destruct (type value); try discriminate; exact Hstep.
    + unfold capturable in Ecap.
      destruct (type value); try discriminate; now apply IH.
Qed.

Lemma capture_frames_capturable (formals : list name) (scopes : list Frame)
  (n : nat) :
  forall (c : dict name Value) (st : State),
    all_capturable c ->
    exists c' st',
      capture_frames formals scopes n c st = Ok c' st' /\
      all_capturable c' /\ same_but_nodes st st'.
Proof.
  induction n as [|i IH]; intros c st Hc; simpl.
  - exists c, st. split; [reflexivity|]. split; [exact Hc|].
    apply same_but_nodes_refl.
  - destruct (nth_error scopes i) as [f|]; [|now apply IH].
    unfold bind.
    destruct (capture_entries_capturable formals f c st Hc)
      as (c1 & st1 & H1 & Hc1 & Hs1).
    rewrite H1.
    destruct (IH c1 st1 Hc1) as (c2 & st2 & H2 & Hc2 & Hs2).
    exists c2, st2. split; [exact H2|]. split; [exact Hc2|].
    eapply same_but_nodes_trans; eassumption.
Qed.

(** A lambda literal always gets its snapshot, and the snapshot holds no
    Object and no Lambda value. *)
Lemma capture_holds_no_reference_value (args : list Param) (st : State) :
  exists c st',
    capture args st = Ok c st' /\
    (forall k v, In (k, v) c -> type v <> OBJ /\ type v <> LAMBDA) /\
    same_but_nodes st st'.
Proof.
  unfold capture.
  destruct (capture_frames_capturable (map (fun a => Some (p_name a)) args)
              (variable_scope_list st) (length (variable_scope_list st))
              [] st) as (c & st' & H & Hc & Hs).
  - intros k v [].
  - exists c, st'. split; [exact H|]. split; [|exact Hs].
    intros k v Hin. specialize (Hc k v Hin). unfold capturable in Hc.
    destruct (type v); split; congruence.
Qed.

Lemma functions_named_none (x : string) (fl : Program) :
  (forall d, In d fl -> f_name d <> x) ->
  forall pos, functions_named x fl pos = [].
Proof.
  induction fl as [|e r IH]; intros H pos; simpl; [reflexivity|].
  destruct (String.eqb (f_name e) x) eqn:E.
  - apply String.eqb_eq in E. exfalso. exact (H e (or_introl eq_refl) E).
  - apply IH. intros d Hd. apply H. now right.
Qed.

Lemma read_var_unbound (x : string) (st : State) :
  closest_scope (Some x) (variable_scope_list st)
                (length (variable_scope_list st)) = None ->
  read_var x st = Fail (Error NAME_ERROR) st.
Proof.
  intro H. unfold read_var, bind, validate_var_name. now rewrite H.
Qed.

Lemma closest_scope_bound (x : name) (scopes : list Frame) :
  forall n i,
    closest_scope x scopes n = Some i ->
    (i < n)%nat /\
    (exists f, nth_error scopes i = Some f /\ dict_mem x f = true) /\
    (forall j f, (i < j < n)%nat -> nth_error scopes j = Some f ->
                 dict_mem x f = false).
Proof.
  induction n as [|m IH]; intros i H; simpl in H; [discriminate|].
  destruct (nth_error scopes m) as [f|] eqn:En.
  - destruct (dict_mem x f) eqn:Em.
    + inversion H; subst. split; [lia|]. split; [now exists f|].
      intros j g Hj. lia.
    + destruct (IH i H) as (Hlt & Hex & Hin). split; [lia|].
      split; [exact Hex|]. intros j g Hj Hg.
      destruct (Nat.eq_dec j m) as [->|Hne].
      * rewrite En in Hg. inversion Hg; subst. exact Em.
      * apply (Hin j g); [lia|exact Hg].
  - destruct (IH i H) as (Hlt & Hex & Hin). split; [lia|].
    split; [exact Hex|]. intros j g Hj Hg.
    destruct (Nat.eq_dec j m) as [->|Hne].
    + rewrite En in Hg. discriminate.
    + apply (Hin j g); [lia|exact Hg].
Qed.

Lemma scope_get_nat (scopes : list Frame) (i : nat) (k : name) (v : Value) :
  lookup scopes i k = Some v -> scope_get scopes (Z.of_nat i) k = inl v.
Proof.
  unfold lookup, scope_get. rewrite py_index_nat.
  destruct (nth_error scopes i) as [f|]; [|discriminate].
  now intros ->.
Qed.

Lemma read_var_plain (x : string) (st : State) (i : nat) (tbl : AliasTable)
  (v : Value) :
  closest_scope (Some x) (variable_scope_list st)
                (length (variable_scope_list st)) = Some i ->
  nth_error (variable_alias_list st) i = Some tbl ->
  dict_get (Some x) tbl = None ->
  lookup (variable_scope_list st) i (Some x) = Some v ->
  read_var x st = Ok v st.
Proof.
  intros Hc Ht Hg Hl. unfold read_var, bind, validate_var_name.
  rewrite Hc, Ht, Hg. now rewrite (scope_get_nat _ _ _ _ Hl).
Qed.

(* ================================================================== *)
(** ** The write cascade *)

Lemma alias_chain_le (A : list AliasTable) (i j : nat) (x z : name) :
  alias_chain A i x j z -> (j <= i)%nat.
Proof. induction 1; lia. Qed.

Lemma alias_chain_same_frame (A : list AliasTable) (i : nat) (x z : name) :
  alias_chain A i x i z -> z = x.
Proof.
  intro H. inversion H; subst; [reflexivity|].
  match goal with Hc : alias_chain _ _ _ _ _ |- _ =>
    apply alias_chain_le in Hc; lia end.
Qed.

Lemma alias_chain_step (A : list AliasTable) (i j : nat) (x z : name) :
  alias_chain A (S i) x j z -> (j <= i)%nat ->
  exists tbl y,
    nth_error A (S i) = Some tbl /\ dict_get x tbl = Some y /\
    alias_chain A i y j z.
Proof.
  intros H Hle. inversion H; subst; [lia|].
  eexists; eexists; repeat split; eassumption.
Qed.

Lemma alias_chain_root_stops (A : list AliasTable) (r j : nat) (z y : name) :
  no_alias A r z -> alias_chain A r z j y -> j = r /\ y = z.
Proof.
  intros (tbl & Ht & Hg) H. inversion H; subst; [auto|].
  rewrite Ht in *. congruence.
Qed.

Lemma lookup_set_nth (scopes : list Frame) (i : nat) (f : Frame) (y : name)
  (v : Value) (k : nat) (y' : name) :
  nth_error scopes i = Some f ->
  lookup (set_nth i (dict_set y v f) scopes) k y'
  = if Nat.eqb k i && keqb y' y then Some v else lookup scopes k y'.
Proof.
  intro Hf. unfold lookup.
  destruct (Nat.eqb_spec k i) as [->|Hne]; cbn [andb].
  - rewrite nth_error_set_nth_same
      by (apply nth_error_Some; rewrite Hf; discriminate).
    rewrite Hf. destruct (key_eq_dec y' y) as [->|N].
    + now rewrite keqb_refl, dict_get_set_same.
    + now rewrite (keqb_neq N), (dict_get_set_other _ _ N).
  - rewrite nth_error_set_nth_other by congruence. reflexivity.
Qed.

Lemma frame_set_nat (scopes : list Frame) (i : nat) (f : Frame) (k : name)
  (v : Value) :
  nth_error scopes i = Some f ->
  frame_set scopes (Z.of_nat i) k v = Some (set_nth i (dict_set k v f) scopes).
Proof.
  intro Hf. unfold frame_set.
  rewrite py_norm_nat by (apply nth_error_Some; rewrite Hf; discriminate).
  now rewrite Hf.
Qed.

Lemma nth_error_in_range {A : Type} (l : list A) (i : nat) :
  (i < length l)%nat -> exists a, nth_error l i = Some a.
Proof.
  intro H. destruct (nth_error l i) eqn:E; [eauto|].
  apply nth_error_None in E. lia.
Qed.

(** The loop of lines 239-244 along a chain that ends in a root: it
    succeeds, writes the value at every pair of the chain below the start,
    and changes nothing else. *)
Lemma write_cascade_spec (A : list AliasTable) (v : Value) :
  forall i x r z,
    alias_chain A i x r z -> no_alias A r z ->
    forall budget scopes,
      (i <= budget)%nat -> (i < length scopes)%nat ->
      exists scopes',
        write_cascade budget (Z.of_nat i) x v A scopes = Some scopes' /\
        length scopes' = length scopes /\
        (forall k y, alias_chain A i x k y -> (k < i)%nat ->
                     lookup scopes' k y = Some v) /\
        (forall k y, ~ (alias_chain A i x k y /\ (k < i)%nat) ->
                     lookup scopes' k y = lookup scopes k y).
Proof.
  induction 1 as [i x|i x tbl y j z Ht Hg Hc IH];
    intros Hroot budget scopes Hb Hlen.
  - destruct Hroot as (tbl & Ht & Hg).
    exists scopes. split.
    { destruct budget; cbn [write_cascade]; now rewrite py_index_nat, Ht, Hg. }
    split; [reflexivity|]. split.
    + intros k y Hk Hlt.
      destruct (alias_chain_root_stops _ _ _ _ _
                  (ex_intro _ tbl (conj Ht Hg)) Hk). lia.
    + intros; reflexivity.
  - destruct budget as [|b]; [lia|].
    destruct (nth_error_in_range scopes i ltac:(lia)) as [f Hf].
    assert (Hlen1 : (i < length (set_nth i (dict_set y v f) scopes))%nat)
      by (rewrite set_nth_length; len_lia).
    destruct (IH Hroot b (set_nth i (dict_set y v f) scopes)
                 ltac:(lia) Hlen1) as (scopes' & Hw & Hl & Hon & Hoff).
    exists scopes'.
    assert (Hz : Z.of_nat (S i) - 1 = Z.of_nat i) by lia.
    split.
    { cbn [write_cascade]. rewrite py_index_nat, Ht, Hg, Hz.
      rewrite (frame_set_nat scopes i f y v Hf). exact Hw. }
    split; [rewrite Hl; apply set_nth_length|].
    split.
    + intros k y' Hk Hlt.
      destruct (alias_chain_step _ _ _ _ _ Hk ltac:(lia)) as (tbl' & y0 & Ht' & Hg' & Hk').
      assert (y0 = y) by congruence. subst y0.
      destruct (Nat.eq_dec k i) as [->|Hne].
      * apply alias_chain_same_frame in Hk'. subst y'.
        rewrite Hoff by (intros [_ Hbad]; lia).
        rewrite (lookup_set_nth scopes i f y v i y Hf).
        now rewrite Nat.eqb_refl, keqb_refl.
      * apply Hon; [exact Hk'|]. apply alias_chain_le in Hk'. lia.
    + intros k y' Hnot.
      assert (Hnot' : ~ (alias_chain A i y k y' /\ (k < i)%nat)).
      { intros [Hk' Hlt]. apply Hnot. split; [|lia].
        eapply chain_down; eassumption. }
      rewrite (Hoff k y' Hnot').
      rewrite (lookup_set_nth scopes i f y v k y' Hf).
      destruct (Nat.eqb_spec k i) as [->|Hne]; [|reflexivity].
      destruct (key_eq_dec y' y) as [->|N].
      * exfalso. apply Hnot. split; [|lia].
        eapply chain_down; [eassumption|eassumption|apply chain_here].
      * now rewrite (keqb_neq N).
Qed.

(** Assignment to a bare name bound in frame [i] whose alias chain ends in a
    root: every pair of the chain holds the value afterwards, and no other
    binding changed. *)
Lemma assign_var_cascades (x : string) (v : Value) (st : State)
  (i r : nat) (z : name) :
  closest_scope (Some x) (variable_scope_list st)
                (length (variable_scope_list st)) = Some i ->
  alias_chain (variable_alias_list st) i (Some x) r z ->
  no_alias (variable_alias_list st) r z ->
  exists scopes',
    assign_var x v st = Ok tt (set_scopes scopes' st) /\
    length scopes' = length (variable_scope_list st) /\
    (forall j y, alias_chain (variable_alias_list st) i (Some x) j y ->
                 lookup scopes' j y = Some v) /\
    (forall j y, ~ alias_chain (variable_alias_list st) i (Some x) j y ->
                 lookup scopes' j y = lookup (variable_scope_list st) j y).
Proof.
  intros Hc Hchain Hroot.
  destruct (closest_scope_bound _ _ _ _ Hc) as (Hlt & (f & Hf & _) & _).
  assert (Hlen1 : (i < length (set_nth i (dict_set (Some x) v f)
                                       (variable_scope_list st)))%nat)
    by (rewrite set_nth_length; exact Hlt).
  destruct (write_cascade_spec _ v _ _ _ _ Hchain Hroot
              (i + length (variable_alias_list st))
              (set_nth i (dict_set (Some x) v f) (variable_scope_list st))
              ltac:(lia) Hlen1) as (scopes' & Hw & Hl & Hon & Hoff).
  exists scopes'. split.
  { unfold assign_var. cbv zeta. rewrite Hc.
    rewrite (frame_set_nat _ i f (Some x) v Hf).
    match goal with
    | |- match ?w with _ => _ end = _ =>
        replace w with (Some scopes') by (symmetry; exact Hw)
    end.
    reflexivity. }
  split; [rewrite Hl; apply set_nth_length|].
  split.
  - intros j y Hj. apply alias_chain_le in Hj as Hle.
    destruct (Nat.eq_dec j i) as [->|Hne].
    + apply alias_chain_same_frame in Hj. subst y.
      rewrite Hoff by (intros [_ Hbad]; lia).
      rewrite (lookup_set_nth _ i f (Some x) v i (Some x) Hf).
      now rewrite Nat.eqb_refl, keqb_refl.
    + apply Hon; [exact Hj|lia].
  - intros j y Hnot.
    rewrite Hoff by (intros [Hj _]; exact (Hnot Hj)).
    rewrite (lookup_set_nth _ i f (Some x) v j y Hf).
    destruct (Nat.eqb_spec j i) as [->|Hne]; [|reflexivity].
    destruct (key_eq_dec y (Some x)) as [->|N].
    + exfalso. apply Hnot. apply chain_here.
    + now rewrite (keqb_neq N).
Qed.

Lemma do_assignment_bare (ev : Expr -> LambdaCtx -> M Value) (x : string)
  (e : Expr) (lam : LambdaCtx) (st st1 : State) (v : Value) :
  ev e lam st = Ok v st1 ->
  lambda_ctx_ok lam st1 ->
  snapshot_holds lam st1 x = false ->
  has_dot x = false ->
  do_assignment ev x e lam st = assign_var x v st1.
Proof.
  intros He Hok Hs Hd. unfold do_assignment, bind. rewrite He.
  destruct lam as [|a|w]; simpl in *.
  - now rewrite Hd.
  - destruct Hok as [c Hc]. rewrite Hc in *. rewrite Hs, Hd. reflexivity.
  - contradiction.
Qed.

(** C1, as the code has it.  An assignment [x = e] to a bare name that the
    snapshot of the lambda being run does not hold, with [x] bound in frame
    [i] (the innermost frame that has it) and the alias chain of [(i, x)]
    ending in a pair [(r, z)] whose table has no entry: the statement
    completes, the value of [e] is the binding of every pair of the chain
    from [(i, x)] down to [(r, z)], one frame per alias entry, and no other
    binding of any frame changed. *)
Theorem assignment_cascades_down_the_alias_chain
  (gp : Value -> string) (fl : Program) (n : nat) (x : string) (e : Expr)
  (lam : LambdaCtx) (st st1 : State) (v : Value) (i r : nat) (z : name) :
  evaluate_expression gp fl n e lam st = Ok v st1 ->
  lambda_ctx_ok lam st1 ->
  snapshot_holds lam st1 x = false ->
  has_dot x = false ->
  closest_scope (Some x) (variable_scope_list st1)
                (length (variable_scope_list st1)) = Some i ->
  alias_chain (variable_alias_list st1) i (Some x) r z ->
  no_alias (variable_alias_list st1) r z ->
  exists scopes',
    run_statement gp fl (S n) (SAssign x e) lam st
    = Ok None (set_scopes scopes' st1) /\
    (forall j y, alias_chain (variable_alias_list st1) i (Some x) j y ->
                 lookup scopes' j y = Some v) /\
    (forall j y, ~ alias_chain (variable_alias_list st1) i (Some x) j y ->
                 lookup scopes' j y = lookup (variable_scope_list st1) j y).
Proof.
  intros He Hok Hs Hd Hc Hchain Hroot.
  destruct (assign_var_cascades x v st1 i r z Hc Hchain Hroot)
    as (scopes' & Ha & _ & Hon & Hoff).
  exists scopes'. split; [|split; assumption].
  rewrite run_assign_eq. unfold bind at 1.
  rewrite (do_assignment_bare _ x e lam st st1 v He Hok Hs Hd), Ha.
  reflexivity.
Qed.

Lemma assignment_cascade_witness :
  exists scopes',
    run_statement spec_printable prog_reference_parameter 2
                  (SAssign "b" (EInt 2)) LNone in_f_with_b_aliasing_a
    = Ok None (set_scopes scopes' in_f_with_b_aliasing_a)
    /\ lookup scopes' 1 (Some "b") = Some (VInt 2)
    /\ lookup scopes' 0 (Some "a") = Some (VInt 2).
Proof.
  destruct (assignment_cascades_down_the_alias_chain spec_printable
              prog_reference_parameter 1 "b" (EInt 2) LNone
              in_f_with_b_aliasing_a in_f_with_b_aliasing_a (VInt 2)
              1 0 (Some "a") eq_refl I eq_refl eq_refl eq_refl)
    as (scopes' & Hrun & Hon & _).
  - eapply chain_down; [reflexivity|reflexivity|apply chain_here].
  - exists []. split; reflexivity.
  - exists scopes'. split; [exact Hrun|]. split.
    + apply Hon. apply chain_here.
    + apply Hon. eapply chain_down; [reflexivity|reflexivity|apply chain_here].
Defined.

(** The program of the claim: after the call [f(a)], [a] is 2 in [main]'s
    frame, and the [print(a)] that follows outputs 2. *)
Example reference_parameter_program :
  run_block (run_statement spec_printable prog_reference_parameter 5)
            [SAssign "a" (EInt 1); SFcall "f" [EVar "a"]] LNone
            (mkState [[]] [[]] [] 2 [] [])
  = Ok None (mkState [[(Some "a", VInt 2)]] [[]] [] 2 [] [])
  /\ exists st,
       run spec_printable 6 prog_reference_parameter [] = Ok VNil st
       /\ output_log st = ["2"].
Proof.
  split; [vm_compute; reflexivity|].
  eexists. split; vm_compute; reflexivity.
Qed.

(** C1 as stated fails: in the lambda's body the bare name [y] is bound in
    frame 1, whose alias table maps it to [a], yet the assignment [y = 5]
    writes neither frame 1 nor the frame below: the lambda's snapshot holds
    [y], and the assignment goes there.  The program prints 1 for [y] and 1
    for [a]. *)
Lemma assignment_to_a_captured_name_does_not_cascade :
  closest_scope (Some "y") (variable_scope_list in_lambda_capturing_y) 3
  = Some 1%nat
  /\ alias_chain (variable_alias_list in_lambda_capturing_y)
                 1 (Some "y") 0 (Some "a")
  /\ (exists st,
        run_statement spec_printable prog_assignment_in_lambda 2
                      (SAssign "y" (EInt 5)) (LCell 0) in_lambda_capturing_y
        = Ok None st
        /\ lookup (variable_scope_list st) 1 (Some "y") = Some (VInt 1)
        /\ lookup (variable_scope_list st) 0 (Some "a") = Some (VInt 1)
        /\ snapshot_search (LCell 0) st "y" = Some (VInt 5))
  /\ (exists st,
        run spec_printable 8 prog_assignment_in_lambda [] = Ok VNil st
        /\ output_log st = ["1"; "1"]).
Proof.
  split; [vm_compute; reflexivity|].
  split; [eapply chain_down; [reflexivity|reflexivity|apply chain_here]|].
  split; eexists; (split; [vm_compute; reflexivity|]);
    repeat split; vm_compute; reflexivity.
Qed.

(* ================================================================== *)
(** ** The read cascade *)

Lemma name_in_In (x : name) (l : list name) : name_in x l = true <-> In x l.
Proof.
  induction l as [|y r IH]; cbn [name_in In];
    [split; [discriminate|tauto]|].
  rewrite orb_true_iff, IH. split.
  - intros [E|Hin]; [left; symmetry; now apply keqb_spec|now right].
  - intros [E|Hin]; [left; subst; apply keqb_refl|now right].
Qed.

Lemma collected_In (L : list name) (tbl : AliasTable) (k : name) :
  In k (collected L tbl) <-> exists m, In (k, m) tbl /\ In m L.
Proof.
  induction tbl as [|[key val] r IH]; simpl.
  - split; [tauto|intros (m & [] & _)].
  - destruct (name_in val L) eqn:E.
    + simpl. rewrite IH. split.
      * intros [->|(m & Hm & HL)].
        -- exists val. split; [now left|now apply name_in_In].
        -- exists m. split; [now right|exact HL].
      * intros (m & [Heq|Hm] & HL).
        -- inversion Heq; subst. now left.
        -- right. exists m. auto.
    + rewrite IH. split.
      * intros (m & Hm & HL). exists m. split; [now right|exact HL].
      * intros (m & [Heq|Hm] & HL).
        -- inversion Heq; subst. apply name_in_In in HL. congruence.
        -- exists m. auto.
Qed.

Lemma set_all_get (ks : list name) (v : Value) :
  forall (f : Frame) (k : name),
    dict_get k (set_all ks v f)
    = if name_in k ks then Some v else dict_get k f.
Proof.
  induction ks as [|a r IH]; intros f k; cbn [set_all name_in];
    [reflexivity|].
  rewrite IH. destruct (name_in k r) eqn:E.
  - now rewrite orb_true_r.
  - rewrite orb_false_r. destruct (key_eq_dec k a) as [->|N].
    + now rewrite keqb_refl, dict_get_set_same.
    + now rewrite (keqb_neq N), (dict_get_set_other _ _ N).
Qed.

Lemma set_nth_twice {A : Type} (i : nat) (a b : A) (l : list A) :
  set_nth i a (set_nth i b l) = set_nth i a l.
Proof.
  revert i. induction l as [|y r IH]; intros [|j]; simpl; try reflexivity.
  now rewrite IH.
Qed.

Lemma set_nth_same {A : Type} (i : nat) (a : A) (l : list A) :
  nth_error l i = Some a -> set_nth i a l = l.
Proof.
  revert i. induction l as [|y r IH]; intros [|j] H; simpl in *;
    try discriminate; [now inversion H|]. now rewrite IH.
Qed.

(** The inner loop of the refresh on frame [j]. *)
Lemma refresh_entries_spec (j : nat) (v : Value) (L : list name) :
  forall (tbl : AliasTable) (scopes : list Frame) (acc : list name) (f : Frame),
    nth_error scopes j = Some f ->
    refresh_entries (Z.of_nat j) v L tbl scopes acc
    = Some (set_nth j (set_all (collected L tbl) v f) scopes,
            (acc ++ collected L tbl)%list).
Proof.
  induction tbl as [|[key val] r IH]; intros scopes acc f Hf; simpl.
  - now rewrite app_nil_r, (set_nth_same _ _ _ Hf).
  - destruct (name_in val L); [|now apply IH].
    rewrite (frame_set_nat scopes j f key v Hf).
    rewrite (IH _ (acc ++ [key])%list (dict_set key v f)).
    + rewrite set_nth_twice, <- app_assoc. reflexivity.
    + apply nth_error_set_nth_same. apply nth_error_Some. rewrite Hf.
      discriminate.
Qed.

Lemma lookup_set_nth_frame (scopes : list Frame) (j : nat) (f' : Frame)
  (k : nat) (nm : name) :
  (j < length scopes)%nat ->
  lookup (set_nth j f' scopes) k nm
  = if Nat.eqb k j then dict_get nm f' else lookup scopes k nm.
Proof.
  intro Hj. unfold lookup. destruct (Nat.eqb_spec k j) as [->|Hne].
  - now rewrite nth_error_set_nth_same.
  - rewrite nth_error_set_nth_other by congruence. reflexivity.
Qed.

(** The refresh loop started on frame [r + d + 1] with the names of frame
    [r + d] it has rebound so far: it runs through the frames that are
    left, binds the names [refreshed] lists to the value and leaves every
    other binding as it was. *)
Lemma refresh_loop_spec (A : list AliasTable) (r : nat) (z : name) (v : Value) :
  forall (count d : nat) (scopes : list Frame),
    (r + S d + count = length scopes)%nat ->
    (length scopes <= length A)%nat ->
    exists scopes',
      refresh_loop count (Z.of_nat (r + S d)) v (refreshed A r z d) A scopes
      = Some scopes' /\
      length scopes' = length scopes /\
      forall k nm,
        lookup scopes' k nm
        = if Nat.ltb (r + d) k && name_in nm (refreshed A r z (k - r))
          then (if Nat.ltb k (length scopes) then Some v else None)
          else lookup scopes k nm.
Proof.
  induction count as [|c IH]; intros d scopes Hlen HA.
  - exists scopes. split; [reflexivity|]. split; [reflexivity|].
    intros k nm. destruct (Nat.ltb_spec (r + d) k) as [Hlt|Hge]; simpl;
      [|reflexivity].
    destruct (name_in nm (refreshed A r z (k - r))); [|reflexivity].
    destruct (Nat.ltb_spec k (length scopes)); [len_lia|].
    unfold lookup.
    destruct (nth_error scopes k) eqn:E; [|reflexivity].
    assert (nth_error scopes k <> None) by congruence.
    apply nth_error_Some in H0. len_lia.
  - destruct (nth_error_in_range scopes (r + S d) ltac:(len_lia)) as [f Hf].
    destruct (nth_error_in_range A (r + S d) ltac:(len_lia)) as [tbl Ht].
    set (ks := refreshed A r z (S d)).
    assert (Hks : collected (refreshed A r z d) tbl = ks).
    { unfold ks. cbn [refreshed]. now rewrite (nth_error_nth _ _ _ Ht). }
    set (scopes1 := set_nth (r + S d) (set_all ks v f) scopes).
    assert (Hl1 : length scopes1 = length scopes)
      by apply set_nth_length.
    destruct (IH (S d) scopes1) as (scopes' & Hw & Hl & Hlk);
      [len_lia|len_lia|].
    exists scopes'. split.
    { cbn [refresh_loop]. rewrite py_index_nat, Ht.
      rewrite (refresh_entries_spec _ v _ tbl scopes [] f Hf), Hks.
      cbn [app].
      replace (Z.of_nat (r + S d) + 1) with (Z.of_nat (r + S (S d))) by lia.
      exact Hw. }
    split; [len_lia|].
    intros k nm. rewrite Hlk.
    unfold scopes1. rewrite lookup_set_nth_frame by len_lia.
    replace (length (set_nth (r + S d) (set_all ks v f) scopes))
      with (length scopes) by (symmetry; apply set_nth_length).
    destruct (Nat.eqb_spec k (r + S d)) as [->|Hne].
    + destruct (Nat.ltb_spec (r + S d) (r + S d)) as [H1|H1]; [lia|].
      destruct (Nat.ltb_spec (r + d) (r + S d)) as [H2|H2]; [|lia].
      cbn [andb]. rewrite set_all_get. unfold ks.
      replace (r + S d - r)%nat with (S d) by lia.
      destruct (name_in nm (refreshed A r z (S d))).
      * destruct (Nat.ltb_spec (r + S d) (length scopes)); [reflexivity|].
        len_lia.
      * unfold lookup. now rewrite Hf.
    + destruct (Nat.ltb_spec (r + S d) k) as [H1|H1];
        destruct (Nat.ltb_spec (r + d) k) as [H2|H2]; try lia; reflexivity.
Qed.

Lemma refreshed_step (A : list AliasTable) (r : nat) (z : name) (d : nat)
  (j : nat) (tbl : AliasTable) :
  j = (r + S d)%nat -> nth_error A j = Some tbl ->
  refreshed A r z (S d) = collected (refreshed A r z d) tbl.
Proof.
  intros -> Ht. cbn [refreshed]. now rewrite (nth_error_nth _ _ _ Ht).
Qed.

Lemma refreshed_table (A : list AliasTable) (r : nat) (z : name) (d : nat)
  (nm : name) :
  In nm (refreshed A r z (S d)) ->
  exists tbl m,
    nth_error A (r + S d) = Some tbl /\ In (nm, m) tbl /\
    In m (refreshed A r z d).
Proof.
  cbn [refreshed]. intro Hin.
  destruct (nth_error A (r + S d)) as [tbl|] eqn:Ht.
  - rewrite (nth_error_nth _ _ _ Ht) in Hin. apply collected_In in Hin.
    destruct Hin as (m & Hm & HL). exists tbl, m. auto.
  - rewrite (nth_overflow A []) in Hin by (now apply nth_error_None).
    destruct Hin.
Qed.

(** The names the refresh rebinds are the names that alias the root,
    directly or through names of the frames between. *)
Lemma refers_to_refreshed (A : list AliasTable) (r : nat) (z : name)
  (k : nat) (nm : name) :
  refers_to A r z k nm <->
  exists d, k = (r + S d)%nat /\ In nm (refreshed A r z (S d)).
Proof.
  split.
  - induction 1 as [tbl k Ht Hin|j m tbl k Hj IH Ht Hin].
    + exists 0%nat. split; [lia|].
      rewrite (refreshed_step A r z 0 (S r) tbl ltac:(lia) Ht).
      apply collected_In. exists z. split; [exact Hin|now left].
    + destruct IH as (d & -> & Hm). exists (S d). split; [lia|].
      rewrite (refreshed_step A r z (S d) (S (r + S d)) tbl ltac:(lia) Ht).
      apply collected_In. exists m. auto.
  - intros (d & -> & Hin). revert nm Hin.
    induction d as [|d IH]; intros nm Hin;
      destruct (refreshed_table A r z _ nm Hin) as (tbl & m & Ht & Hm & HL).
    + destruct HL as [<-|[]].
      replace (r + 1)%nat with (S r) in * by lia.
      eapply refers_directly; eassumption.
    + replace (r + S (S d))%nat with (S (r + S d)) in * by lia.
      eapply refers_through; [apply IH; exact HL|exact Ht|exact Hm].
Qed.

Lemma find_root_spec (A : list AliasTable) :
  forall i x r z,
    alias_chain A i x r z -> no_alias A r z ->
    forall budget, (i <= budget)%nat ->
      find_root budget (Z.of_nat i) x A = Some (Z.of_nat r, z).
Proof.
  induction 1 as [i x|i x tbl y j z Ht Hg Hc IH]; intros Hroot budget Hb.
  - destruct Hroot as (tbl & Ht & Hg).
    destruct budget; cbn [find_root]; now rewrite py_index_nat, Ht, Hg.
  - destruct budget as [|b]; [lia|].
    cbn [find_root]. rewrite py_index_nat, Ht, Hg.
    replace (Z.of_nat (S i) - 1) with (Z.of_nat i) by lia.
    apply IH; [exact Hroot|lia].
Qed.

Lemma alias_chain_refers (A : list AliasTable) :
  forall j y r z,
    alias_chain A j y r z -> (r < j)%nat -> refers_to A r z j y.
Proof.
  induction 1 as [i x|i x tbl y j z Ht Hg Hc IH]; intro Hlt; [lia|].
  apply alias_chain_le in Hc as Hle.
  destruct (Nat.eq_dec i j) as [->|Hne].
  - apply alias_chain_same_frame in Hc. subst z.
    eapply refers_directly; [exact Ht|]. now apply dict_get_In.
  - eapply refers_through; [apply IH; lia|exact Ht|]. now apply dict_get_In.
Qed.

(** Read of a bare name [x] bound in frame [i], with an alias entry there
    and its alias chain ending in the root [(r, z)], when the root is bound
    to [v]: the read returns [v]; afterwards every name of a frame of the
    stack that aliases the root holds [v], and no other binding changed. *)
Lemma read_var_root_bound (x : string) (st : State) (i r : nat)
  (tbl : AliasTable) (y z : name) (v : Value) :
  closest_scope (Some x) (variable_scope_list st)
                (length (variable_scope_list st)) = Some i ->
  nth_error (variable_alias_list st) i = Some tbl ->
  dict_get (Some x) tbl = Some y ->
  alias_chain (variable_alias_list st) i (Some x) r z ->
  no_alias (variable_alias_list st) r z ->
  (length (variable_scope_list st) <= length (variable_alias_list st))%nat ->
  lookup (variable_scope_list st) r z = Some v ->
  exists scopes',
    read_var x st = Ok v (set_scopes scopes' st) /\
    (forall k nm, refers_to (variable_alias_list st) r z k nm ->
                  (k < length (variable_scope_list st))%nat ->
                  lookup scopes' k nm = Some v) /\
    (forall k nm, ~ refers_to (variable_alias_list st) r z k nm ->
                  lookup scopes' k nm = lookup (variable_scope_list st) k nm).
Proof.
  intros Hc Ht Hg Hchain Hroot HA Hv.
  set (S0 := variable_scope_list st) in *.
  set (A := variable_alias_list st) in *.
  destruct (closest_scope_bound _ _ _ _ Hc) as (Hlt & _ & _).
  apply alias_chain_le in Hchain as Hle.
  assert (Hri : (r < i)%nat).
  { destruct (Nat.eq_dec r i) as [->|Hne]; [|lia].
    apply alias_chain_same_frame in Hchain. subst z.
    destruct Hroot as (tbl' & Ht' & Hg'). congruence. }
  destruct i as [|i']; [lia|].
  destruct (alias_chain_step _ _ _ _ _ Hchain ltac:(lia))
    as (tbl' & y' & Ht' & Hg' & Hchain').
  assert (tbl' = tbl) by congruence. subst tbl'.
  assert (y' = y) by congruence. subst y'.
  destruct (refresh_loop_spec A r z v (length S0 - (r + 1)) 0 S0
              ltac:(len_lia) HA) as (S1 & Hw & Hl1 & Hlk).
  assert (HS1y : lookup S1 i' y = Some v).
  { rewrite Hlk. replace (r + 0)%nat with r by lia.
    apply alias_chain_le in Hchain' as Hle'.
    destruct (Nat.ltb_spec r i') as [H1|H1]; cbn [andb].
    - pose proof (alias_chain_refers A _ _ _ _ Hchain' H1) as Hr.
      apply refers_to_refreshed in Hr. destruct Hr as (d & Hd & Hin).
      replace (i' - r)%nat with (S d) by lia.
      apply name_in_In in Hin. rewrite Hin.
      destruct (Nat.ltb_spec i' (length S0)); [reflexivity|len_lia].
    - assert (i' = r) by lia. subst i'.
      apply alias_chain_same_frame in Hchain'. subst z. exact Hv. }
  assert (HS1x : lookup S1 (S i') (Some x) = Some v).
  { rewrite Hlk. replace (r + 0)%nat with r by lia.
    destruct (Nat.ltb_spec r (S i')) as [H1|H1]; [|lia]. cbn [andb].
    pose proof (alias_chain_refers A _ _ _ _ Hchain H1) as Hr.
    apply refers_to_refreshed in Hr. destruct Hr as (d & Hd & Hin).
    replace (S i' - r)%nat with (S d) by lia.
    apply name_in_In in Hin. rewrite Hin.
    destruct (Nat.ltb_spec (S i') (length S0)); [reflexivity|len_lia]. }
  destruct (nth_error_in_range S1 (S i') ltac:(len_lia)) as [f1 Hf1].
  exists (set_nth (S i') (dict_set (Some x) v f1) S1).
  assert (Hsame : forall k nm,
            lookup (set_nth (S i') (dict_set (Some x) v f1) S1) k nm
            = lookup S1 k nm).
  { intros k nm. rewrite (lookup_set_nth S1 (S i') f1 (Some x) v k nm Hf1).
    destruct (Nat.eqb_spec k (S i')) as [->|Hne]; [|reflexivity].
    destruct (key_eq_dec nm (Some x)) as [->|N].
    - rewrite keqb_refl. cbn [andb]. now rewrite HS1x.
    - now rewrite (keqb_neq N). }
  split; [|split].
  - unfold read_var, bind, validate_var_name. fold S0. fold A.
    rewrite Hc. cbv zeta. fold S0. fold A. rewrite Ht, Hg.
    rewrite (find_root_spec A _ _ _ _ Hchain Hroot) by lia.
    rewrite (scope_get_nat S0 r z v Hv).
    replace (Z.to_nat (Z.of_nat (length S0) - (Z.of_nat r + 1)))
      with (length S0 - (r + 1))%nat by lia.
    replace (Z.of_nat r + 1) with (Z.of_nat (r + 1)) by lia.
    match goal with
    | |- match ?w with _ => _ end = _ =>
        replace w with (Some S1) by (symmetry; exact Hw)
    end.
    replace (Z.of_nat (S i') - 1) with (Z.of_nat i') by lia.
    rewrite (scope_get_nat S1 i' y v HS1y).
    rewrite (frame_set_nat S1 (S i') f1 (Some x) v Hf1).
    reflexivity.
  - intros k nm Hr Hk. rewrite Hsame, Hlk.
    replace (r + 0)%nat with r by lia.
    apply refers_to_refreshed in Hr. destruct Hr as (d & Hd & Hin).
    destruct (Nat.ltb_spec r k) as [H1|H1]; [|lia]. cbn [andb].
    replace (k - r)%nat with (S d) by lia.
    apply name_in_In in Hin. rewrite Hin.
    destruct (Nat.ltb_spec k (length S0)); [reflexivity|len_lia].
  - intros k nm Hnot. rewrite Hsame, Hlk.
    replace (r + 0)%nat with r by lia.
    destruct (Nat.ltb_spec r k) as [H1|H1]; [|reflexivity]. cbn [andb].
    destruct (name_in nm (refreshed A r z (k - r))) eqn:E; [|reflexivity].
    exfalso. apply Hnot. apply refers_to_refreshed.
    exists (k - r - 1)%nat. split; [lia|].
    replace (S (k - r - 1)) with (k - r)%nat by lia.
    now apply name_in_In.
Qed.

(** The same read when the root is not bound: the [except] branch returns
    the name's own binding and changes nothing. *)
Lemma read_var_root_unbound (x : string) (st : State) (i r : nat)
  (tbl : AliasTable) (y z : name) :
  closest_scope (Some x) (variable_scope_list st)
                (length (variable_scope_list st)) = Some i ->
  nth_error (variable_alias_list st) i = Some tbl ->
  dict_get (Some x) tbl = Some y ->
  alias_chain (variable_alias_list st) i (Some x) r z ->
  no_alias (variable_alias_list st) r z ->
  lookup (variable_scope_list st) r z = None ->
  exists own,
    lookup (variable_scope_list st) i (Some x) = Some own /\
    read_var x st = Ok own st.
Proof.
  intros Hc Ht Hg Hchain Hroot Hv.
  destruct (closest_scope_bound _ _ _ _ Hc) as (Hlt & (f & Hf & Hm) & _).
  apply dict_mem_true in Hm. destruct Hm as [own Hown].
  exists own.
  assert (Hl : lookup (variable_scope_list st) i (Some x) = Some own)
    by (unfold lookup; now rewrite Hf).
  split; [exact Hl|].
  apply alias_chain_le in Hchain as Hle.
  destruct (nth_error_in_range (variable_scope_list st) r ltac:(len_lia))
    as [fr Hfr].
  unfold read_var, bind, validate_var_name. rewrite Hc. cbv zeta.
  rewrite Ht, Hg.
  rewrite (find_root_spec _ _ _ _ _ Hchain Hroot) by lia.
  unfold scope_get at 1. rewrite py_index_nat, Hfr.
  unfold lookup in Hv. rewrite Hfr in Hv. rewrite Hv.
  now rewrite (scope_get_nat _ _ _ _ Hl).
Qed.

Lemma assign_var_keeps_aliases (x : string) (v : Value) (st st' : State) :
  assign_var x v st = Ok tt st' ->
  variable_alias_list st' = variable_alias_list st.
Proof.
  unfold assign_var.
  destruct (closest_scope _ _ _) as [i|].
  - destruct (frame_set _ _ _ _) as [s1|]; [|discriminate].
    destruct (write_cascade _ _ _ _ _ _) as [s2|]; [|discriminate].
    intro H. inversion H. reflexivity.
  - destruct (frame_set _ _ _ _) as [s1|]; [|discriminate].
    intro H. inversion H. reflexivity.
Qed.

(** C2, as the code has it.  A read of a bare name [x] that reaches the
    call-stack lookup (the snapshot of the lambda being run does not answer
    it and it names no function), with [x] bound in frame [i], an entry for
    [x] in that frame's alias table, the alias chain of [(i, x)] ending in
    the root [(r, z)], and an alias table for every scope frame:
    - if the root is bound, the read returns the root's value and leaves it
      as the binding of every name, in the frames of the stack above the
      root, that aliases the root directly or transitively, with no other
      binding changed;
    - if the root is not bound, the read returns the binding [x] has in
      frame [i] and changes nothing;
    - so a read that directly follows an assignment through any link of a
      chain with the same root returns the assigned value. *)
Theorem read_follows_the_alias_chain_to_its_root
  (gp : Value -> string) (fl : Program) (n : nat) (x : string)
  (lam : LambdaCtx) (st : State) (i r : nat) (tbl : AliasTable) (y z : name) :
  lambda_ctx_ok lam st ->
  snapshot_search lam st x = None ->
  (forall d, In d fl -> f_name d <> x) ->
  has_dot x = false ->
  closest_scope (Some x) (variable_scope_list st)
                (length (variable_scope_list st)) = Some i ->
  nth_error (variable_alias_list st) i = Some tbl ->
  dict_get (Some x) tbl = Some y ->
  alias_chain (variable_alias_list st) i (Some x) r z ->
  no_alias (variable_alias_list st) r z ->
  (length (variable_scope_list st) <= length (variable_alias_list st))%nat ->
  (forall v,
     lookup (variable_scope_list st) r z = Some v ->
     exists scopes',
       evaluate_expression gp fl (S n) (EVar x) lam st
       = Ok v (set_scopes scopes' st) /\
       (forall k nm, refers_to (variable_alias_list st) r z k nm ->
                     (k < length (variable_scope_list st))%nat ->
                     lookup scopes' k nm = Some v) /\
       (forall k nm, ~ refers_to (variable_alias_list st) r z k nm ->
                     lookup scopes' k nm
                     = lookup (variable_scope_list st) k nm))
  /\
  (lookup (variable_scope_list st) r z = None ->
   exists own,
     lookup (variable_scope_list st) i (Some x) = Some own /\
     evaluate_expression gp fl (S n) (EVar x) lam st = Ok own st)
  /\
  (forall st0 x1 v1 i1,
     closest_scope (Some x1) (variable_scope_list st0)
                   (length (variable_scope_list st0)) = Some i1 ->
     alias_chain (variable_alias_list st0) i1 (Some x1) r z ->
     assign_var x1 v1 st0 = Ok tt st ->
     exists scopes',
       evaluate_expression gp fl (S n) (EVar x) lam st
       = Ok v1 (set_scopes scopes' st)).
Proof.
  intros Hok Hs Hf Hd Hc Ht Hg Hchain Hroot HA.
  assert (Hev : evaluate_expression gp fl (S n) (EVar x) lam st
                = read_var x st).
  { rewrite evaluate_var_eq, (evaluate_var_prefix fl n x lam st Hok), Hs.
    rewrite (functions_named_none x fl Hf 0), Hd. reflexivity. }
  rewrite Hev.
  assert (Hbound : forall v,
            lookup (variable_scope_list st) r z = Some v ->
            exists scopes',
              read_var x st = Ok v (set_scopes scopes' st) /\
              (forall k nm, refers_to (variable_alias_list st) r z k nm ->
                            (k < length (variable_scope_list st))%nat ->
                            lookup scopes' k nm = Some v) /\
              (forall k nm, ~ refers_to (variable_alias_list st) r z k nm ->
                            lookup scopes' k nm
                            = lookup (variable_scope_list st) k nm)).
  { intros v Hv.
    exact (read_var_root_bound x st i r tbl y z v Hc Ht Hg Hchain Hroot HA Hv). }
  split; [exact Hbound|]. split.
  - exact (read_var_root_unbound x st i r tbl y z Hc Ht Hg Hchain Hroot).
  - intros st0 x1 v1 i1 Hc1 Hchain1 Hassign.
    pose proof (assign_var_keeps_aliases x1 v1 st0 st Hassign) as HAeq.
    assert (Hroot0 : no_alias (variable_alias_list st0) r z)
      by (rewrite <- HAeq; exact Hroot).
    destruct (assign_var_cascades x1 v1 st0 i1 r z Hc1 Hchain1 Hroot0)
      as (scopes1 & Ha & _ & Hon & _).
    rewrite Ha in Hassign.
    assert (Hst : set_scopes scopes1 st0 = st)
      by (inversion Hassign; reflexivity).
    assert (Hv1 : lookup (variable_scope_list st) r z = Some v1).
    { rewrite <- Hst. simpl. apply Hon. exact Hchain1. }
    destruct (Hbound v1 Hv1) as (scopes' & Hr & _).
    exists scopes'. exact Hr.
Qed.

Lemma read_cascade_witness :
  exists scopes',
    evaluate_expression spec_printable [] 1 (EVar "c") LNone chain_c_b_a
    = Ok (VInt 7) (set_scopes scopes' chain_c_b_a)
    /\ lookup scopes' 1 (Some "b") = Some (VInt 7)
    /\ lookup scopes' 2 (Some "c") = Some (VInt 7).
Proof.
  assert (Hchain : alias_chain (variable_alias_list chain_c_b_a)
                               2 (Some "c") 0 (Some "a")).
  { eapply chain_down; [reflexivity|reflexivity|].
    eapply chain_down; [reflexivity|reflexivity|apply chain_here]. }
  assert (Hroot : no_alias (variable_alias_list chain_c_b_a) 0 (Some "a")).
  { exists []. split; reflexivity. }
  assert (Hb : refers_to (variable_alias_list chain_c_b_a) 0 (Some "a")
                         1 (Some "b")).
  { eapply refers_directly; [reflexivity|now left]. }
  assert (Hcr : refers_to (variable_alias_list chain_c_b_a) 0 (Some "a")
                          2 (Some "c")).
  { eapply refers_through; [exact Hb|reflexivity|now left]. }
  destruct (proj1 (read_follows_the_alias_chain_to_its_root spec_printable
                     [] 0 "c" LNone chain_c_b_a 2 0
                     [(Some "c", Some "b")] (Some "b") (Some "a")
                     I eq_refl (fun d (H : In d []) => match H with end)
                     eq_refl eq_refl eq_refl eq_refl Hchain Hroot
                     (le_n 3))
              (VInt 7) eq_refl) as (scopes' & Hev & Hon & _).
  exists scopes'. split; [exact Hev|]. split.
  - apply Hon; [exact Hb|]. simpl. lia.
  - apply Hon; [exact Hcr|]. simpl. lia.
Defined.

(** C2 as stated fails: [b] of frame 2 has an alias entry, and the root of
    its alias chain is the pair (frame 1, [a]), which has no further entry
    and no binding either, the call having been made from inside a block.
    There is no root value to return: the read returns the binding [b]
    has, 1, and refreshes nothing, although the variable [a] passed by
    reference was set to 5 just before.  The program prints 1. *)
Lemma read_with_an_unbound_root_returns_the_own_binding :
  alias_chain (variable_alias_list in_f_called_from_a_block)
              2 (Some "b") 1 (Some "a")
  /\ no_alias (variable_alias_list in_f_called_from_a_block) 1 (Some "a")
  /\ lookup (variable_scope_list in_f_called_from_a_block) 1 (Some "a") = None
  /\ lookup (variable_scope_list in_f_called_from_a_block) 0 (Some "a")
     = Some (VInt 5)
  /\ evaluate_expression spec_printable prog_reference_through_a_block 1
                         (EVar "b") LNone in_f_called_from_a_block
     = Ok (VInt 1) in_f_called_from_a_block
  /\ exists st,
       run spec_printable 8 prog_reference_through_a_block [] = Ok VNil st
       /\ output_log st = ["1"].
Proof.
  split; [eapply chain_down; [reflexivity|reflexivity|apply chain_here]|].
  split; [exists []; split; reflexivity|].
  split; [reflexivity|].
  split; [reflexivity|].
  split; [vm_compute; reflexivity|].
  eexists. split; vm_compute; reflexivity.
Qed.

Example transitive_chain_program :
  exists st,
    run spec_printable 8 prog_transitive_chain [] = Ok VNil st
    /\ output_log st = ["3"; "4"].
Proof. eexists. split; vm_compute; reflexivity. Qed.

(* ================================================================== *)
(** ** Object variables and lambdas *)

(** C6, as the code has it.  The snapshot a lambda literal takes holds no
    Object and no Lambda value, so an Object variable [o] is never captured.
    A reference to [o] in the lambda's body that the snapshot search does
    not answer (and that names no function) is the call-stack lookup of
    [o], exactly as outside a lambda, on the stack as it is when the body
    runs:
    - NAME_ERROR if no frame binds [o] there;
    - otherwise, with [i] the innermost frame that binds [o]: the binding of
      [o] in frame [i] if the alias table of frame [i] has no entry for
      [o];
    - and if it has one ([o] is a reference parameter, or [this]): the
      value bound at the root of the alias chain of [o], or the binding of
      [o] in frame [i] when that root is not bound. *)
Theorem objects_are_not_captured_but_read_from_the_stack
  (gp : Value -> string) (fl : Program) (n : nat) :
  (forall args st,
     exists c st',
       capture args st = Ok c st' /\
       forall k v, In (k, v) c -> type v <> OBJ /\ type v <> LAMBDA)
  /\
  (forall o lam st,
     lambda_ctx_ok lam st ->
     snapshot_search lam st o = None ->
     (forall d, In d fl -> f_name d <> o) ->
     has_dot o = false ->
     evaluate_expression gp fl (S n) (EVar o) lam st
     = evaluate_expression gp fl (S n) (EVar o) LNone st
     /\
     (closest_scope (Some o) (variable_scope_list st)
                    (length (variable_scope_list st)) = None ->
      evaluate_expression gp fl (S n) (EVar o) lam st
      = Fail (Error NAME_ERROR) st)
     /\
     (forall i tbl v,
        closest_scope (Some o) (variable_scope_list st)
                      (length (variable_scope_list st)) = Some i ->
        nth_error (variable_alias_list st) i = Some tbl ->
        dict_get (Some o) tbl = None ->
        lookup (variable_scope_list st) i (Some o) = Some v ->
        evaluate_expression gp fl (S n) (EVar o) lam st = Ok v st)
     /\
     (forall i tbl y r z,
        closest_scope (Some o) (variable_scope_list st)
                      (length (variable_scope_list st)) = Some i ->
        nth_error (variable_alias_list st) i = Some tbl ->
        dict_get (Some o) tbl = Some y ->
        alias_chain (variable_alias_list st) i (Some o) r z ->
        no_alias (variable_alias_list st) r z ->
        (length (variable_scope_list st)
         <= length (variable_alias_list st))%nat ->
        (forall v,
           lookup (variable_scope_list st) r z = Some v ->
           exists scopes',
             evaluate_expression gp fl (S n) (EVar o) lam st
             = Ok v (set_scopes scopes' st))
        /\
        (lookup (variable_scope_list st) r z = None ->
         exists own,
           lookup (variable_scope_list st) i (Some o) = Some own /\
           evaluate_expression gp fl (S n) (EVar o) lam st = Ok own st))).
Proof.
  split.
  - intros args st.
    destruct (capture_holds_no_reference_value args st)
      as (c & st' & H & Hc & _).
    exists c, st'. split; assumption.
  - intros o lam st Hok Hs Hf Hd.
    assert (Hev : evaluate_expression gp fl (S n) (EVar o) lam st
                  = read_var o st).
    { rewrite evaluate_var_eq, (evaluate_var_prefix fl n o lam st Hok), Hs.
      rewrite (functions_named_none o fl Hf 0), Hd. reflexivity. }
    assert (Hev0 : evaluate_expression gp fl (S n) (EVar o) LNone st
                   = read_var o st).
    { rewrite evaluate_var_eq, (evaluate_var_prefix fl n o LNone st I).
      cbn [snapshot_search].
      rewrite (functions_named_none o fl Hf 0), Hd. reflexivity. }
    rewrite Hev0, Hev. split; [reflexivity|]. split; [|split].
    + apply read_var_unbound.
    + intros i tbl v. apply read_var_plain.
    + intros i tbl y r z Hc Ht Hg Hchain Hroot HA. split.
      * intros v Hv.
        destruct (read_var_root_bound o st i r tbl y z v
                    Hc Ht Hg Hchain Hroot HA Hv) as (scopes' & Hr & _).
        exists scopes'. exact Hr.
      * intro Hv.
        exact (read_var_root_unbound o st i r tbl y z
                 Hc Ht Hg Hchain Hroot Hv).
Qed.

Lemma object_reference_witness :
  evaluate_expression spec_printable prog_object_out_of_scope 1 (EVar "o")
                      (LCell 2) in_lambda_after_mk_returned
  = Fail (Error NAME_ERROR) in_lambda_after_mk_returned.
Proof.
  refine (proj1 (proj2 (proj2
            (objects_are_not_captured_but_read_from_the_stack
               spec_printable prog_object_out_of_scope 0) "o" (LCell 2)
            in_lambda_after_mk_returned _ eq_refl _ eq_refl)) eq_refl).
  - exists []. reflexivity.
  - intros d [<-|[<-|[]]]; discriminate.
Defined.

(** C6 as stated fails: the lambda of [prog_object_in_scope] is created
    while the Object variable [o] is in scope, [o] is no parameter of it and
    is not in its snapshot, and the reference to [o] in its body evaluates
    to the object: the lambda is called while [o] is still on the call
    stack, and the program runs to the end.  The NAME_ERROR comes only when
    the lambda runs after the frame of [o] is gone, as in
    [prog_object_out_of_scope]. *)
Lemma object_on_the_stack_is_found_from_the_lambda :
  snapshot_search (LCell 1) in_lambda_with_o_on_the_stack "o" = None
  /\ evaluate_expression spec_printable prog_object_in_scope 1 (EVar "o")
                         (LCell 1) in_lambda_with_o_on_the_stack
     = Ok (VObj 0) in_lambda_with_o_on_the_stack
  /\ (exists st, run spec_printable 6 prog_object_in_scope [] = Ok VNil st
                 /\ output_log st = ["ok"])
  /\ (exists st, run spec_printable 8 prog_object_out_of_scope []
                 = Fail (Error NAME_ERROR) st).
Proof.
  split; [vm_compute; reflexivity|].
  split; [vm_compute; reflexivity|].
  split; eexists; try split; vm_compute; reflexivity.
Qed.

(* ================================================================== *)
(** ** Heights of the two stacks *)

Create HintDb keeps.

Lemma keeps_ret {A : Type} (a : A) : keeps 0 0 (ret a).
Proof.
  intros st b st' H. inversion H; subst. split; lia.
Qed.

Lemma keeps_raise {A : Type} (ds da : Z) (f : Failure) :
  keeps ds da (@raise A f).
Proof. intros st a st' H. discriminate. Qed.

Lemma keeps_error {A : Type} (ds da : Z) (e : ErrorType) :
  keeps ds da (@error A e).
Proof. apply keeps_raise. Qed.

Lemma keeps_host {A : Type} (ds da : Z) (h : HostException) :
  keeps ds da (@host A h).
Proof. apply keeps_raise. Qed.

Lemma keeps_bind {A B : Type} (a b c d : Z) (m : M A) (k : A -> M B) :
  keeps a b m -> (forall x, keeps c d (k x)) ->
  keeps (a + c) (b + d) (bind m k).
Proof.
  intros Hm Hk st y st' H. unfold bind in H.
  destruct (m st) as [x st1|f st1] eqn:E; [|discriminate].
  destruct (Hm _ _ _ E) as [H1 H2]. destruct (Hk x _ _ _ H) as [H3 H4].
  split; lia.
Qed.

Lemma keeps_bind0 {A B : Type} (m : M A) (k : A -> M B) :
  keeps 0 0 m -> (forall x, keeps 0 0 (k x)) -> keeps 0 0 (bind m k).
Proof. intros Hm Hk. exact (keeps_bind 0 0 0 0 m k Hm Hk). Qed.

Lemma keeps_weaken {A : Type} (ds da da' : Z) (m : M A) :
  keeps ds da m -> da' <= da -> keeps ds da' m.
Proof.
  intros Hm Hle st a st' H. destruct (Hm _ _ _ H) as [H1 H2]. split; lia.
Qed.

(** an operation that leaves both stacks as they are *)
Lemma keeps_same_stacks {A : Type} (m : M A) :
  (forall st a st', m st = Ok a st' ->
     variable_scope_list st' = variable_scope_list st /\
     variable_alias_list st' = variable_alias_list st) ->
  keeps 0 0 m.
Proof.
  intros Hm st a st' H. destruct (Hm _ _ _ H) as [H1 H2].
  unfold shift. rewrite H1, H2. split; lia.
Qed.

Lemma keeps_or_raise {A : Type} (h : HostException) (o : option A) :
  keeps 0 0 (or_raise h o).
Proof. destruct o; [apply keeps_ret|apply keeps_host]. Qed.

Lemma keeps_get_state : keeps 0 0 get_state.
Proof. apply keeps_same_stacks. intros st a st' H. inversion H. auto. Qed.

Lemma keeps_modify_store (g : State -> list Cell) :
  keeps 0 0 (modify (fun st => set_store (g st) st)).
Proof. apply keeps_same_stacks. intros st a st' H. inversion H. auto. Qed.

Lemma keeps_alloc (c : Cell) : keeps 0 0 (alloc c).
Proof. apply keeps_same_stacks. intros st a st' H. inversion H. auto. Qed.

Lemma keeps_deepcopy (fuel : nat) (v : Value) : keeps 0 0 (deepcopy fuel v).
Proof.
  apply keeps_same_stacks. intros st a st' H. unfold deepcopy in H.
  destruct (deepcopy_value _ _ _) as [[v' cs]|]; [|discriminate].
  inversion H. auto.
Qed.

Lemma keeps_output (line : string) : keeps 0 0 (output line).
Proof. apply keeps_same_stacks. intros st a st' H. inversion H. auto. Qed.

Lemma keeps_get_input : keeps 0 0 get_input.
Proof.
  apply keeps_same_stacks. intros st a st' H. unfold get_input in H.
  destruct (inp st); [discriminate|]. inversion H. auto.
Qed.

Lemma keeps_validate_var_name (x : string) (gentle : bool) :
  keeps 0 0 (validate_var_name x gentle).
Proof.
  apply keeps_same_stacks. intros st a st' H. unfold validate_var_name in H.
  destruct (closest_scope _ _ _); [|destruct gentle]; inversion H; auto.
Qed.

Lemma keeps_read_scope (i : nat) (k : name) : keeps 0 0 (read_scope i k).
Proof.
  apply keeps_same_stacks. intros st a st' H. unfold read_scope in H.
  destruct (scope_get _ _ _); inversion H; auto.
Qed.

Lemma keeps_captured_of (lam : LambdaCtx) : keeps 0 0 (captured_of lam).
Proof.
  apply keeps_same_stacks. intros st a st' H. unfold captured_of in H.
  destruct lam; [| destruct (lambda_captured _ _) |]; inversion H; auto.
Qed.

Lemma keeps_condition_bool (v : Value) : keeps 0 0 (condition_bool v).
Proof. destruct v; first [apply keeps_ret|apply keeps_error]. Qed.

Lemma removelast_length_Z {A : Type} (l : list A) :
  l <> [] -> Z.of_nat (length (removelast l)) = Z.of_nat (length l) - 1.
Proof.
  induction l as [|a r IH]; intro H; [congruence|].
  destruct r as [|b r']; [reflexivity|].
  change (removelast (a :: b :: r')) with (a :: removelast (b :: r')).
  cbn [length]. rewrite !Nat2Z.inj_succ, IH by discriminate.
  cbn [length]. lia.
Qed.

Lemma keeps_push_scope : keeps 1 1 push_scope.
Proof.
  intros st a st' H. inversion H; subst. unfold shift. simpl.
  rewrite !length_app. simpl. split; lia.
Qed.

Lemma py_pop_length {A : Type} (l l' : list A) :
  py_pop l = Some l' -> Z.of_nat (length l') = Z.of_nat (length l) - 1.
Proof.
  unfold py_pop. destruct l as [|a r]; [discriminate|].
  intro H. injection H as <-.
  exact (removelast_length_Z (a :: r) ltac:(discriminate)).
Qed.

Lemma keeps_pop_scope : keeps (-1) 0 pop_scope.
Proof.
  intros st a st' H. unfold pop_scope in H.
  destruct (py_pop (variable_scope_list st)) as [s|] eqn:E; [|discriminate].
  inversion H; subst. apply py_pop_length in E. unfold shift.
  cbn [variable_scope_list variable_alias_list set_scopes].
  split; lia.
Qed.

Lemma keeps_pop_alias : keeps 0 (-1) pop_alias.
Proof.
  intros st a st' H. unfold pop_alias in H.
  destruct (py_pop (variable_alias_list st)) as [s|] eqn:E; [|discriminate].
  inversion H; subst. apply py_pop_length in E. unfold shift.
  cbn [variable_scope_list variable_alias_list set_aliases].
  split; lia.
Qed.

Lemma frame_set_length (scopes scopes' : list Frame) (i : Z) (k : name)
  (v : Value) :
  frame_set scopes i k v = Some scopes' -> length scopes' = length scopes.
Proof.
  unfold frame_set. destruct (py_norm scopes i) as [j|]; [|discriminate].
  destruct (nth_error scopes j); [|discriminate].
  intro H. inversion H. apply set_nth_length.
Qed.

Lemma keeps_bind_in_scope (i : nat) (k : name) (v : Value) :
  keeps 0 0 (bind_in_scope i k v).
Proof.
  intros st a st' H. unfold bind_in_scope in H.
  destruct (frame_set _ _ _ _) as [s|] eqn:E; [|discriminate].
  inversion H; subst. apply frame_set_length in E. unfold shift. simpl.
  unfold dict in *. rewrite E. split; lia.
Qed.

Lemma keeps_bind_alias (i : nat) (k r : name) : keeps 0 0 (bind_alias i k r).
Proof.
  intros st a st' H. unfold bind_alias in H.
  destruct (nth_error _ _); [|discriminate].
  inversion H; subst. unfold shift. simpl. rewrite set_nth_length.
  split; lia.
Qed.

#[export] Hint Resolve keeps_ret keeps_raise keeps_error keeps_host
  keeps_or_raise keeps_get_state keeps_modify_store keeps_alloc
  keeps_deepcopy keeps_output keeps_get_input keeps_validate_var_name
  keeps_read_scope keeps_captured_of keeps_condition_bool
  keeps_bind_in_scope keeps_bind_alias : keeps.

Lemma write_cascade_length (v : Value) (A : list AliasTable) :
  forall budget idx x scopes scopes',
    write_cascade budget idx x v A scopes = Some scopes' ->
    length scopes' = length scopes.
Proof.
  induction budget as [|b IH]; intros idx x scopes scopes' H;
    cbn [write_cascade] in H;
    destruct (py_index A idx) as [tbl|]; try discriminate;
    destruct (dict_get x tbl) as [y|]; try (inversion H; reflexivity);
    destruct (frame_set scopes (idx - 1) y v) as [s1|] eqn:E;
    try discriminate.
  apply IH in H. apply frame_set_length in E. congruence.
Qed.

Lemma keeps_assign_var (x : string) (v : Value) : keeps 0 0 (assign_var x v).
Proof.
  intros st a st' H. unfold assign_var in H.
  destruct (closest_scope _ _ _) as [i|].
  - destruct (frame_set _ _ _ _) as [s1|] eqn:E1; [|discriminate].
    destruct (write_cascade _ _ _ _ _ _) as [s2|] eqn:E2; [|discriminate].
    inversion H; subst. apply frame_set_length in E1.
    apply write_cascade_length in E2. unfold shift. simpl.
    unfold dict in *. rewrite E2, E1. split; lia.
  - destruct (frame_set _ _ _ _) as [s1|] eqn:E1; [|discriminate].
    inversion H; subst. apply frame_set_length in E1. unfold shift. simpl.
    unfold dict in *. rewrite E1. split; lia.
Qed.

Lemma refresh_entries_length (j : Z) (v : Value) (L : list name) :
  forall tbl scopes acc scopes' acc',
    refresh_entries j v L tbl scopes acc = Some (scopes', acc') ->
    length scopes' = length scopes.
Proof.
  induction tbl as [|[key val] r IH]; intros scopes acc scopes' acc' H;
    cbn [refresh_entries] in H.
  - inversion H. reflexivity.
  - destruct (name_in val L); [|exact (IH _ _ _ _ H)].
    destruct (frame_set scopes j key v) as [s1|] eqn:E; [|discriminate].
    apply IH in H. apply frame_set_length in E. congruence.
Qed.

Lemma refresh_loop_length (v : Value) (A : list AliasTable) :
  forall count j L scopes scopes',
    refresh_loop count j v L A scopes = Some scopes' ->
    length scopes' = length scopes.
Proof.
  induction count as [|c IH]; intros j L scopes scopes' H;
    cbn [refresh_loop] in H.
  - inversion H. reflexivity.
  - destruct (py_index A j) as [tbl|]; [|discriminate].
    destruct (refresh_entries j v L tbl scopes []) as [[s1 col]|] eqn:E;
      [|discriminate].
    apply IH in H. apply refresh_entries_length in E. congruence.
Qed.

Lemma keeps_read_var (x : string) : keeps 0 0 (read_var x).
Proof.
  intros st a st' H. unfold read_var, bind in H.
  destruct (validate_var_name x false st) as [oi st0|] eqn:Ev; [|discriminate].
  assert (st0 = st).
  { unfold validate_var_name in Ev.
    destruct (closest_scope _ _ _); inversion Ev; reflexivity. }
  subst st0. cbv zeta in H.
  destruct oi as [i|]; [|discriminate].
  destruct (nth_error (variable_alias_list st) i) as [tbl|]; [|discriminate].
  assert (Hsame : shift 0 0 st st) by (split; lia).
  destruct (dict_get (Some x) tbl) as [y|].
  - destruct (find_root _ _ _ _) as [[ri top]|]; [|discriminate].
    destruct (scope_get (variable_scope_list st) ri top) as [nv|h].
    + destruct (refresh_loop _ _ _ _ _ _) as [s1|] eqn:E1; [|discriminate].
      destruct (scope_get s1 _ y) as [v|h]; [|discriminate].
      destruct (frame_set s1 _ _ _) as [s2|] eqn:E2; [|discriminate].
      inversion H; subst. apply refresh_loop_length in E1.
      apply frame_set_length in E2. unfold shift. simpl.
      unfold dict in *. rewrite E2, E1. split; lia.
    + destruct (scope_get _ _ _); inversion H; subst; exact Hsame.
  - destruct (scope_get _ _ _); inversion H; subst; exact Hsame.
Qed.

Lemma keeps_read_field (fuel : nat) (x : string) : keeps 0 0 (read_field fuel x).
Proof.
  apply keeps_same_stacks. intros st a st' H. unfold read_field in H.
  destruct (split_names x) as [o f]. unfold bind in H.
  destruct (validate_var_name o false st) as [oi st0|] eqn:Ev; [|discriminate].
  assert (st0 = st).
  { unfold validate_var_name in Ev.
    destruct (closest_scope _ _ _); inversion Ev; reflexivity. }
  subst st0. destruct oi as [i|]; [|discriminate].
  destruct (scope_get _ _ _) as [[]|]; try discriminate.
  destruct (obj_fields _ _) as [d|]; [|discriminate].
  destruct (dict_get f d); [inversion H; auto|].
  destruct (proto_lookup _ _ _ _) as [[w|]|]; inversion H; auto.
Qed.

Lemma keeps_evaluate_var (fl : Program) (fuel : nat) (x : string)
  (lam : LambdaCtx) : keeps 0 0 (evaluate_var fl fuel x lam).
Proof.
  unfold evaluate_var. apply keeps_bind0; [apply keeps_captured_of|].
  intros cap st a st' H.
  destruct (match cap with
            | Some (_, c) => search_captured (store st) x c
            | None => None
            end).
  - inversion H; subst. split; lia.
  - destruct (functions_named x fl 0) as [|[pos d] [|q r]].
    + destruct (has_dot x).
      * exact (keeps_read_field fuel x _ _ _ H).
      * exact (keeps_read_var x _ _ _ H).
    + inversion H; subst. split; lia.
    + discriminate.
Qed.

Lemma keeps_evaluate_lambda (args : list Param) (body : list Stmt) :
  keeps 0 0 (evaluate_lambda args body).
Proof.
  unfold evaluate_lambda. apply keeps_bind0.
  - apply keeps_same_stacks. intros st c st' H.
    destruct (capture_holds_no_reference_value args st)
      as (c' & st2 & H2 & _ & Hs).
    rewrite H2 in H. inversion H; subst.
    destruct Hs as (H1 & H3 & _). auto.
  - intro c. apply keeps_bind0; [apply keeps_alloc|].
    intro a. apply keeps_ret.
Qed.

Lemma keeps_binary_op (op : BinOp) (v1 v2 : Value) :
  keeps 0 0 (binary_op op v1 v2).
Proof.
  apply keeps_same_stacks. intros st a st' H. unfold binary_op in H.
  destruct op, v1, v2; simpl in H;
    try (inversion H; auto; fail);
    match type of H with
    | context [Z.eqb ?b 0] => destruct (Z.eqb b 0); inversion H; auto
    end.
Qed.

Lemma keeps_neg_op (v : Value) : keeps 0 0 (neg_op v).
Proof. destruct v; first [apply keeps_ret|apply keeps_error]. Qed.

Lemma keeps_not_op (v : Value) : keeps 0 0 (not_op v).
Proof. destruct v; first [apply keeps_ret|apply keeps_error]. Qed.

Lemma keeps_logic_op (b : bool) (v1 v2 : Value) : keeps 0 0 (logic_op b v1 v2).
Proof. destruct v1, v2; first [apply keeps_ret|apply keeps_error]. Qed.

Lemma keeps_equality_op (b : bool) (v1 v2 : Value) :
  keeps 0 0 (equality_op b v1 v2).
Proof. apply keeps_ret. Qed.

#[export] Hint Resolve keeps_assign_var keeps_read_var keeps_read_field
  keeps_evaluate_var keeps_evaluate_lambda keeps_binary_op keeps_neg_op
  keeps_not_op keeps_logic_op keeps_equality_op keeps_push_scope
  keeps_pop_scope keeps_pop_alias : keeps.

(** one step of a proof that a body written with [bind] keeps the stacks *)
Ltac keeps_step :=
  first
    [ solve [auto with keeps]
    | apply keeps_bind0; [|intro]
    | match goal with
      | |- keeps _ _ (match ?x with _ => _ end) => destruct x
      end ].

Section BodiesKeepStacks.
Variable gp : Value -> string.
Variable fl : Program.
Variable ev : Expr -> LambdaCtx -> M Value.
Variable exec : Stmt -> LambdaCtx -> M (option Value).
Variable depth : nat.
Hypothesis ev_keeps : forall e lam, keeps 0 0 (ev e lam).
Hypothesis exec_keeps : forall s lam, keeps 0 0 (exec s lam).

Lemma keeps_run_block (statements : list Stmt) (lam : LambdaCtx) :
  keeps 0 0 (run_block exec statements lam).
Proof.
  induction statements as [|s r IH]; cbn [run_block]; [apply keeps_ret|].
  apply keeps_bind0; [apply exec_keeps|].
  intros [v|]; [apply keeps_ret|exact IH].
Qed.

Lemma keeps_run_if_statements (statements : list Stmt) :
  keeps (-1) 0 (run_if_statements exec statements).
Proof.
  unfold run_if_statements.
  apply (keeps_bind 0 0 (-1) 0); [apply keeps_run_block|]. intro r.
  apply (keeps_bind (-1) 0 0 0); [apply keeps_pop_scope|]. intros _.
  apply keeps_ret.
Qed.

Lemma keeps_run_func (statements : list Stmt) (lam : LambdaCtx) :
  keeps (-1) (-1) (run_func exec statements lam).
Proof.
  unfold run_func.
  apply (keeps_bind 0 0 (-1) (-1)); [apply keeps_run_block|]. intro r.
  apply (keeps_bind (-1) 0 0 (-1)); [apply keeps_pop_scope|]. intros _.
  apply (keeps_bind 0 (-1) 0 0); [apply keeps_pop_alias|]. intros _.
  apply keeps_ret.
Qed.

Lemma keeps_assign_field (target : string) (v : Value) :
  keeps 0 0 (assign_field target v).
Proof.
  unfold assign_field. destruct (split_names target) as [o f].
  repeat keeps_step.
Qed.

Lemma keeps_do_assignment (target : string) (source : Expr)
  (lam : LambdaCtx) : keeps 0 0 (do_assignment ev target source lam).
Proof.
  unfold do_assignment.
  apply keeps_bind0; [apply ev_keeps|]. intro v.
  apply keeps_bind0; [apply keeps_captured_of|]. intro cap.
  destruct (match cap with
            | Some (a, c) => if dict_mem (Some target) c then Some a else None
            | None => None
            end).
  - apply keeps_modify_store.
  - destruct (has_dot target);
      [apply keeps_assign_field|apply keeps_assign_var].
Qed.

Lemma keeps_print_args (args : list Expr) (lam : LambdaCtx) :
  forall acc, keeps 0 0 (print_args gp ev args lam acc).
Proof.
  induction args as [|a r IH]; intro acc; cbn [print_args];
    [apply keeps_ret|].
  apply keeps_bind0; [apply ev_keeps|]. intro v. apply IH.
Qed.

Lemma keeps_input_prompt (args : list Expr) (lam : LambdaCtx) :
  keeps 0 0 (input_prompt gp ev args lam).
Proof.
  unfold input_prompt. destruct args as [|a [|b r]];
    [apply keeps_ret| |apply keeps_error].
  apply keeps_bind0; [apply ev_keeps|]. intro v. apply keeps_output.
Qed.

Lemma keeps_evaluate_inputi (args : list Expr) (lam : LambdaCtx) :
  keeps 0 0 (evaluate_inputi gp ev args lam).
Proof.
  unfold evaluate_inputi.
  apply keeps_bind0; [apply keeps_input_prompt|]. intros _.
  apply keeps_bind0; [apply keeps_get_input|]. intro t.
  destruct (isdigit t) as [[|]|];
    [destruct (int_of_string t)|..];
    first [apply keeps_ret|apply keeps_error|apply keeps_raise].
Qed.

Lemma keeps_evaluate_inputs (args : list Expr) (lam : LambdaCtx) :
  keeps 0 0 (evaluate_inputs gp ev args lam).
Proof.
  unfold evaluate_inputs.
  apply keeps_bind0; [apply keeps_input_prompt|]. intros _.
  apply keeps_bind0; [apply keeps_get_input|]. intro t. apply keeps_ret.
Qed.

Lemma keeps_find_method (m : string) (d : dict string Value) :
  keeps 0 0 (find_method depth m d).
Proof.
  apply keeps_same_stacks. intros st a st' H. unfold find_method in H.
  destruct (dict_get m d); [inversion H; auto|].
  destruct (proto_lookup _ _ _ _) as [[w|]|]; inversion H; auto.
Qed.

Lemma keeps_resolve_method (o m : string) (nargs : nat)
  (fe : option Callee) : keeps 0 0 (resolve_method fl depth o m nargs fe).
Proof.
  unfold resolve_method.
  apply keeps_bind0; [apply keeps_validate_var_name|]. intros [i|];
    [|apply keeps_error].
  apply keeps_bind0; [apply keeps_read_scope|]. intro object.
  destruct object; try apply keeps_error.
  apply keeps_bind0; [apply keeps_get_state|]. intro st.
  apply keeps_bind0; [apply keeps_or_raise|]. intro d.
  apply keeps_bind0; [apply keeps_find_method|]. intro w.
  destruct w; try apply keeps_error.
  - destruct (match_func_value _ _ _ _); [apply keeps_ret|apply keeps_error].
  - apply keeps_bind0; [apply keeps_get_state|]. intro st'.
    apply keeps_bind0; [apply keeps_or_raise|]. intro node.
    destruct (negb _); [apply keeps_error|apply keeps_ret].
Qed.

Lemma keeps_nested_callee (v : Value) : keeps 0 0 (nested_callee v).
Proof.
  unfold nested_callee. destruct v; try apply keeps_host.
  - destruct v; apply keeps_host.
  - apply keeps_bind0; [apply keeps_get_state|]. intro st.
    apply keeps_or_raise.
Qed.

Lemma keeps_resolve_variable (f : string) (nargs : nat) (lam : LambdaCtx) :
  keeps 0 0 (resolve_variable fl f nargs lam).
Proof.
  unfold resolve_variable.
  apply keeps_bind0; [apply keeps_validate_var_name|]. intros [i|];
    [|apply keeps_error].
  apply keeps_bind0; [apply keeps_read_scope|]. intro w.
  destruct w; try apply keeps_error.
  - destruct (match_func_value _ _ _ _); [apply keeps_ret|apply keeps_error].
  - apply keeps_bind0; [apply keeps_captured_of|]. intro cap.
    destruct (match cap with
              | Some (_, c) => dict_get (Some f) c
              | None => None
              end).
    + apply keeps_bind0; [apply keeps_nested_callee|]. intro node.
      apply keeps_ret.
    + apply keeps_bind0; [apply keeps_get_state|]. intro st.
      apply keeps_bind0; [apply keeps_or_raise|]. intro node.
      destruct (negb _); [apply keeps_error|apply keeps_ret].
Qed.

Lemma keeps_bind_args (scope_index : nat) (args : list Expr) :
  forall params, keeps 0 0 (bind_args ev depth scope_index args params).
Proof.
  induction args as [|a r IH]; intro params; cbn [bind_args];
    [apply keeps_ret|].
  apply keeps_bind0; [apply ev_keeps|]. intro v.
  destruct params as [|p ps]; [apply keeps_host|].
  apply keeps_bind0.
  - destruct (p_kind p), (type v); repeat keeps_step.
  - intros _. apply keeps_bind0; [destruct (p_kind p); auto with keeps|].
    intros _. apply IH.
Qed.

Lemma keeps_do_func_call (node : CallNode) (lam : LambdaCtx) :
  keeps 0 0 (do_func_call gp fl ev exec depth node lam).
Proof.
  unfold do_func_call. destruct (String.eqb (c_name node) "print").
  - apply keeps_bind0; [apply keeps_print_args|]. intro out.
    apply keeps_bind0; [apply keeps_output|]. intros _. apply keeps_ret.
  - apply keeps_bind0.
    { destruct (c_objref node) as [o|]; [|apply keeps_ret].
      apply keeps_bind0; [apply keeps_resolve_method|].
      intros [[object fe] l]. apply keeps_ret. }
    intros [[object fe1] l1].
    apply keeps_bind0.
    { destruct fe1; [apply keeps_ret|apply keeps_resolve_variable]. }
    intros [fe l2]. destruct fe as [[params body]|]; [|apply keeps_error].
    apply (keeps_bind 1 1 (-1) (-1)); [apply keeps_push_scope|]. intros _.
    apply (keeps_bind 0 0 (-1) (-1)); [apply keeps_get_state|]. intro st.
    apply (keeps_bind 0 0 (-1) (-1)); [apply keeps_bind_args|]. intros _.
    apply (keeps_bind 0 0 (-1) (-1)); [|intros _; apply keeps_run_func].
    destruct object, (c_objref node); try apply keeps_ret.
    apply keeps_bind0; [apply keeps_bind_in_scope|]. intros _.
    apply keeps_bind_alias.
Qed.

End BodiesKeepStacks.

Lemma keeps_interpreter (gp : Value -> string) (fl : Program) :
  forall fuel,
    (forall e lam, keeps 0 0 (evaluate_expression gp fl fuel e lam)) /\
    (forall s lam, keeps 0 0 (run_statement gp fl fuel s lam)) /\
    (forall b c body, keeps 0 0 (while_loop gp fl fuel b c body)).
Proof.
  induction fuel as [|n (IHe & IHs & IHw)].
  - split; [|split]; intros; apply keeps_raise.
  - pose proof (keeps_do_func_call gp fl _ _ n IHe IHs) as Hcall.
    pose proof (keeps_run_block _ IHs) as Hblock.
    split; [|split].
    + intros e lam. destruct e; cbn [evaluate_expression];
        try (repeat keeps_step; fail).
      * destruct (String.eqb name "inputi");
          [apply keeps_evaluate_inputi; exact IHe|].
        destruct (String.eqb name "inputs");
          [apply keeps_evaluate_inputs; exact IHe|apply Hcall].
      * destruct (String.eqb name "inputi");
          [apply keeps_evaluate_inputi; exact IHe|].
        destruct (String.eqb name "inputs");
          [apply keeps_evaluate_inputs; exact IHe|apply Hcall].
    + intros s lam. destruct s; cbn [run_statement].
      * apply keeps_bind0; [apply keeps_do_assignment; exact IHe|].
        intros _. apply keeps_ret.
      * apply keeps_bind0; [apply Hcall|]. intros _. apply keeps_ret.
      * apply keeps_bind0; [apply Hcall|]. intros _. apply keeps_ret.
      * destruct expression as [e|]; [|apply keeps_ret].
        repeat keeps_step.
      * apply keeps_bind0; [apply IHe|]. intro v.
        apply keeps_bind0; [apply keeps_condition_bool|]. intros [|].
        -- apply keeps_weaken with (da := 1); [|lia].
           apply (keeps_bind 1 1 (-1) 0); [apply keeps_push_scope|].
           intros _. apply keeps_run_if_statements. exact IHs.
        -- destruct else_statements as [es|]; [|apply keeps_ret].
           apply keeps_weaken with (da := 1); [|lia].
           apply (keeps_bind 1 1 (-1) 0); [apply keeps_push_scope|].
           intros _. apply keeps_run_if_statements. exact IHs.
      * apply keeps_bind0; [apply IHe|]. intro v.
        apply keeps_bind0; [apply keeps_condition_bool|]. intro b.
        apply IHw.
    + intros b c body. cbn [while_loop]. destruct b; [|apply keeps_ret].
      apply keeps_weaken with (da := 1); [|lia].
      apply (keeps_bind 1 1 (-1) 0); [apply keeps_push_scope|]. intros _.
      apply (keeps_bind 0 0 (-1) 0); [apply Hblock|]. intro r.
      apply (keeps_bind (-1) 0 0 0); [apply keeps_pop_scope|]. intros _.
      destruct r; [apply keeps_ret|].
      apply keeps_bind0; [apply IHe|]. intro v.
      apply keeps_bind0; [apply keeps_condition_bool|]. intro b.
      apply IHw.
Qed.

(* ================================================================== *)
(** * Further properties of the interpreter *)

(* ------------------------------------------------------------------ *)
(** ** Stack heights across a statement *)

(** X1.  Whatever a statement or an expression does (calls, blocks, loops,
    early returns), when it completes the scope stack is as tall as before
    and the alias stack is no shorter than before; in particular, if every
    scope frame had an alias table before, every scope frame has one
    after. *)
Theorem completed_code_restores_the_scope_stack
  (gp : Value -> string) (fl : Program) (fuel : nat) :
  (forall s lam st r st',
     run_statement gp fl fuel s lam st = Ok r st' ->
     length (variable_scope_list st') = length (variable_scope_list st)
     /\ (length (variable_alias_list st)
         <= length (variable_alias_list st'))%nat)
  /\
  (forall e lam st v st',
     evaluate_expression gp fl fuel e lam st = Ok v st' ->
     length (variable_scope_list st') = length (variable_scope_list st)
     /\ (length (variable_alias_list st)
         <= length (variable_alias_list st'))%nat).
Proof.
  destruct (keeps_interpreter gp fl fuel) as (He & Hs & _).
  split.
  - intros s lam st r st' H. destruct (Hs s lam st r st' H) as [H1 H2].
    split; lia.
  - intros e lam st v st' H. destruct (He e lam st v st' H) as [H1 H2].
    split; lia.
Qed.

Lemma completed_call_witness :
  length (variable_scope_list
            (mkState [[(Some "a", VInt 2)]] [[]] [] 2 [] []))
  = length (variable_scope_list
              (mkState [[(Some "a", VInt 1)]] [[]] [] 2 [] []))
  /\ (length (variable_alias_list
                (mkState [[(Some "a", VInt 1)]] [[]] [] 2 [] []))
      <= length (variable_alias_list
                   (mkState [[(Some "a", VInt 2)]] [[]] [] 2 [] [])))%nat.
Proof.
  apply (proj1 (completed_code_restores_the_scope_stack spec_printable
                  prog_reference_parameter 5)
           (SFcall "f" [EVar "a"]) LNone
           (mkState [[(Some "a", VInt 1)]] [[]] [] 2 [] []) None
           (mkState [[(Some "a", VInt 2)]] [[]] [] 2 [] [])).
  vm_compute. reflexivity.
Defined.

(* ------------------------------------------------------------------ *)
(** ** Name lookup *)

Lemma closest_scope_none (x : name) (scopes : list Frame) :
  forall n,
    closest_scope x scopes n = None <->
    (forall j f, (j < n)%nat -> nth_error scopes j = Some f ->
                 dict_mem x f = false).
Proof.
  induction n as [|m IH]; cbn [closest_scope].
  - split; [intros _ j f Hj; lia|reflexivity].
  - destruct (nth_error scopes m) as [f|] eqn:En.
    + destruct (dict_mem x f) eqn:Em.
      * split; [discriminate|]. intro H.
        rewrite (H m f ltac:(lia) En) in Em. discriminate.
      * rewrite IH. split; intros H j g Hj Hg.
        -- destruct (Nat.eq_dec j m) as [->|Hne].
           ++ rewrite En in Hg. inversion Hg; subst. exact Em.
           ++ apply (H j g); [lia|exact Hg].
        -- apply (H j g); [lia|exact Hg].
    + rewrite IH. split; intros H j g Hj Hg.
      * destruct (Nat.eq_dec j m) as [->|Hne]; [congruence|].
        apply (H j g); [lia|exact Hg].
      * apply (H j g); [lia|exact Hg].
Qed.

Lemma closest_scope_some (x : name) (scopes : list Frame) :
  forall n i,
    closest_scope x scopes n = Some i <->
    (i < n)%nat /\
    (exists f, nth_error scopes i = Some f /\ dict_mem x f = true) /\
    (forall j f, (i < j < n)%nat -> nth_error scopes j = Some f ->
                 dict_mem x f = false).
Proof.
  intros n i. split; [apply closest_scope_bound|].
  intros (Hlt & (f & Hf & Hm) & Habove).
  induction n as [|m IH]; [lia|]. cbn [closest_scope].
  destruct (Nat.eq_dec i m) as [->|Hne].
  - now rewrite Hf, Hm.
  - assert (Hrec : closest_scope x scopes m = Some i).
    { apply IH; [lia|]. intros j g Hj. apply Habove. lia. }
    destruct (nth_error scopes m) as [g|] eqn:En; [|exact Hrec].
    rewrite (Habove m g ltac:(lia) En). exact Hrec.
Qed.

(** X2.  [validate_var_name] answers with frame [i] exactly when frame [i]
    binds the name and no frame above it does; it raises NAME_ERROR exactly
    when no frame binds the name, and in gentle mode answers [None]
    instead.  It never changes the state. *)
Theorem validate_var_name_finds_the_innermost_frame (x : string) (st : State) :
  (forall i,
     validate_var_name x false st = Ok (Some i) st <->
     (exists f, nth_error (variable_scope_list st) i = Some f
                /\ dict_mem (Some x) f = true) /\
     (forall j f, (i < j)%nat ->
                  nth_error (variable_scope_list st) j = Some f ->
                  dict_mem (Some x) f = false))
  /\
  (validate_var_name x false st = Fail (Error NAME_ERROR) st <->
   (forall j f, nth_error (variable_scope_list st) j = Some f ->
                dict_mem (Some x) f = false))
  /\
  (validate_var_name x true st = Ok None st <->
   (forall j f, nth_error (variable_scope_list st) j = Some f ->
                dict_mem (Some x) f = false)).
Proof.
  set (S0 := variable_scope_list st).
  assert (Hnone : closest_scope (Some x) S0 (length S0) = None <->
                  (forall j f, nth_error S0 j = Some f ->
                               dict_mem (Some x) f = false)).
  { rewrite closest_scope_none. split; intros H j f.
    - intro Hf. apply (H j f); [|exact Hf].
      apply nth_error_Some. rewrite Hf. discriminate.
    - intros _. apply H. }
  split; [|split].
  - intro i. unfold validate_var_name. fold S0.
    destruct (closest_scope (Some x) S0 (length S0)) as [k|] eqn:E.
    + split.
      * intro H. inversion H; subst k. apply closest_scope_some in E.
        destruct E as (Hlt & Hex & Habove). split; [exact Hex|].
        intros j f Hj Hf. apply (Habove j f); [|exact Hf].
        split; [exact Hj|]. apply nth_error_Some. rewrite Hf. discriminate.
      * intros ((f & Hf & Hm) & Habove).
        assert (E' : closest_scope (Some x) S0 (length S0) = Some i).
        { apply closest_scope_some. split.
          - apply nth_error_Some. rewrite Hf. discriminate.
          - split; [now exists f|]. intros j g Hj. apply Habove. lia. }
        congruence.
    + split; [discriminate|]. intros ((f & Hf & Hm) & _).
      pose proof (proj1 Hnone eq_refl) as Hn.
      rewrite (Hn i f Hf) in Hm. discriminate.
  - unfold validate_var_name. fold S0. rewrite <- Hnone.
    destruct (closest_scope (Some x) S0 (length S0));
      split; congruence.
  - unfold validate_var_name. fold S0. rewrite <- Hnone.
    destruct (closest_scope (Some x) S0 (length S0));
      split; congruence.
Qed.

(* ------------------------------------------------------------------ *)
(** ** Assignment to a bare name *)

(** X3.  Assigning to a name that no frame binds creates the binding in the
    innermost frame and changes no other binding of any frame. *)
Theorem new_name_is_bound_in_the_innermost_frame
  (x : string) (v : Value) (st : State) :
  variable_scope_list st <> [] ->
  closest_scope (Some x) (variable_scope_list st)
                (length (variable_scope_list st)) = None ->
  exists scopes',
    assign_var x v st = Ok tt (set_scopes scopes' st) /\
    lookup scopes' (length (variable_scope_list st) - 1) (Some x) = Some v /\
    (forall j y,
       j <> (length (variable_scope_list st) - 1)%nat \/ y <> Some x ->
       lookup scopes' j y = lookup (variable_scope_list st) j y).
Proof.
  intros Hne Hc. set (S0 := variable_scope_list st) in *.
  assert (Hlen : (0 < length S0)%nat)
    by (destruct S0; [congruence|simpl; lia]).
  destruct (nth_error_in_range S0 (length S0 - 1) ltac:(lia)) as [f Hf].
  exists (set_nth (length S0 - 1) (dict_set (Some x) v f) S0).
  split; [|split].
  - unfold assign_var. fold S0. rewrite Hc.
    replace (Z.of_nat (length S0) - 1) with (Z.of_nat (length S0 - 1)) by lia.
    now rewrite (frame_set_nat S0 _ f (Some x) v Hf).
  - rewrite (lookup_set_nth S0 _ f (Some x) v _ _ Hf).
    now rewrite Nat.eqb_refl, keqb_refl.
  - intros j y Hd. rewrite (lookup_set_nth S0 _ f (Some x) v j y Hf).
    destruct (Nat.eqb_spec j (length S0 - 1)) as [->|Hj]; [|reflexivity].
    destruct Hd as [Hd|Hd]; [congruence|]. now rewrite (keqb_neq Hd).
Qed.

Lemma new_name_witness :
  exists scopes',
    assign_var "x" (VInt 3) in_f_with_b_aliasing_a
    = Ok tt (set_scopes scopes' in_f_with_b_aliasing_a)
    /\ lookup scopes' 1 (Some "x") = Some (VInt 3)
    /\ lookup scopes' 0 (Some "x") = None.
Proof.
  destruct (new_name_is_bound_in_the_innermost_frame "x" (VInt 3)
              in_f_with_b_aliasing_a ltac:(discriminate) eq_refl)
    as (scopes' & Ha & Hx & Hother).
  exists scopes'. split; [exact Ha|]. split; [exact Hx|].
  rewrite Hother; [reflexivity|]. left. discriminate.
Defined.

(** X4.  A read that directly follows an assignment to a bare name returns
    the assigned value and leaves the state as the assignment left it,
    when the frame the assignment binds (the innermost frame that has the
    name, or the innermost frame of the stack for a new name) has no alias
    entry for the name. *)
Theorem read_after_assignment_returns_the_value
  (x : string) (v : Value) (st : State) (i : nat) (tbl : AliasTable) :
  closest_scope (Some x) (variable_scope_list st)
                (length (variable_scope_list st)) = Some i
  \/ (closest_scope (Some x) (variable_scope_list st)
                    (length (variable_scope_list st)) = None
      /\ S i = length (variable_scope_list st)) ->
  nth_error (variable_alias_list st) i = Some tbl ->
  dict_get (Some x) tbl = None ->
  exists st',
    assign_var x v st = Ok tt st' /\ read_var x st' = Ok v st'.
Proof.
  intros Hcases Ht Hg. set (S0 := variable_scope_list st) in *.
  assert (Hi : (i < length S0)%nat).
  { destruct Hcases as [Hc|[_ Hl]]; [|lia].
    now destruct (closest_scope_bound _ _ _ _ Hc). }
  destruct (nth_error_in_range S0 i Hi) as [f Hf].
  set (S1 := set_nth i (dict_set (Some x) v f) S0).
  exists (set_scopes S1 st).
  assert (Hassign : assign_var x v st = Ok tt (set_scopes S1 st)).
  { unfold assign_var. fold S0. destruct Hcases as [Hc|[Hc Hl]]; rewrite Hc.
    - rewrite (frame_set_nat S0 i f (Some x) v Hf). fold S1.
      destruct (i + length (variable_alias_list st))%nat;
        cbn [write_cascade]; now rewrite py_index_nat, Ht, Hg.
    - replace (Z.of_nat (length S0) - 1) with (Z.of_nat i) by lia.
      now rewrite (frame_set_nat S0 i f (Some x) v Hf). }
  split; [exact Hassign|].
  assert (Hl1 : length S1 = length S0) by apply set_nth_length.
  assert (Hc1 : closest_scope (Some x) S1 (length S1) = Some i).
  { apply closest_scope_some. split; [unfold dict in *; lia|]. split.
    - exists (dict_set (Some x) v f). split.
      + now apply nth_error_set_nth_same.
      + now rewrite dict_mem_set, keqb_refl.
    - intros j g Hj Hgj. unfold S1 in Hgj.
      rewrite nth_error_set_nth_other in Hgj by lia.
      destruct Hcases as [Hc|[_ Hl]]; [|unfold dict in *; lia].
      destruct (closest_scope_bound _ _ _ _ Hc) as (_ & _ & Habove).
      apply (Habove j g); [unfold dict in *; lia|exact Hgj]. }
  apply (read_var_plain x (set_scopes S1 st) i tbl v).
  - exact Hc1.
  - exact Ht.
  - exact Hg.
  - simpl. unfold S1. rewrite (lookup_set_nth S0 i f (Some x) v i _ Hf).
    now rewrite Nat.eqb_refl, keqb_refl.
Qed.

Lemma read_after_assignment_witness :
  exists st',
    assign_var "a" (VInt 9) in_f_with_b_aliasing_a = Ok tt st'
    /\ read_var "a" st' = Ok (VInt 9) st'.
Proof.
  exact (read_after_assignment_returns_the_value "a" (VInt 9)
           in_f_with_b_aliasing_a 0 [] (or_introl eq_refl) eq_refl eq_refl).
Defined.

(* ------------------------------------------------------------------ *)
(** ** Objects *)

Lemma split_dot_plain (s : string) : has_dot s = false -> split_dot s = [s].
Proof.
  induction s as [|c r IH]; cbn [has_dot split_dot]; [reflexivity|].
  destruct (Ascii.eqb c "."); [discriminate|]. intro H. now rewrite IH.
Qed.

Lemma split_dot_dotted (o f : string) :
  has_dot o = false ->
  split_dot (o ++ String "." f) = o :: split_dot f.
Proof.
  induction o as [|c r IH]; cbn [has_dot split_dot String.append].
  - intros _. reflexivity.
  - destruct (Ascii.eqb c "."); [discriminate|]. intro H. now rewrite IH.
Qed.

Lemma has_dot_dotted (o f : string) : has_dot (o ++ String "." f) = true.
Proof.
  induction o as [|c r IH]; cbn [has_dot String.append]; [reflexivity|].
  now destruct (Ascii.eqb c ".").
Qed.

(** the name [o.f] splits into the object name and the field name *)
Lemma split_names_dotted (o f : string) :
  has_dot o = false -> has_dot f = false ->
  split_names (o ++ String "." f) = (o, f).
Proof.
  intros Ho Hf. unfold split_names.
  now rewrite (split_dot_dotted o f Ho), (split_dot_plain f Hf).
Qed.

Lemma obj_fields_set_field (h : list Cell) (a : nat) (f : string) (v : Value)
  (d : dict string Value) :
  obj_fields h a = Some d ->
  obj_fields (set_field a f v h) a = Some (dict_set f v d).
Proof.
  unfold obj_fields, set_field. intro H.
  destruct (nth_error h a) as [[d0|ps body c]|] eqn:E; try discriminate.
  inversion H; subst.
  rewrite nth_error_set_nth_same; [reflexivity|].
  apply nth_error_Some. rewrite E. discriminate.
Qed.

Lemma validate_found (x : string) (st : State) (i : nat) :
  closest_scope (Some x) (variable_scope_list st)
                (length (variable_scope_list st)) = Some i ->
  validate_var_name x false st = Ok (Some i) st.
Proof. intro H. unfold validate_var_name. now rewrite H. Qed.

Lemma assign_field_ok (target o f : string) (v : Value) (st : State)
  (i a : nat) :
  split_names target = (o, f) ->
  (f = "proto" -> type v = OBJ \/ type v = NIL) ->
  closest_scope (Some o) (variable_scope_list st)
                (length (variable_scope_list st)) = Some i ->
  lookup (variable_scope_list st) i (Some o) = Some (VObj a) ->
  assign_field target v st
  = Ok tt (set_store (set_field a f v (store st)) st).
Proof.
  intros Hs Hp Hc Hl. unfold assign_field. rewrite Hs.
  assert (Hcond : String.eqb f "proto"
                  && negb (Type_eqb (type v) OBJ)
                  && negb (Type_eqb (type v) NIL) = false).
  { destruct (String.eqb f "proto") eqn:E; [|reflexivity].
    apply String.eqb_eq in E. destruct (Hp E) as [Ht|Ht]; rewrite Ht;
      reflexivity. }
  rewrite Hcond. unfold bind. rewrite (validate_found o st i Hc).
  unfold read_scope. now rewrite (scope_get_nat _ _ _ _ Hl).
Qed.

Lemma read_field_own (fuel : nat) (target o f : string) (v : Value)
  (st : State) (i a : nat) (d : dict string Value) :
  split_names target = (o, f) ->
  closest_scope (Some o) (variable_scope_list st)
                (length (variable_scope_list st)) = Some i ->
  lookup (variable_scope_list st) i (Some o) = Some (VObj a) ->
  obj_fields (store st) a = Some d ->
  dict_get f d = Some v ->
  read_field fuel target st = Ok v st.
Proof.
  intros Hs Hc Hl Hd Hf. unfold read_field. rewrite Hs. unfold bind.
  rewrite (validate_found o st i Hc), (scope_get_nat _ _ _ _ Hl), Hd, Hf.
  reflexivity.
Qed.

(** X5.  After the statement [o.f = e] on a variable [o] that holds an
    object, the expression [o.f] evaluates to the value [e] had, in the
    state the statement left (no function being named [o.f]). *)
Theorem field_read_after_field_assignment
  (gp : Value -> string) (fl : Program) (n m : nat) (o f : string)
  (e : Expr) (st st1 : State) (v : Value) (i a : nat)
  (d : dict string Value) :
  has_dot o = false ->
  has_dot f = false ->
  (forall fd, In fd fl -> f_name fd <> (o ++ String "." f)%string) ->
  evaluate_expression gp fl n e LNone st = Ok v st1 ->
  (f = "proto" -> type v = OBJ \/ type v = NIL) ->
  closest_scope (Some o) (variable_scope_list st1)
                (length (variable_scope_list st1)) = Some i ->
  lookup (variable_scope_list st1) i (Some o) = Some (VObj a) ->
  obj_fields (store st1) a = Some d ->
  exists st2,
    run_statement gp fl (S n) (SAssign (o ++ String "." f) e) LNone st
    = Ok None st2
    /\ evaluate_expression gp fl (S m) (EVar (o ++ String "." f)) LNone st2
       = Ok v st2.
Proof.
  intros Ho Hf Hfl He Hp Hc Hl Hd.
  pose proof (split_names_dotted o f Ho Hf) as Hs.
  exists (set_store (set_field a f v (store st1)) st1). split.
  - rewrite run_assign_eq. unfold bind at 1. unfold do_assignment, bind.
    rewrite He. cbn [captured_of]. rewrite has_dot_dotted.
    now rewrite (assign_field_ok _ o f v st1 i a Hs Hp Hc Hl).
  - rewrite evaluate_var_eq.
    rewrite (evaluate_var_prefix fl m _ LNone _ I). cbn [snapshot_search].
    rewrite (functions_named_none _ fl Hfl 0), has_dot_dotted.
    apply (read_field_own m _ o f v
             (set_store (set_field a f v (store st1)) st1)
             i a (dict_set f v d) Hs Hc Hl).
    + now apply obj_fields_set_field.
    + apply dict_get_set_same.
Qed.

Lemma field_round_trip_witness :
  exists st2,
    run_statement spec_printable [] 2 (SAssign "x.a" (EInt 12)) LNone
                  (mkState [[(Some "x", VObj 0)]] [[]] [ObjCell []] 0 [] [])
    = Ok None st2
    /\ evaluate_expression spec_printable [] 1 (EVar "x.a") LNone st2
       = Ok (VInt 12) st2.
Proof.
  refine (field_read_after_field_assignment spec_printable [] 1 0 "x" "a"
            (EInt 12)
            (mkState [[(Some "x", VObj 0)]] [[]] [ObjCell []] 0 [] [])
            (mkState [[(Some "x", VObj 0)]] [[]] [ObjCell []] 0 [] [])
            (VInt 12) 0 0 [] eq_refl eq_refl _ eq_refl _ eq_refl eq_refl
            eq_refl).
  - intros fd [].
  - discriminate.
Defined.

(** X6.  Assigning to the [proto] field a value that is neither an Object
    nor Nil is a TYPE_ERROR that leaves the state as it was; the check
    comes before the object is looked up, so it is raised even when the
    object variable does not exist. *)
Theorem proto_accepts_only_an_object_or_nil
  (target o : string) (v : Value) (st : State) :
  split_names target = (o, "proto") ->
  type v <> OBJ -> type v <> NIL ->
  assign_field target v st = Fail (Error TYPE_ERROR) st.
Proof.
  intros Hs H1 H2. unfold assign_field. rewrite Hs.
  destruct v; simpl in *; try reflexivity; congruence.
Qed.

Lemma proto_type_error_witness :
  assign_field "y.proto" (VInt 5) empty_state
  = Fail (Error TYPE_ERROR) empty_state.
Proof.
  apply (proto_accepts_only_an_object_or_nil "y.proto" "y" (VInt 5)
           empty_state eq_refl); discriminate.
Defined.

(** X7.  Reading [o.f]: an unbound [o] is a NAME_ERROR and an [o] that holds
    no object a TYPE_ERROR; a field of the object itself is returned
    whatever its prototype has; a field the object lacks is taken from its
    prototype object when that one has it; and with no [proto] field, or a
    [proto] that is not an object, the read is a NAME_ERROR.  The read
    never changes the state. *)
Theorem field_read_walks_the_prototype
  (fuel : nat) (target o f : string) (st : State) :
  split_names target = (o, f) ->
  (closest_scope (Some o) (variable_scope_list st)
                 (length (variable_scope_list st)) = None ->
   read_field fuel target st = Fail (Error NAME_ERROR) st)
  /\
  (forall i w a d,
     closest_scope (Some o) (variable_scope_list st)
                   (length (variable_scope_list st)) = Some i ->
     lookup (variable_scope_list st) i (Some o) = Some w ->
     (type w <> OBJ -> read_field fuel target st = Fail (Error TYPE_ERROR) st)
     /\
     (w = VObj a -> obj_fields (store st) a = Some d ->
      (forall v, dict_get f d = Some v -> read_field fuel target st = Ok v st)
      /\
      (forall b d2 v,
         dict_get f d = None ->
         dict_get "proto" d = Some (VObj b) ->
         obj_fields (store st) b = Some d2 ->
         dict_get f d2 = Some v ->
         read_field (S fuel) target st = Ok v st)
      /\
      (dict_get f d = None ->
       (forall b, dict_get "proto" d <> Some (VObj b)) ->
       read_field (S fuel) target st = Fail (Error NAME_ERROR) st))).
Proof.
  intro Hs. split.
  - intro Hc. unfold read_field. rewrite Hs. unfold bind, validate_var_name.
    now rewrite Hc.
  - intros i w a d Hc Hl. split.
    + intro Hw. unfold read_field. rewrite Hs. unfold bind.
      rewrite (validate_found o st i Hc), (scope_get_nat _ _ _ _ Hl).
      destruct w; try reflexivity. simpl in Hw. congruence.
    + intros -> Hd. split; [|split].
      * intros v Hv. exact (read_field_own fuel _ o f v st i a d Hs Hc Hl Hd Hv).
      * intros b d2 v Hn Hp Hd2 Hv. unfold read_field. rewrite Hs.
        unfold bind.
        rewrite (validate_found o st i Hc), (scope_get_nat _ _ _ _ Hl), Hd, Hn.
        cbn [proto_lookup]. now rewrite Hp, Hd2, Hv.
      * intros Hn Hp. unfold read_field. rewrite Hs. unfold bind.
        rewrite (validate_found o st i Hc), (scope_get_nat _ _ _ _ Hl), Hd, Hn.
        cbn [proto_lookup].
        destruct (dict_get "proto" d) as [[]|]; try reflexivity.
        exfalso. eapply Hp. reflexivity.
Qed.

Lemma prototype_read_witness :
  read_field 1 "x.f" object_with_prototype = Ok (VInt 5) object_with_prototype.
Proof.
  refine (proj1 (proj2 (proj2 (proj2
            (field_read_walks_the_prototype 0 "x.f" "x" "f"
               object_with_prototype eq_refl)
            0%nat (VObj 0) 0%nat [("proto", VObj 1)] eq_refl eq_refl)
            eq_refl eq_refl))
            1%nat [("f", VInt 5)] (VInt 5) eq_refl eq_refl eq_refl eq_refl).
Defined.

(* ------------------------------------------------------------------ *)
(** ** Operators *)

Lemma values_equal_sym (a b : Value) : values_equal a b = values_equal b a.
Proof.
  destruct a, b; simpl; try reflexivity;
    first [apply Z.eqb_sym | apply String.eqb_sym | apply Nat.eqb_sym
          | destruct v, v0; reflexivity
          | destruct (get_bool_from_int v), v0; reflexivity
          | destruct v, (get_bool_from_int v0); reflexivity].
Qed.

Lemma values_equal_refl (a : Value) : values_equal a a = true.
Proof.
  destruct a; simpl;
    first [apply Z.eqb_refl | apply String.eqb_refl | apply Nat.eqb_refl
          | apply Bool.eqb_reflx | reflexivity].
Qed.

(** X8.  [==] and [!=] never raise: once both operands are evaluated, left
    first, [==] answers a Bool and [!=] the opposite Bool.  The comparison
    is symmetric, every value equals itself, and two values of different
    kinds are unequal unless one is an Int and the other a Bool. *)
Theorem equality_always_answers
  (gp : Value -> string) (fl : Program) (n : nat) (e1 e2 : Expr)
  (lam : LambdaCtx) (st st1 st2 : State) (v1 v2 : Value) :
  evaluate_expression gp fl n e1 lam st = Ok v1 st1 ->
  evaluate_expression gp fl n e2 lam st1 = Ok v2 st2 ->
  evaluate_expression gp fl (S n) (EEq e1 e2) lam st
  = Ok (VBool (values_equal v1 v2)) st2
  /\ evaluate_expression gp fl (S n) (ENe e1 e2) lam st
     = Ok (VBool (negb (values_equal v1 v2))) st2
  /\ values_equal v1 v2 = values_equal v2 v1
  /\ values_equal v1 v1 = true
  /\ (type v1 <> type v2 ->
      (type v1 = INT -> type v2 <> BOOL) ->
      (type v1 = BOOL -> type v2 <> INT) ->
      values_equal v1 v2 = false).
Proof.
  intros H1 H2. split; [|split; [|split; [|split]]].
  - cbn [evaluate_expression]. unfold bind. now rewrite H1, H2.
  - cbn [evaluate_expression]. unfold bind. now rewrite H1, H2.
  - apply values_equal_sym.
  - apply values_equal_refl.
  - intros Hne Hi Hb. destruct v1, v2; simpl in *; try reflexivity;
      try congruence.
    + exfalso. now apply Hi.
    + exfalso. now apply Hb.
Qed.

Lemma equality_witness :
  evaluate_expression spec_printable [] 2 (EEq (EInt 5) (EBool true))
                      LNone empty_state
  = Ok (VBool true) empty_state.
Proof.
  exact (proj1 (equality_always_answers spec_printable [] 1 (EInt 5)
                  (EBool true) LNone empty_state empty_state empty_state
                  (VInt 5) (VBool true) eq_refl eq_refl)).
Defined.

(** X9.  In the arithmetic and relational operators a Bool operand counts
    as the Int 1 or 0: replacing [true] by 1 and [false] by 0, on either
    side, changes nothing of what the operator does. *)
Theorem bool_operands_count_as_one_and_zero
  (op : BinOp) (b : bool) (v : Value) (st : State) :
  binary_op op (VBool b) v st
  = binary_op op (VInt (if b then 1 else 0)) v st
  /\ binary_op op v (VBool b) st
     = binary_op op v (VInt (if b then 1 else 0)) st.
Proof.
  split; destruct op, v; reflexivity.
Qed.

(** X10.  An arithmetic or relational operator with an operand that is
    neither an Int nor a Bool is a TYPE_ERROR, the one exception being [+]
    on two Strings. *)
Theorem arithmetic_on_other_kinds_is_a_type_error
  (op : BinOp) (v1 v2 : Value) (st : State) :
  (type v1 <> INT /\ type v1 <> BOOL) \/ (type v2 <> INT /\ type v2 <> BOOL) ->
  ~ (op = Add /\ type v1 = STRING /\ type v2 = STRING) ->
  binary_op op v1 v2 st = Fail (Error TYPE_ERROR) st.
Proof.
  intros Hk Hs.
  destruct v1, v2; simpl in Hk;
    try (destruct Hk as [[? ?]|[? ?]]; congruence);
    destruct op; try reflexivity;
    exfalso; apply Hs; repeat split; reflexivity.
Qed.

Lemma arithmetic_type_error_witness :
  binary_op Sub (VString "a") (VString "b") empty_state
  = Fail (Error TYPE_ERROR) empty_state.
Proof.
  apply arithmetic_on_other_kinds_is_a_type_error.
  - left. split; discriminate.
  - intros (H & _). discriminate.
Defined.

(** X11.  [/] on Ints with a divisor other than 0 answers the quotient
    rounded towards minus infinity. *)
Theorem division_rounds_towards_minus_infinity (a b : Z) (st : State) :
  b <> 0 ->
  exists q,
    binary_op Div (VInt a) (VInt b) st = Ok (VInt q) st
    /\ (0 < b -> b * q <= a < b * q + b)
    /\ (b < 0 -> b * q + b < a <= b * q).
Proof.
  intro Hb. exists (a / b). split; [|split].
  - unfold binary_op. simpl. destruct (Z.eqb_spec b 0); [contradiction|].
    reflexivity.
  - intro Hpos. pose proof (Z.div_mod a b Hb).
    pose proof (Z.mod_pos_bound a b Hpos). lia.
  - intro Hneg. pose proof (Z.div_mod a b Hb).
    pose proof (Z.mod_neg_bound a b Hneg). lia.
Qed.

Lemma division_witness :
  exists q,
    binary_op Div (VInt (-7)) (VInt 2) empty_state = Ok (VInt q) empty_state
    /\ (0 < 2 -> 2 * q <= -7 < 2 * q + 2)
    /\ (2 < 0 -> 2 * q + 2 < -7 <= 2 * q).
Proof.
  apply (division_rounds_towards_minus_infinity (-7) 2 empty_state).
  discriminate.
Defined.

(** X12.  [&&] and [||] do not short-circuit: the right operand is always
    evaluated, so a failure in it fails the whole expression whatever the
    left operand's value. *)
Theorem logical_operators_evaluate_both_operands
  (gp : Value -> string) (fl : Program) (n : nat) (e1 e2 : Expr)
  (lam : LambdaCtx) (st st1 st2 : State) (v1 : Value) (f : Failure) :
  evaluate_expression gp fl n e1 lam st = Ok v1 st1 ->
  evaluate_expression gp fl n e2 lam st1 = Fail f st2 ->
  evaluate_expression gp fl (S n) (EAnd e1 e2) lam st = Fail f st2
  /\ evaluate_expression gp fl (S n) (EOr e1 e2) lam st = Fail f st2.
Proof.
  intros H1 H2.
  split; cbn [evaluate_expression]; unfold bind; now rewrite H1, H2.
Qed.

Lemma no_short_circuit_witness :
  evaluate_expression spec_printable [] 3 (EAnd (EBool false) (EVar "u"))
                      LNone empty_state
  = Fail (Error NAME_ERROR) empty_state.
Proof.
  exact (proj1 (logical_operators_evaluate_both_operands spec_printable []
                  2 (EBool false) (EVar "u") LNone empty_state empty_state
                  empty_state (VBool false) (Error NAME_ERROR)
                  eq_refl eq_refl)).
Defined.

(** X13.  Arithmetic negation takes an Int only: it answers the opposite
    Int, and any other operand, a Bool included, is a TYPE_ERROR.  Logical
    negation takes a Bool, or an Int read as "not zero", and any other
    operand is a TYPE_ERROR. *)
Theorem negations_check_their_operand
  (gp : Value -> string) (fl : Program) (n : nat) (e : Expr)
  (lam : LambdaCtx) (st st1 : State) (v : Value) :
  evaluate_expression gp fl n e lam st = Ok v st1 ->
  (forall a, v = VInt a ->
     evaluate_expression gp fl (S n) (ENeg e) lam st = Ok (VInt (- a)) st1
     /\ evaluate_expression gp fl (S n) (ENot e) lam st
        = Ok (VBool (a =? 0)) st1)
  /\
  (forall b, v = VBool b ->
     evaluate_expression gp fl (S n) (ENeg e) lam st
     = Fail (Error TYPE_ERROR) st1
     /\ evaluate_expression gp fl (S n) (ENot e) lam st
        = Ok (VBool (negb b)) st1)
  /\
  (type v <> INT -> type v <> BOOL ->
   evaluate_expression gp fl (S n) (ENeg e) lam st
   = Fail (Error TYPE_ERROR) st1
   /\ evaluate_expression gp fl (S n) (ENot e) lam st
      = Fail (Error TYPE_ERROR) st1).
Proof.
  intro H. split; [|split].
  - intros a ->. split; cbn [evaluate_expression]; unfold bind; rewrite H.
    + unfold neg_op, ret. now replace (a * -1) with (- a) by lia.
    + unfold not_op, bool_of_int_value, get_bool_value, get_bool_from_int,
        ret.
      destruct (a =? 0); reflexivity.
  - intros b ->. split; cbn [evaluate_expression]; unfold bind; rewrite H;
      reflexivity.
  - intros Hi Hb.
    split; cbn [evaluate_expression]; unfold bind; rewrite H;
      destruct v; simpl in *; try reflexivity; congruence.
Qed.

Lemma negation_witness :
  evaluate_expression spec_printable [] 2 (ENeg (EBool true)) LNone empty_state
  = Fail (Error TYPE_ERROR) empty_state.
Proof.
  exact (proj1 (proj1 (proj2 (negations_check_their_operand spec_printable []
                  1 (EBool true) LNone empty_state empty_state (VBool true)
                  eq_refl)) true eq_refl)).
Defined.

(* ------------------------------------------------------------------ *)
(** ** Literals *)

(** X14.  A string literal whose text is [true], [false] or [nil] stays a
    String: it does not become the Bool or the Nil value. *)
Theorem keyword_text_stays_a_string
  (gp : Value -> string) (fl : Program) (n : nat) (val : string)
  (lam : LambdaCtx) (st : State) :
  val = "true" \/ val = "false" \/ val = "nil" ->
  evaluate_expression gp fl (S n) (EString val) lam st = Ok (VString val) st.
Proof.
  intros [-> | [-> | ->]]; reflexivity.
Qed.

Lemma keyword_text_witness :
  evaluate_expression spec_printable [] 1 (EString "nil") LNone empty_state
  = Ok (VString "nil") empty_state.
Proof.
  apply keyword_text_stays_a_string. right. right. reflexivity.
Defined.

(* ------------------------------------------------------------------ *)
(** ** Blocks, conditions and returns *)

Lemma run_block_app (rs : Stmt -> LambdaCtx -> M (option Value))
  (pre post : list Stmt) (lam : LambdaCtx) :
  forall st st1,
    run_block rs pre lam st = Ok None st1 ->
    run_block rs (pre ++ post)%list lam st = run_block rs post lam st1.
Proof.
  induction pre as [|s r IH]; intros st st1 H; cbn [run_block app] in *.
  - inversion H. reflexivity.
  - unfold bind in *.
    destruct (rs s lam st) as [[v|] st2|f st2];
      try (unfold ret in H; discriminate).
    now apply IH.
Qed.

Lemma py_pop_snoc {A : Type} (l : list A) (a : A) :
  py_pop (l ++ [a]) = Some l.
Proof.
  unfold py_pop. destruct (l ++ [a])%list eqn:E.
  - destruct l; discriminate.
  - rewrite <- E. now rewrite removelast_last.
Qed.

Lemma run_func_result (rs : Stmt -> LambdaCtx -> M (option Value))
  (body : list Stmt) (lam : LambdaCtx) (st st2 : State) (r : option Value)
  (scopes : list Frame) (f : Frame) (aliases : list AliasTable)
  (t : AliasTable) :
  variable_scope_list st2 = (scopes ++ [f])%list ->
  variable_alias_list st2 = (aliases ++ [t])%list ->
  run_block rs body lam st = Ok r st2 ->
  run_func rs body lam st
  = Ok (match r with Some v => v | None => NIL_VALUE end)
       (set_aliases aliases (set_scopes scopes st2)).
Proof.
  intros Hs Ha Hb. unfold run_func, bind. rewrite Hb.
  unfold pop_scope. rewrite Hs, py_pop_snoc.
  unfold pop_alias. cbn [variable_alias_list set_scopes].
  rewrite Ha, py_pop_snoc. reflexivity.
Qed.

(** X15.  A function body ends at the first statement that returns a
    value: the statements after it do not run and the value is the call's
    result.  A body that runs to its end without returning gives nil.  In
    both cases the last frame of the scope stack and the last table of the
    alias stack are then popped. *)
Theorem function_ends_at_its_first_return
  (gp : Value -> string) (fl : Program) (n : nat) (lam : LambdaCtx)
  (st2 : State) (scopes : list Frame) (f : Frame)
  (aliases : list AliasTable) (t : AliasTable) :
  variable_scope_list st2 = (scopes ++ [f])%list ->
  variable_alias_list st2 = (aliases ++ [t])%list ->
  (forall pre s post st st1 v,
     run_block (run_statement gp fl n) pre lam st = Ok None st1 ->
     run_statement gp fl n s lam st1 = Ok (Some v) st2 ->
     run_func (run_statement gp fl n) (pre ++ s :: post)%list lam st
     = Ok v (set_aliases aliases (set_scopes scopes st2)))
  /\
  (forall body st,
     run_block (run_statement gp fl n) body lam st = Ok None st2 ->
     run_func (run_statement gp fl n) body lam st
     = Ok NIL_VALUE (set_aliases aliases (set_scopes scopes st2))).
Proof.
  intros Hs Ha. split.
  - intros pre s post st st1 v Hpre Hret.
    apply (run_func_result _ _ _ _ _ (Some v) _ _ _ _ Hs Ha).
    rewrite (run_block_app _ _ _ _ _ _ Hpre). cbn [run_block].
    unfold bind. now rewrite Hret.
  - intros body st Hb.
    exact (run_func_result _ _ _ _ _ None _ _ _ _ Hs Ha Hb).
Qed.

Lemma early_return_witness :
  run_func (run_statement spec_printable [] 2) body_returning_early LNone
           empty_state
  = Ok (VInt 7) (mkState [] [] [] 0 [] []).
Proof.
  exact (proj1 (function_ends_at_its_first_return spec_printable [] 2 LNone
                  empty_state [] [] [] [] eq_refl eq_refl)
               [] (SReturn (Some (EInt 7))) [SReturn (Some (EInt 8))]
               empty_state empty_state (VInt 7) eq_refl eq_refl).
Defined.

Lemma run_if_eq (gp : Value -> string) (fl : Program) (n : nat)
  (cond : Expr) (ss : list Stmt) (es : option (list Stmt)) (lam : LambdaCtx) :
  run_statement gp fl (S n) (SIf cond ss es) lam =
  (condition <- evaluate_expression gp fl n cond LNone ;;
   b <- condition_bool condition ;;
   if b then push_scope ;;; run_if_statements (run_statement gp fl n) ss
   else match es with
        | Some es' =>
            push_scope ;;; run_if_statements (run_statement gp fl n) es'
        | None => ret None
        end).
Proof. reflexivity. Qed.

Lemma run_while_eq (gp : Value -> string) (fl : Program) (n : nat)
  (cond : Expr) (ss : list Stmt) (lam : LambdaCtx) :
  run_statement gp fl (S n) (SWhile cond ss) lam =
  (condition <- evaluate_expression gp fl n cond LNone ;;
   b <- condition_bool condition ;;
   while_loop gp fl n b cond ss).
Proof. reflexivity. Qed.

(** X16.  The condition of an [if] and of a [while] is evaluated outside
    any lambda snapshot.  A condition that is neither a Bool nor an Int is
    a TYPE_ERROR; on false or 0, an [if] without [else] and a [while] do
    nothing more. *)
Theorem conditions_must_be_bool_or_int
  (gp : Value -> string) (fl : Program) (n : nat) (cond : Expr)
  (ss : list Stmt) (es : option (list Stmt)) (lam : LambdaCtx)
  (st st1 : State) (v : Value) :
  evaluate_expression gp fl n cond LNone st = Ok v st1 ->
  (type v <> INT -> type v <> BOOL ->
   run_statement gp fl (S n) (SIf cond ss es) lam st
   = Fail (Error TYPE_ERROR) st1
   /\ run_statement gp fl (S n) (SWhile cond ss) lam st
      = Fail (Error TYPE_ERROR) st1)
  /\
  (v = VInt 0 \/ v = VBool false ->
   run_statement gp fl (S n) (SIf cond ss None) lam st = Ok None st1
   /\ run_statement gp fl (S n) (SWhile cond ss) lam st = Ok None st1).
Proof.
  intro H. rewrite !run_if_eq, !run_while_eq. unfold bind. rewrite H.
  destruct n as [|m]; [discriminate|]. split.
  - intros Hi Hb. destruct v; simpl in *; try (split; reflexivity);
      congruence.
  - intros [-> | ->]; split; reflexivity.
Qed.

Lemma condition_witness :
  run_statement spec_printable [] 2 (SIf (EString "a") [] None) LNone
                empty_state
  = Fail (Error TYPE_ERROR) empty_state.
Proof.
  exact (proj1 (proj1 (conditions_must_be_bool_or_int spec_printable [] 1
                  (EString "a") [] None LNone empty_state empty_state
                  (VString "a") eq_refl)
                  ltac:(discriminate) ltac:(discriminate))).
Defined.

(* ------------------------------------------------------------------ *)
(** ** Calls *)

Lemma match_name_arity_app (fname : string) (nargs : nat) (a b : Program) :
  forall acc,
    match_name_arity fname nargs (a ++ b)%list acc
    = match_name_arity fname nargs b (match_name_arity fname nargs a acc).
Proof.
  induction a as [|e r IH]; intro acc; cbn [match_name_arity app];
    [reflexivity|].
  destruct (_ && _); apply IH.
Qed.

Lemma match_name_arity_none (fname : string) (nargs : nat) (fl : Program) :
  (forall d, In d fl -> f_name d = fname -> length (f_args d) <> nargs) ->
  forall acc, match_name_arity fname nargs fl acc = acc.
Proof.
  induction fl as [|e r IH]; intros H acc; cbn [match_name_arity];
    [reflexivity|].
  destruct (String.eqb (f_name e) fname) eqn:En; cbn [andb].
  - apply String.eqb_eq in En.
    destruct (Nat.eqb_spec (length (f_args e)) nargs) as [Ha|Ha].
    + exfalso. exact (H e (or_introl eq_refl) En Ha).
    + apply IH. intros d Hd. apply H. now right.
  - apply IH. intros d Hd. apply H. now right.
Qed.

Lemma match_name_arity_last (fname : string) (nargs : nat)
  (pre post : Program) (d : FuncDef) (acc : option Callee) :
  f_name d = fname ->
  length (f_args d) = nargs ->
  (forall d', In d' post -> f_name d' = fname ->
              length (f_args d') <> nargs) ->
  match_name_arity fname nargs (pre ++ d :: post)%list acc
  = Some (f_args d, f_statements d).
Proof.
  intros Hn Ha Hpost. rewrite match_name_arity_app. cbn [match_name_arity].
  rewrite Hn, Ha, String.eqb_refl, Nat.eqb_refl. cbn [andb].
  now rewrite (match_name_arity_none _ _ _ Hpost).
Qed.

Lemma do_func_call_defined (gp : Value -> string) (fl : Program)
  (ev : Expr -> LambdaCtx -> M Value)
  (exec : Stmt -> LambdaCtx -> M (option Value)) (depth : nat)
  (fname : string) (args : list Expr) (lam : LambdaCtx) (st : State)
  (params : list Param) (body : list Stmt) :
  fname <> "print" ->
  match_name_arity fname (length args) fl None = Some (params, body) ->
  do_func_call gp fl ev exec depth (mkCall None fname args) lam st
  = (push_scope ;;;
     st' <- get_state ;;
     bind_args ev depth (length (variable_scope_list st') - 1) args params ;;;
     run_func exec body LNone) st.
Proof.
  intros Hp Hm. unfold do_func_call. cbn [c_name c_objref c_args].
  apply String.eqb_neq in Hp. rewrite Hp, Hm. unfold bind, ret.
  destruct (push_scope st) as [u st1|f st1]; [|reflexivity].
  destruct (get_state st1) as [s st2|f st2]; [|reflexivity].
  destruct (bind_args _ _ _ _ _ _); reflexivity.
Qed.

(** X17.  Among the definitions with the call's name and number of
    arguments, the one written last is the one a call runs, as an
    expression and as a statement: the call pushes a frame and an alias
    table, binds the arguments to that definition's parameters and runs
    that definition's body. *)
Theorem last_definition_of_the_name_and_arity_wins
  (gp : Value -> string) (n : nat) (fname : string) (args : list Expr)
  (pre post : Program) (d : FuncDef) (lam : LambdaCtx) (st : State) :
  fname <> "print" -> fname <> "inputi" -> fname <> "inputs" ->
  f_name d = fname ->
  length (f_args d) = length args ->
  (forall d', In d' post -> f_name d' = fname ->
              length (f_args d') <> length args) ->
  evaluate_expression gp (pre ++ d :: post)%list (S n) (EFcall fname args)
                      lam st
  = (push_scope ;;;
     st' <- get_state ;;
     bind_args (evaluate_expression gp (pre ++ d :: post)%list n) n
               (length (variable_scope_list st') - 1) args (f_args d) ;;;
     run_func (run_statement gp (pre ++ d :: post)%list n)
              (f_statements d) LNone) st
  /\
  run_statement gp (pre ++ d :: post)%list (S n) (SFcall fname args) lam st
  = ((push_scope ;;;
      st' <- get_state ;;
      bind_args (evaluate_expression gp (pre ++ d :: post)%list n) n
                (length (variable_scope_list st') - 1) args (f_args d) ;;;
      run_func (run_statement gp (pre ++ d :: post)%list n)
               (f_statements d) LNone) ;;;
     ret None) st.
Proof.
  intros Hp Hi Hs Hn Ha Hpost.
  pose proof (match_name_arity_last fname (length args) pre post d None
                Hn Ha Hpost) as Hm.
  apply String.eqb_neq in Hi. apply String.eqb_neq in Hs. split.
  - rewrite (evaluate_fcall_eq gp _ n fname args lam Hi Hs).
    exact (do_func_call_defined gp _ _ _ n fname args LNone st _ _ Hp Hm).
  - rewrite run_fcall_eq. unfold bind at 1.
    rewrite (do_func_call_defined gp _ _ _ n fname args lam st _ _ Hp Hm).
    reflexivity.
Qed.

Lemma last_definition_witness :
  evaluate_expression spec_printable prog_f_twice 3 (EFcall "f" [EInt 0])
                      LNone empty_state
  = Ok (VInt 2) empty_state.
Proof.
  refine (eq_trans
            (proj1 (last_definition_of_the_name_and_arity_wins spec_printable
                      2 "f" [EInt 0]
                      [mkFunc "f" [mkParam ByValue "a"]
                              [SReturn (Some (EInt 1))]] []
                      (mkFunc "f" [mkParam ByValue "b"]
                              [SReturn (Some (EInt 2))])
                      LNone empty_state
                      ltac:(discriminate) ltac:(discriminate)
                      ltac:(discriminate) eq_refl eq_refl _)) _).
  - intros d' [].
  - vm_compute. reflexivity.
Defined.

Lemma do_func_call_variable (gp : Value -> string) (fl : Program)
  (ev : Expr -> LambdaCtx -> M Value)
  (exec : Stmt -> LambdaCtx -> M (option Value)) (depth : nat)
  (fname : string) (args : list Expr) (lam : LambdaCtx) (st : State) :
  fname <> "print" ->
  (forall d, In d fl -> f_name d = fname ->
             length (f_args d) <> length args) ->
  do_func_call gp fl ev exec depth (mkCall None fname args) lam st
  = match resolve_variable fl fname (length args) lam st with
    | Ok (Some (args_name_list, statements), l) st1 =>
        (push_scope ;;;
         st' <- get_state ;;
         bind_args ev depth (length (variable_scope_list st') - 1)
                   args args_name_list ;;;
         run_func exec statements l) st1
    | Ok (None, _) st1 => Fail (Error NAME_ERROR) st1
    | Fail f st1 => Fail f st1
    end.
Proof.
  intros Hp Hno. unfold do_func_call. cbn [c_name c_objref c_args].
  apply String.eqb_neq in Hp. rewrite Hp.
  rewrite (match_name_arity_none _ _ _ Hno). unfold bind at 1. unfold ret at 1.
  unfold bind at 1.
  destruct (resolve_variable fl fname (length args) lam st)
    as [[[[ps body]|] l] st1|f st1]; reflexivity.
Qed.

(** X18.  A call of a name that no definition has with that number of
    arguments, and that no frame binds, is a NAME_ERROR; this includes the
    call of a defined function with the wrong number of arguments. *)
Theorem call_of_an_unknown_name_is_a_name_error
  (gp : Value -> string) (fl : Program) (n : nat) (fname : string)
  (args : list Expr) (lam : LambdaCtx) (st : State) :
  fname <> "print" -> fname <> "inputi" -> fname <> "inputs" ->
  (forall d, In d fl -> f_name d = fname ->
             length (f_args d) <> length args) ->
  closest_scope (Some fname) (variable_scope_list st)
                (length (variable_scope_list st)) = None ->
  evaluate_expression gp fl (S n) (EFcall fname args) lam st
  = Fail (Error NAME_ERROR) st
  /\ run_statement gp fl (S n) (SFcall fname args) lam st
     = Fail (Error NAME_ERROR) st.
Proof.
  intros Hp Hi Hs Hno Hc.
  apply String.eqb_neq in Hi. apply String.eqb_neq in Hs.
  split.
  - rewrite (evaluate_fcall_eq gp fl n fname args lam Hi Hs).
    rewrite (do_func_call_variable _ _ _ _ _ _ _ _ _ Hp Hno).
    unfold resolve_variable, bind, validate_var_name. now rewrite Hc.
  - rewrite run_fcall_eq. unfold bind at 1.
    rewrite (do_func_call_variable _ _ _ _ _ _ _ _ _ Hp Hno).
    unfold resolve_variable, bind, validate_var_name. now rewrite Hc.
Qed.

Lemma wrong_arity_witness :
  run_statement spec_printable prog_wrong_arity 1
                (SFcall "f" [EInt 1; EInt 2]) LNone empty_state
  = Fail (Error NAME_ERROR) empty_state.
Proof.
  refine (proj2 (call_of_an_unknown_name_is_a_name_error spec_printable
                   prog_wrong_arity 0 "f" [EInt 1; EInt 2] LNone empty_state
                   ltac:(discriminate) ltac:(discriminate)
                   ltac:(discriminate) _ eq_refl)).
  intros d [<-|[<-|[]]]; simpl; intros; discriminate.
Defined.

(** X19.  A call of a name that no definition has with that number of
    arguments, and that the stack binds.  A value that is neither a
    function nor a lambda is a TYPE_ERROR, for a call in an expression and
    for a call statement alike.  A lambda that takes another number of
    arguments is a TYPE_ERROR for a call in an expression, and for a call
    statement run outside any lambda body or in the body of a lambda whose
    snapshot does not hold the name (the lambda being run from its stored
    structure, as every call but the one of lines 797-801 runs it). *)
Theorem call_of_a_variable_checks_its_value
  (gp : Value -> string) (fl : Program) (n : nat) (fname : string)
  (args : list Expr) (lam : LambdaCtx) (st : State) (i : nat) (v : Value) :
  fname <> "print" -> fname <> "inputi" -> fname <> "inputs" ->
  (forall d, In d fl -> f_name d = fname ->
             length (f_args d) <> length args) ->
  closest_scope (Some fname) (variable_scope_list st)
                (length (variable_scope_list st)) = Some i ->
  lookup (variable_scope_list st) i (Some fname) = Some v ->
  (type v <> FUNC -> type v <> LAMBDA ->
   evaluate_expression gp fl (S n) (EFcall fname args) lam st
   = Fail (Error TYPE_ERROR) st
   /\ run_statement gp fl (S n) (SFcall fname args) lam st
      = Fail (Error TYPE_ERROR) st)
  /\
  (forall l ps body,
     v = VLambda l ->
     lambda_node (store st) l = Some (ps, body) ->
     length ps <> length args ->
     evaluate_expression gp fl (S n) (EFcall fname args) lam st
     = Fail (Error TYPE_ERROR) st
     /\ (lambda_ctx_ok lam st ->
         snapshot_holds lam st fname = false ->
         run_statement gp fl (S n) (SFcall fname args) lam st
         = Fail (Error TYPE_ERROR) st)).
Proof.
  intros Hp Hi Hs Hno Hc Hv.
  apply String.eqb_neq in Hi. apply String.eqb_neq in Hs.
  assert (Hfails : forall (ev : Expr -> LambdaCtx -> M Value)
                          (exec : Stmt -> LambdaCtx -> M (option Value))
                          (depth : nat) (l : LambdaCtx) (e : Failure),
    resolve_variable fl fname (length args) l st = Fail e st ->
    do_func_call gp fl ev exec depth (mkCall None fname args) l st
    = Fail e st).
  { intros ev exec depth l e H.
    rewrite (do_func_call_variable _ _ _ _ _ _ _ _ _ Hp Hno). now rewrite H. }
  assert (Hexpr : forall e,
    resolve_variable fl fname (length args) LNone st = Fail e st ->
    evaluate_expression gp fl (S n) (EFcall fname args) lam st = Fail e st).
  { intros e H. rewrite (evaluate_fcall_eq gp fl n fname args lam Hi Hs).
    now apply Hfails. }
  assert (Hstmt : forall e,
    resolve_variable fl fname (length args) lam st = Fail e st ->
    run_statement gp fl (S n) (SFcall fname args) lam st = Fail e st).
  { intros e H. rewrite run_fcall_eq. unfold bind at 1.
    now rewrite (Hfails _ _ _ _ _ H). }
  assert (Hread : forall k : Value -> M (option Callee * LambdaCtx),
    (scope_index <- validate_var_name fname false ;;
     match scope_index with
     | None => error NAME_ERROR
     | Some j => var_value <- read_scope j (Some fname) ;; k var_value
     end) st = k v st).
  { intro k. unfold bind. rewrite (validate_found _ _ _ Hc).
    unfold read_scope. now rewrite (scope_get_nat _ _ _ _ Hv). }
  split.
  - intros Hf Hl.
    assert (Hres : forall l,
      resolve_variable fl fname (length args) l st
      = Fail (Error TYPE_ERROR) st).
    { intro l. unfold resolve_variable. rewrite Hread.
      destruct v; simpl in *; try reflexivity; congruence. }
    split; [apply Hexpr|apply Hstmt]; apply Hres.
  - intros l ps body -> Hnode Hlen. apply Nat.eqb_neq in Hlen. split.
    + apply Hexpr. unfold resolve_variable. rewrite Hread.
      unfold bind, captured_of, get_state. rewrite Hnode.
      cbn [or_raise ret fst]. now rewrite Hlen.
    + intros Hok Hsnap. apply Hstmt. unfold resolve_variable.
      rewrite Hread. destruct lam as [|a|w].
      * unfold bind, captured_of, get_state. rewrite Hnode.
        cbn [or_raise ret fst]. now rewrite Hlen.
      * destruct Hok as [c Hcap]. cbn [snapshot_holds] in Hsnap.
        rewrite Hcap in Hsnap. apply dict_mem_false in Hsnap.
        unfold bind, captured_of, get_state. rewrite Hcap, Hsnap, Hnode.
        cbn [or_raise ret fst]. now rewrite Hlen.
      * contradiction.
Qed.

Lemma call_of_an_int_witness :
  run_statement spec_printable [] 1 (SFcall "x" []) LNone state_x_is_5
  = Fail (Error TYPE_ERROR) state_x_is_5.
Proof.
  refine (proj2 (proj1 (call_of_a_variable_checks_its_value spec_printable []
                   0 "x" [] LNone state_x_is_5 0%nat (VInt 5)
                   ltac:(discriminate) ltac:(discriminate)
                   ltac:(discriminate) _ eq_refl eq_refl)
                ltac:(discriminate) ltac:(discriminate))).
  intros d [].
Defined.

Lemma evaluate_mcall_eq (gp : Value -> string) (fl : Program) (n : nat)
  (o f : string) (args : list Expr) (lam : LambdaCtx) :
  String.eqb f "inputi" = false -> String.eqb f "inputs" = false ->
  evaluate_expression gp fl (S n) (EMcall o f args) lam =
  do_func_call gp fl (evaluate_expression gp fl n) (run_statement gp fl n) n
               (mkCall (Some o) f args) LNone.
Proof. intros H1 H2. simpl. now rewrite H1, H2. Qed.

Lemma do_func_call_method_fails (gp : Value -> string) (fl : Program)
  (ev : Expr -> LambdaCtx -> M Value)
  (exec : Stmt -> LambdaCtx -> M (option Value)) (depth : nat)
  (o fname : string) (args : list Expr) (lam : LambdaCtx) (st st1 : State)
  (e : Failure) :
  fname <> "print" ->
  resolve_method fl depth o fname (length args)
    (match_name_arity fname (length args) fl None) st = Fail e st1 ->
  do_func_call gp fl ev exec depth (mkCall (Some o) fname args) lam st
  = Fail e st1.
Proof.
  intros Hp H. unfold do_func_call. cbn [c_name c_objref c_args].
  apply String.eqb_neq in Hp. rewrite Hp.
  unfold bind at 1. unfold bind at 1. now rewrite H.
Qed.

Lemma resolve_method_receiver (fl : Program) (depth : nat)
  (o m : string) (nargs : nat) (fe : option Callee) (st : State) (i : nat)
  (v : Value) :
  closest_scope (Some o) (variable_scope_list st)
                (length (variable_scope_list st)) = Some i ->
  lookup (variable_scope_list st) i (Some o) = Some v ->
  resolve_method fl depth o m nargs fe st
  = match v with
    | VObj a =>
        (st0 <- get_state ;;
         obj_fields_dict <- or_raise KeyError (obj_fields (store st0) a) ;;
         var_value <- find_method depth m obj_fields_dict ;;
         match var_value with
         | VFunc _ updated_statement_node =>
             match match_func_value (f_name updated_statement_node) nargs
                                    fl fe with
             | Some fe' => ret (v, fe', LNone)
             | None => error TYPE_ERROR
             end
         | VLambda l =>
             st' <- get_state ;;
             node <- or_raise KeyError (lambda_node (store st') l) ;;
             if negb (Nat.eqb (length (fst node)) nargs)
             then error NAME_ERROR
             else ret (v, Some node, LCell l)
         | _ => error TYPE_ERROR
         end) st
    | _ => Fail (Error TYPE_ERROR) st
    end.
Proof.
  intros Hc Hv. unfold resolve_method. unfold bind at 1.
  rewrite (validate_found _ _ _ Hc). unfold bind at 1. unfold read_scope.
  rewrite (scope_get_nat _ _ _ _ Hv). destruct v; reflexivity.
Qed.

(** X20.  A method call [o.m(...)] on a bound name [o]: a receiver that is
    no object is a TYPE_ERROR; a method found neither on the object nor,
    the object having no prototype, elsewhere, is a NAME_ERROR; a field [m]
    that holds neither a function nor a lambda is a TYPE_ERROR; and a
    lambda method that takes another number of arguments is a NAME_ERROR
    (a TYPE_ERROR when the same lambda is called through a variable). *)
Theorem method_call_checks_receiver_and_method
  (gp : Value -> string) (fl : Program) (n : nat) (o fname : string)
  (args : list Expr) (lam : LambdaCtx) (st : State) (i : nat) (v : Value) :
  fname <> "print" -> fname <> "inputi" -> fname <> "inputs" ->
  closest_scope (Some o) (variable_scope_list st)
                (length (variable_scope_list st)) = Some i ->
  lookup (variable_scope_list st) i (Some o) = Some v ->
  (type v <> OBJ ->
   evaluate_expression gp fl (S (S n)) (EMcall o fname args) lam st
   = Fail (Error TYPE_ERROR) st)
  /\
  (forall a d,
     v = VObj a -> obj_fields (store st) a = Some d ->
     dict_get fname d = None -> dict_get "proto" d = None ->
     evaluate_expression gp fl (S (S n)) (EMcall o fname args) lam st
     = Fail (Error NAME_ERROR) st)
  /\
  (forall a d w,
     v = VObj a -> obj_fields (store st) a = Some d ->
     dict_get fname d = Some w -> type w <> FUNC -> type w <> LAMBDA ->
     evaluate_expression gp fl (S (S n)) (EMcall o fname args) lam st
     = Fail (Error TYPE_ERROR) st)
  /\
  (forall a d l ps body,
     v = VObj a -> obj_fields (store st) a = Some d ->
     dict_get fname d = Some (VLambda l) ->
     lambda_node (store st) l = Some (ps, body) ->
     length ps <> length args ->
     evaluate_expression gp fl (S (S n)) (EMcall o fname args) lam st
     = Fail (Error NAME_ERROR) st).
Proof.
  intros Hp Hi Hs Hc Hv.
  apply String.eqb_neq in Hi. apply String.eqb_neq in Hs.
  rewrite (evaluate_mcall_eq gp fl (S n) o fname args lam Hi Hs).
  split; [|split; [|split]].
  - intro Hobj. apply do_func_call_method_fails; [exact Hp|].
    rewrite (resolve_method_receiver _ _ _ _ _ _ _ _ _ Hc Hv).
    destruct v; simpl in *; try reflexivity; congruence.
  - intros a d -> Hd Hm Hproto. apply do_func_call_method_fails; [exact Hp|].
    rewrite (resolve_method_receiver _ _ _ _ _ _ _ _ _ Hc Hv).
    unfold bind, get_state. rewrite Hd. cbn [or_raise ret].
    unfold find_method. rewrite Hm. cbn [proto_lookup]. now rewrite Hproto.
  - intros a d w -> Hd Hm Hf Hl. apply do_func_call_method_fails; [exact Hp|].
    rewrite (resolve_method_receiver _ _ _ _ _ _ _ _ _ Hc Hv).
    unfold bind, get_state. rewrite Hd. cbn [or_raise ret].
    unfold find_method. rewrite Hm.
    destruct w; simpl in *; try reflexivity; congruence.
  - intros a d l ps body -> Hd Hm Hnode Hlen.
    apply do_func_call_method_fails; [exact Hp|].
    rewrite (resolve_method_receiver _ _ _ _ _ _ _ _ _ Hc Hv).
    unfold bind, get_state. rewrite Hd. cbn [or_raise ret].
    unfold find_method. rewrite Hm. rewrite Hnode. cbn [or_raise ret fst].
    apply Nat.eqb_neq in Hlen. now rewrite Hlen.
Qed.

Lemma method_arity_witness :
  evaluate_expression spec_printable [] 2 (EMcall "o" "m" []) LNone
                      state_o_has_a_lambda_method
  = Fail (Error NAME_ERROR) state_o_has_a_lambda_method.
Proof.
  exact (proj2 (proj2 (proj2
           (method_call_checks_receiver_and_method spec_printable [] 0 "o" "m"
              [] LNone state_o_has_a_lambda_method 0%nat (VObj 0)
              ltac:(discriminate) ltac:(discriminate) ltac:(discriminate)
              eq_refl eq_refl)))
           0%nat [("m", VLambda 1)] 1%nat [mkParam ByValue "a"] []
           eq_refl eq_refl eq_refl eq_refl ltac:(discriminate)).
Defined.

(* ------------------------------------------------------------------ *)
(** ** Lambda literals *)

Lemma capture_entries_skips_formals (formals : list name) (entries : Frame) :
  forall c st c' st',
    capture_entries formals entries c st = Ok c' st' ->
    forall k, name_in k formals = true -> dict_get k c' = dict_get k c.
Proof.
  induction entries as [|[key value] r IH]; intros c st c' st' H k Hk;
    cbn [capture_entries] in H.
  - inversion H. reflexivity.
  - destruct (name_in key formals) eqn:Ekey; [exact (IH _ _ _ _ H k Hk)|].
    assert (Hne : k <> key) by (intros ->; congruence).
    destruct (type value); try exact (IH _ _ _ _ H k Hk);
      unfold bind in H;
      destruct (deepcopy 0 value st) as [copy st1|]; try discriminate;
      rewrite (IH _ _ _ _ H k Hk); apply dict_get_set_other; exact Hne.
Qed.

Lemma capture_frames_skips_formals (formals : list name)
  (scopes : list Frame) (n : nat) :
  forall c st c' st',
    capture_frames formals scopes n c st = Ok c' st' ->
    forall k, name_in k formals = true -> dict_get k c' = dict_get k c.
Proof.
  induction n as [|i IH]; intros c st c' st' H k Hk;
    cbn [capture_frames] in H.
  - inversion H. reflexivity.
  - destruct (nth_error scopes i) as [f|]; [|exact (IH _ _ _ _ H k Hk)].
    unfold bind in H.
    destruct (capture_entries formals f c st) as [c1 st1|] eqn:E1;
      [|discriminate].
    rewrite (IH _ _ _ _ H k Hk).
    exact (capture_entries_skips_formals _ _ _ _ _ _ E1 k Hk).
Qed.

(** X21.  A lambda literal never fails.  It answers a lambda at a new
    address, adds there a cell with its parameters, its body and its
    snapshot, and changes nothing else; the snapshot binds none of the
    lambda's formal parameters. *)
Theorem lambda_literal_allocates_its_closure
  (gp : Value -> string) (fl : Program) (n : nat) (args : list Param)
  (body : list Stmt) (lam : LambdaCtx) (st : State) :
  exists c st',
    evaluate_expression gp fl (S n) (ELambda args body) lam st
    = Ok (VLambda (length (store st))) st'
    /\ store st' = (store st ++ [LambdaCell args body c])%list
    /\ variable_scope_list st' = variable_scope_list st
    /\ variable_alias_list st' = variable_alias_list st
    /\ output_log st' = output_log st
    /\ inp st' = inp st
    /\ (forall p, In p args -> dict_get (Some (p_name p)) c = None).
Proof.
  rewrite evaluate_lambda_eq. unfold evaluate_lambda, bind.
  destruct (capture_holds_no_reference_value args st)
    as (c & st1 & Hc & _ & (H1 & H2 & H3 & H4 & H5)).
  rewrite Hc. unfold alloc, ret. rewrite H3.
  exists c, (set_store (store st ++ [LambdaCell args body c]) st1).
  split; [reflexivity|]. cbn [store set_store variable_scope_list
                              variable_alias_list output_log inp].
  repeat (split; [first [reflexivity|assumption]|]).
  intros p Hp. unfold capture in Hc.
  rewrite (capture_frames_skips_formals _ _ _ _ _ _ _ Hc (Some (p_name p))).
  - reflexivity.
  - apply name_in_In. apply (in_map (fun a => Some (p_name a))). exact Hp.
Qed.

(* ------------------------------------------------------------------ *)
(** ** The whole run *)

(** X22.  A run that completes leaves no frame on the scope stack: every
    frame pushed for a call or a block has been popped, and [main]'s own
    frame with them. *)
Theorem completed_run_leaves_no_frame
  (gp : Value -> string) (fuel : nat) (program : Program)
  (input : list string) (v : Value) (st : State) :
  run gp fuel program input = Ok v st ->
  variable_scope_list st = [].
Proof.
  unfold run. intro H. unfold bind at 1 in H.
  destruct (get_main_node program (initial_state program input))
    as [m st0|]; [|discriminate].
  unfold bind at 1 in H. unfold modify in H.
  destruct (keeps_interpreter gp program fuel) as (_ & Hs & _).
  destruct (keeps_run_func _ Hs _ _ _ _ _ H) as [Hlen _].
  cbn [variable_scope_list set_aliases set_scopes length] in Hlen.
  destruct (variable_scope_list st); [reflexivity|].
  cbn [length] in Hlen. lia.
Qed.

Lemma completed_run_witness :
  variable_scope_list (mkState [] [] [] 1 ["1"] []) = [].
Proof.
  apply (completed_run_leaves_no_frame spec_printable 5 prog_printing_main
           [] VNil (mkState [] [] [] 1 ["1"] [])).
  vm_compute. reflexivity.
Defined.

(* ------------------------------------------------------------------ *)
(** ** What a run never takes back *)

Lemma grows_refl (st : State) : grows st st.
Proof.
  split; [exists []; now rewrite app_nil_r|].
  split; [now exists []|apply le_n].
Qed.

Lemma grows_trans (a b c : State) : grows a b -> grows b c -> grows a c.
Proof.
  intros ([l1 H1] & [k1 H2] & H3) ([l2 H4] & [k2 H5] & H6).
  split; [|split].
  - exists (l1 ++ l2)%list. rewrite H4, H1. now rewrite app_assoc.
  - exists (k1 ++ k2)%list. rewrite H2, H5. now rewrite app_assoc.
  - exact (Nat.le_trans _ _ _ H3 H6).
Qed.

Lemma grows_quiet (st st' : State) :
  output_log st' = output_log st -> inp st' = inp st ->
  (length (store st) <= length (store st'))%nat ->
  grows st st'.
Proof.
  intros H1 H2 H3. split; [exists []; rewrite H1; now rewrite app_nil_r|].
  split; [exists []; now rewrite H2|exact H3].
Qed.

Create HintDb mono.

Lemma monotone_ret {A : Type} (a : A) : monotone (ret a).
Proof. intro st. apply grows_refl. Qed.

Lemma monotone_raise {A : Type} (f : Failure) : monotone (@raise A f).
Proof. intro st. apply grows_refl. Qed.

Lemma monotone_error {A : Type} (e : ErrorType) : monotone (@error A e).
Proof. apply monotone_raise. Qed.

Lemma monotone_host {A : Type} (h : HostException) : monotone (@host A h).
Proof. apply monotone_raise. Qed.

Lemma monotone_bind {A B : Type} (m : M A) (k : A -> M B) :
  monotone m -> (forall x, monotone (k x)) -> monotone (bind m k).
Proof.
  intros Hm Hk st. unfold bind. specialize (Hm st).
  destruct (m st) as [x st1|f st1]; cbn [outcome_state] in *.
  - eapply grows_trans; [exact Hm|apply Hk].
  - exact Hm.
Qed.

(** an operation written as a case analysis on parts of the state, every
    case of which leaves output, input and store as they are *)
Ltac grows_leaf :=
  let st := fresh "st" in
  intro st; cbv beta zeta;
  repeat match goal with
         | |- context [match ?x with _ => _ end] => destruct x
         end;
  cbn [outcome_state];
  first [ apply grows_refl
        | apply grows_quiet; [reflexivity|reflexivity|apply le_n] ].

Lemma monotone_or_raise {A : Type} (h : HostException) (o : option A) :
  monotone (or_raise h o).
Proof. destruct o; [apply monotone_ret|apply monotone_host]. Qed.

Lemma monotone_get_state : monotone get_state.
Proof. intro st. apply grows_refl. Qed.

Lemma set_field_length (a : nat) (f : string) (v : Value) (h : list Cell) :
  length (set_field a f v h) = length h.
Proof.
  unfold set_field. destruct (nth_error h a) as [[d|ps body c]|];
    try reflexivity. apply set_nth_length.
Qed.

Lemma set_captured_length (a : nat) (k : name) (v : Value) (h : list Cell) :
  length (set_captured a k v h) = length h.
Proof.
  unfold set_captured. destruct (nth_error h a) as [[d|ps body c]|];
    try reflexivity. apply set_nth_length.
Qed.

Lemma monotone_set_field (a : nat) (f : string) (v : Value) :
  monotone (modify (fun st => set_store (set_field a f v (store st)) st)).
Proof.
  intro st. apply grows_quiet; try reflexivity.
  cbn [outcome_state modify store set_store]. rewrite set_field_length.
  apply le_n.
Qed.

Lemma monotone_set_captured (a : nat) (k : name) (v : Value) :
  monotone (modify (fun st => set_store (set_captured a k v (store st)) st)).
Proof.
  intro st. apply grows_quiet; try reflexivity.
  cbn [outcome_state modify store set_store]. rewrite set_captured_length.
  apply le_n.
Qed.

Lemma monotone_alloc (c : Cell) : monotone (alloc c).
Proof.
  intro st. apply grows_quiet; try reflexivity.
  cbn [outcome_state alloc store set_store]. rewrite length_app.
  apply Nat.le_add_r.
Qed.

Lemma copy_entries_store {K : Type}
  (cp : Value -> CopyState -> option (Value * CopyState)) :
  (forall v cs v' cs', cp v cs = Some (v', cs') ->
     (length (c_store cs) <= length (c_store cs'))%nat) ->
  forall (d : list (K * Value)) cs d' cs',
    copy_entries cp d cs = Some (d', cs') ->
    (length (c_store cs) <= length (c_store cs'))%nat.
Proof.
  intro Hcp. induction d as [|[k v] r IH]; intros cs d' cs' H;
    cbn [copy_entries] in H.
  - inversion H. apply le_n.
  - destruct (cp v cs) as [[v1 cs1]|] eqn:E1; [|discriminate].
    destruct (copy_entries cp r cs1) as [[r' cs2]|] eqn:E2; [|discriminate].
    inversion H; subst. apply Hcp in E1. apply IH in E2.
    exact (Nat.le_trans _ _ _ E1 E2).
Qed.

Lemma deepcopy_value_store (fuel : nat) :
  forall v cs v' cs',
    deepcopy_value fuel v cs = Some (v', cs') ->
    (length (c_store cs) <= length (c_store cs'))%nat.
Proof.
  induction fuel as [|n IH]; intros v cs v' cs' H; destruct v;
    cbn [deepcopy_value] in H;
    try (inversion H; subst; apply le_n);
    try (destruct (memo_find _ _); inversion H; subst; apply le_n).
  - destruct (memo_find addr (memo_cells cs));
      [inversion H; subst; apply le_n|].
    destruct (obj_fields (c_store cs) addr) as [f|]; [|discriminate].
    destruct (copy_entries _ f _) as [[f' cs2]|] eqn:E; [|discriminate].
    inversion H; subst. cbn [c_store]. rewrite set_nth_length.
    apply (copy_entries_store _ IH) in E. cbn [c_store] in E.
    rewrite length_app in E. cbn [length] in E. lia.
  - destruct (memo_find addr (memo_cells cs));
      [inversion H; subst; apply le_n|].
    destruct (nth_error (c_store cs) addr) as [[d|ps body c]|];
      try discriminate.
    destruct (copy_entries _ c _) as [[c' cs2]|] eqn:E; [|discriminate].
    inversion H; subst. cbn [c_store]. rewrite set_nth_length.
    apply (copy_entries_store _ IH) in E. cbn [c_store] in E.
    rewrite length_app in E. cbn [length] in E. lia.
Qed.

Lemma monotone_deepcopy (fuel : nat) (v : Value) : monotone (deepcopy fuel v).
Proof.
  intro st. unfold deepcopy.
  destruct (deepcopy_value fuel v _) as [[v' cs]|] eqn:E;
    cbn [outcome_state]; [|apply grows_refl].
  apply grows_quiet; try reflexivity.
  exact (deepcopy_value_store _ _ _ _ _ E).
Qed.

Lemma monotone_output (line : string) : monotone (output line).
Proof.
  intro st. split; [now exists [line]|].
  split; [now exists []|apply le_n].
Qed.

Lemma monotone_get_input : monotone get_input.
Proof.
  intro st. unfold get_input. destruct (inp st) as [|t r] eqn:E;
    cbn [outcome_state]; [apply grows_refl|].
  split; [exists []; now rewrite app_nil_r|].
  split; [exists [t]; exact E|apply le_n].
Qed.

Lemma monotone_validate_var_name (x : string) (gentle : bool) :
  monotone (validate_var_name x gentle).
Proof. unfold validate_var_name. grows_leaf. Qed.

Lemma monotone_read_scope (i : nat) (k : name) : monotone (read_scope i k).
Proof. unfold read_scope. grows_leaf. Qed.

Lemma monotone_captured_of (lam : LambdaCtx) : monotone (captured_of lam).
Proof. unfold captured_of. grows_leaf. Qed.

Lemma monotone_condition_bool (v : Value) : monotone (condition_bool v).
Proof. destruct v; first [apply monotone_ret|apply monotone_error]. Qed.

Lemma monotone_push_scope : monotone push_scope.
Proof. unfold push_scope, modify. grows_leaf. Qed.

Lemma monotone_pop_scope : monotone pop_scope.
Proof. unfold pop_scope. grows_leaf. Qed.

Lemma monotone_pop_alias : monotone pop_alias.
Proof. unfold pop_alias. grows_leaf. Qed.

Lemma monotone_bind_in_scope (i : nat) (k : name) (v : Value) :
  monotone (bind_in_scope i k v).
Proof. unfold bind_in_scope. grows_leaf. Qed.

Lemma monotone_bind_alias (i : nat) (k r : name) :
  monotone (bind_alias i k r).
Proof. unfold bind_alias. grows_leaf. Qed.

Lemma monotone_assign_var (x : string) (v : Value) :
  monotone (assign_var x v).
Proof. unfold assign_var. grows_leaf. Qed.

Lemma monotone_read_var (x : string) : monotone (read_var x).
Proof.
  unfold read_var. apply monotone_bind; [apply monotone_validate_var_name|].
  intro oi. grows_leaf.
Qed.

Lemma monotone_read_field (fuel : nat) (x : string) :
  monotone (read_field fuel x).
Proof.
  unfold read_field. destruct (split_names x) as [o f].
  apply monotone_bind; [apply monotone_validate_var_name|].
  intro oi. grows_leaf.
Qed.

Lemma monotone_evaluate_var (fl : Program) (fuel : nat) (x : string)
  (lam : LambdaCtx) : monotone (evaluate_var fl fuel x lam).
Proof.
  unfold evaluate_var. apply monotone_bind; [apply monotone_captured_of|].
  intros cap st.
  destruct (match cap with
            | Some (_, c) => search_captured (store st) x c
            | None => None
            end); [apply grows_refl|].
  destruct (functions_named x fl 0) as [|[pos d] [|q r]];
    try apply grows_refl.
  destruct (has_dot x); [apply monotone_read_field|apply monotone_read_var].
Qed.

Lemma monotone_evaluate_lambda (args : list Param) (body : list Stmt) :
  monotone (evaluate_lambda args body).
Proof.
  unfold evaluate_lambda. apply monotone_bind.
  - intro st.
    destruct (capture_holds_no_reference_value args st)
      as (c & st1 & Hc & _ & (_ & _ & H3 & H4 & H5)).
    rewrite Hc. cbn [outcome_state].
    apply grows_quiet; [exact H4|exact H5|rewrite H3; apply le_n].
  - intro c. apply monotone_bind; [apply monotone_alloc|].
    intro a. apply monotone_ret.
Qed.

Lemma monotone_binary_op (op : BinOp) (v1 v2 : Value) :
  monotone (binary_op op v1 v2).
Proof.
  intro st. unfold binary_op.
  destruct op, v1, v2; cbn; try apply grows_refl;
    match goal with
    | |- context [Z.eqb ?b 0] => destruct (Z.eqb b 0); apply grows_refl
    end.
Qed.

Lemma monotone_neg_op (v : Value) : monotone (neg_op v).
Proof. destruct v; first [apply monotone_ret|apply monotone_error]. Qed.

Lemma monotone_not_op (v : Value) : monotone (not_op v).
Proof. destruct v; first [apply monotone_ret|apply monotone_error]. Qed.

Lemma monotone_logic_op (b : bool) (v1 v2 : Value) :
  monotone (logic_op b v1 v2).
Proof. destruct v1, v2; first [apply monotone_ret|apply monotone_error]. Qed.

Lemma monotone_equality_op (b : bool) (v1 v2 : Value) :
  monotone (equality_op b v1 v2).
Proof. apply monotone_ret. Qed.

#[export] Hint Resolve monotone_ret monotone_raise monotone_error
  monotone_host monotone_or_raise monotone_get_state monotone_set_field
  monotone_set_captured monotone_alloc monotone_deepcopy monotone_output
  monotone_get_input monotone_validate_var_name monotone_read_scope
  monotone_captured_of monotone_condition_bool monotone_push_scope
  monotone_pop_scope monotone_pop_alias monotone_bind_in_scope
  monotone_bind_alias monotone_assign_var monotone_read_var
  monotone_read_field monotone_evaluate_var monotone_evaluate_lambda
  monotone_binary_op monotone_neg_op monotone_not_op monotone_logic_op
  monotone_equality_op : mono.

(** one step of a proof that a body written with [bind] is monotone *)
Ltac mono_step :=
  first
    [ solve [auto with mono]
    | apply monotone_bind; [|intro]
    | match goal with
      | |- monotone (match ?x with _ => _ end) => destruct x
      end ].

Section BodiesMonotone.
Variable gp : Value -> string.
Variable fl : Program.
Variable ev : Expr -> LambdaCtx -> M Value.
Variable exec : Stmt -> LambdaCtx -> M (option Value).
Variable depth : nat.
Hypothesis ev_mono : forall e lam, monotone (ev e lam).
Hypothesis exec_mono : forall s lam, monotone (exec s lam).

Lemma monotone_run_block (statements : list Stmt) (lam : LambdaCtx) :
  monotone (run_block exec statements lam).
Proof.
  induction statements as [|s r IH]; cbn [run_block]; [apply monotone_ret|].
  apply monotone_bind; [apply exec_mono|].
  intros [v|]; [apply monotone_ret|exact IH].
Qed.

Lemma monotone_run_if_statements (statements : list Stmt) :
  monotone (run_if_statements exec statements).
Proof.
  unfold run_if_statements.
  apply monotone_bind; [apply monotone_run_block|]. intro r.
  repeat mono_step.
Qed.

Lemma monotone_run_func (statements : list Stmt) (lam : LambdaCtx) :
  monotone (run_func exec statements lam).
Proof.
  unfold run_func.
  apply monotone_bind; [apply monotone_run_block|]. intro r.
  repeat mono_step.
Qed.

Lemma monotone_assign_field (target : string) (v : Value) :
  monotone (assign_field target v).
Proof.
  unfold assign_field. destruct (split_names target) as [o f].
  repeat mono_step.
Qed.

Lemma monotone_do_assignment (target : string) (source : Expr)
  (lam : LambdaCtx) : monotone (do_assignment ev target source lam).
Proof.
  unfold do_assignment.
  apply monotone_bind; [apply ev_mono|]. intro v.
  apply monotone_bind; [apply monotone_captured_of|]. intro cap.
  destruct (match cap with
            | Some (a, c) => if dict_mem (Some target) c then Some a else None
            | None => None
            end); [apply monotone_set_captured|].
  destruct (has_dot target);
    [apply monotone_assign_field|apply monotone_assign_var].
Qed.

Lemma monotone_print_args (args : list Expr) (lam : LambdaCtx) :
  forall out, monotone (print_args gp ev args lam out).
Proof.
  induction args as [|a r IH]; intro out; cbn [print_args];
    [apply monotone_ret|].
  apply monotone_bind; [apply ev_mono|]. intro v. apply IH.
Qed.

Lemma monotone_input_prompt (args : list Expr) (lam : LambdaCtx) :
  monotone (input_prompt gp ev args lam).
Proof.
  unfold input_prompt. destruct args as [|a [|b r]];
    [apply monotone_ret| |apply monotone_error].
  apply monotone_bind; [apply ev_mono|]. intro v. apply monotone_output.
Qed.

Lemma monotone_evaluate_inputi (args : list Expr) (lam : LambdaCtx) :
  monotone (evaluate_inputi gp ev args lam).
Proof.
  unfold evaluate_inputi.
  apply monotone_bind; [apply monotone_input_prompt|]. intros _.
  repeat mono_step.
Qed.

Lemma monotone_evaluate_inputs (args : list Expr) (lam : LambdaCtx) :
  monotone (evaluate_inputs gp ev args lam).
Proof.
  unfold evaluate_inputs.
  apply monotone_bind; [apply monotone_input_prompt|]. intros _.
  repeat mono_step.
Qed.

Lemma monotone_find_method (m : string) (d : dict string Value) :
  monotone (find_method depth m d).
Proof. unfold find_method. grows_leaf. Qed.

Lemma monotone_resolve_method (o m : string) (nargs : nat)
  (fe : option Callee) : monotone (resolve_method fl depth o m nargs fe).
Proof.
  unfold resolve_method.
  apply monotone_bind; [apply monotone_validate_var_name|]. intros [i|];
    [|apply monotone_error].
  apply monotone_bind; [apply monotone_read_scope|]. intro object.
  destruct object; try apply monotone_error.
  apply monotone_bind; [apply monotone_get_state|]. intro st.
  apply monotone_bind; [apply monotone_or_raise|]. intro d.
  apply monotone_bind; [apply monotone_find_method|]. intro w.
  destruct w; try apply monotone_error.
  - destruct (match_func_value _ _ _ _);
      [apply monotone_ret|apply monotone_error].
  - apply monotone_bind; [apply monotone_get_state|]. intro st'.
    apply monotone_bind; [apply monotone_or_raise|]. intro node.
    destruct (negb _); [apply monotone_error|apply monotone_ret].
Qed.

Lemma monotone_nested_callee (v : Value) : monotone (nested_callee v).
Proof.
  unfold nested_callee. destruct v; try apply monotone_host.
  - destruct v; apply monotone_host.
  - apply monotone_bind; [apply monotone_get_state|]. intro st.
    apply monotone_or_raise.
Qed.

Lemma monotone_resolve_variable (f : string) (nargs : nat) (lam : LambdaCtx) :
  monotone (resolve_variable fl f nargs lam).
Proof.
  unfold resolve_variable.
  apply monotone_bind; [apply monotone_validate_var_name|]. intros [i|];
    [|apply monotone_error].
  apply monotone_bind; [apply monotone_read_scope|]. intro w.
  destruct w; try apply monotone_error.
  - destruct (match_func_value _ _ _ _);
      [apply monotone_ret|apply monotone_error].
  - apply monotone_bind; [apply monotone_captured_of|]. intro cap.
    destruct (match cap with
              | Some (_, c) => dict_get (Some f) c
              | None => None
              end).
    + apply monotone_bind; [apply monotone_nested_callee|]. intro node.
      apply monotone_ret.
    + apply monotone_bind; [apply monotone_get_state|]. intro st.
      apply monotone_bind; [apply monotone_or_raise|]. intro node.
      destruct (negb _); [apply monotone_error|apply monotone_ret].
Qed.

Lemma monotone_bind_args (scope_index : nat) (args : list Expr) :
  forall params, monotone (bind_args ev depth scope_index args params).
Proof.
  induction args as [|a r IH]; intro params; cbn [bind_args];
    [apply monotone_ret|].
  apply monotone_bind; [apply ev_mono|]. intro v.
  destruct params as [|p ps]; [apply monotone_host|].
  apply monotone_bind.
  - destruct (p_kind p), (type v); repeat mono_step.
  - intros _. apply monotone_bind; [destruct (p_kind p); auto with mono|].
    intros _. apply IH.
Qed.

Lemma monotone_do_func_call (node : CallNode) (lam : LambdaCtx) :
  monotone (do_func_call gp fl ev exec depth node lam).
Proof.
  unfold do_func_call. destruct (String.eqb (c_name node) "print").
  - apply monotone_bind; [apply monotone_print_args|]. intro out.
    apply monotone_bind; [apply monotone_output|]. intros _.
    apply monotone_ret.
  - apply monotone_bind.
    { destruct (c_objref node) as [o|]; [|apply monotone_ret].
      apply monotone_bind; [apply monotone_resolve_method|].
      intros [[object fe] l]. apply monotone_ret. }
    intros [[object fe1] l1].
    apply monotone_bind.
    { destruct fe1; [apply monotone_ret|apply monotone_resolve_variable]. }
    intros [fe l2]. destruct fe as [[params body]|]; [|apply monotone_error].
    apply monotone_bind; [apply monotone_push_scope|]. intros _.
    apply monotone_bind; [apply monotone_get_state|]. intro st.
    apply monotone_bind; [apply monotone_bind_args|]. intros _.
    apply monotone_bind; [|intros _; apply monotone_run_func].
    destruct object, (c_objref node); try apply monotone_ret.
    apply monotone_bind; [apply monotone_bind_in_scope|]. intros _.
    apply monotone_bind_alias.
Qed.

End BodiesMonotone.

Lemma monotone_interpreter (gp : Value -> string) (fl : Program) :
  forall fuel,
    (forall e lam, monotone (evaluate_expression gp fl fuel e lam)) /\
    (forall s lam, monotone (run_statement gp fl fuel s lam)) /\
    (forall b c body, monotone (while_loop gp fl fuel b c body)).
Proof.
  induction fuel as [|n (IHe & IHs & IHw)].
  - split; [|split]; intros; apply monotone_raise.
  - pose proof (monotone_do_func_call gp fl _ _ n IHe IHs) as Hcall.
    pose proof (monotone_run_block _ IHs) as Hblock.
    pose proof (monotone_run_if_statements _ IHs) as Hif.
    split; [|split].
    + intros e lam. destruct e; cbn [evaluate_expression];
        try (repeat mono_step; fail).
      * destruct (String.eqb name "inputi");
          [apply monotone_evaluate_inputi; exact IHe|].
        destruct (String.eqb name "inputs");
          [apply monotone_evaluate_inputs; exact IHe|apply Hcall].
      * destruct (String.eqb name "inputi");
          [apply monotone_evaluate_inputi; exact IHe|].
        destruct (String.eqb name "inputs");
          [apply monotone_evaluate_inputs; exact IHe|apply Hcall].
    + intros s lam. destruct s; cbn [run_statement].
      * apply monotone_bind; [apply monotone_do_assignment; exact IHe|].
        intros _. apply monotone_ret.
      * apply monotone_bind; [apply Hcall|]. intros _. apply monotone_ret.
      * apply monotone_bind; [apply Hcall|]. intros _. apply monotone_ret.
      * destruct expression as [e|]; [|apply monotone_ret].
        repeat mono_step.
      * apply monotone_bind; [apply IHe|]. intro v.
        apply monotone_bind; [apply monotone_condition_bool|]. intros [|].
        -- apply monotone_bind; [apply monotone_push_scope|].
           intros _. apply Hif.
        -- destruct else_statements as [es|]; [|apply monotone_ret].
           apply monotone_bind; [apply monotone_push_scope|].
           intros _. apply Hif.
      * apply monotone_bind; [apply IHe|]. intro v.
        apply monotone_bind; [apply monotone_condition_bool|]. intro b.
        apply IHw.
    + intros b c body. cbn [while_loop]. destruct b; [|apply monotone_ret].
      apply monotone_bind; [apply monotone_push_scope|]. intros _.
      apply monotone_bind; [apply Hblock|]. intro r.
      apply monotone_bind; [apply monotone_pop_scope|]. intros _.
      destruct r; [apply monotone_ret|].
      apply monotone_bind; [apply IHe|]. intro v.
      apply monotone_bind; [apply monotone_condition_bool|]. intro b.
      apply IHw.
Qed.

(** X23.  Whatever an expression or a statement does, and whether it
    completes or aborts, it only adds lines at the end of the output, only
    takes tokens from the front of the input, and frees no cell of the
    store.  For a whole run: the tokens left unread are a suffix of the
    input given. *)
Theorem nothing_output_or_read_is_taken_back
  (gp : Value -> string) (fl : Program) (fuel : nat) :
  (forall e lam st,
     grows st (outcome_state (evaluate_expression gp fl fuel e lam st)))
  /\ (forall s lam st,
        grows st (outcome_state (run_statement gp fl fuel s lam st)))
  /\ (forall input,
        exists read,
          input = (read ++ inp (outcome_state (run gp fuel fl input)))%list).
Proof.
  destruct (monotone_interpreter gp fl fuel) as (He & Hs & _).
  split; [exact He|]. split; [exact Hs|].
  intro input. unfold run.
  assert (Hrun : monotone
    (main_node <- get_main_node fl ;;
     modify (fun st => set_aliases [[]] (set_scopes [[]] st)) ;;;
     run_func (run_statement gp fl fuel) (f_statements main_node) LNone)).
  { apply monotone_bind.
    - clear. induction fl as [|d r IH]; cbn [get_main_node];
        [apply monotone_error|].
      destruct (String.eqb (f_name d) "main"); [apply monotone_ret|exact IH].
    - intro m. apply monotone_bind; [unfold modify; grows_leaf|].
      intros _. apply monotone_run_func. exact Hs. }
  destruct (Hrun (initial_state fl input)) as (_ & Hin & _).
  exact Hin.
Qed.

(* ------------------------------------------------------------------ *)
(** ** Copies and snapshots *)

Lemma copy_entries_scalars {K : Type} (n : nat) (d : list (K * Value)) :
  forall cs,
    (forall k v, In (k, v) d -> scalar v = true) ->
    copy_entries (deepcopy_value n) d cs = Some (d, cs).
Proof.
  induction d as [|[k v] r IH]; intros cs Hd; cbn [copy_entries];
    [reflexivity|].
  assert (Hv : deepcopy_value n v cs = Some (v, cs)).
  { specialize (Hd k v (or_introl eq_refl)).
    destruct v; try discriminate; destruct n; reflexivity. }
  rewrite Hv, IH; [reflexivity|].
  intros k' v' Hin. apply (Hd k' v'). now right.
Qed.

Lemma set_nth_snoc {A : Type} (l : list A) (x y : A) :
  set_nth (length l) x (l ++ [y]) = (l ++ [x])%list.
Proof.
  induction l as [|a r IH]; cbn [length app set_nth]; [reflexivity|].
  now rewrite IH.
Qed.

Lemma deepcopy_flat_object (n a : nat) (d : dict string Value) (st : State) :
  obj_fields (store st) a = Some d ->
  (forall k v, In (k, v) d -> scalar v = true) ->
  deepcopy (S n) (VObj a) st
  = Ok (VObj (length (store st))) (set_store (store st ++ [ObjCell d]) st).
Proof.
  intros Ho Hd. unfold deepcopy.
  cbn [deepcopy_value memo_find memo_cells c_store]. rewrite Ho.
  rewrite (copy_entries_scalars n d _ Hd).
  cbn [c_store memo_cells memo_nodes c_next]. rewrite set_nth_snoc.
  destruct st; reflexivity.
Qed.

Lemma run_return_eq (gp : Value -> string) (fl : Program) (n : nat)
  (e : Expr) (lam : LambdaCtx) :
  run_statement gp fl (S n) (SReturn (Some e)) lam =
  (v <- evaluate_expression gp fl n e lam ;;
   c <- deepcopy n v ;;
   ret (Some c)).
Proof. reflexivity. Qed.

(** X24.  [return] hands back a deep copy.  For an object whose fields are
    all scalars: the value returned is an object at a new address with the
    same fields, it is not [==] to the object the expression gave, and that
    object is left as it was. *)
Theorem returned_object_is_a_copy
  (gp : Value -> string) (fl : Program) (n : nat) (e : Expr)
  (lam : LambdaCtx) (st st1 : State) (a : nat) (d : dict string Value) :
  evaluate_expression gp fl n e lam st = Ok (VObj a) st1 ->
  obj_fields (store st1) a = Some d ->
  (forall k v, In (k, v) d -> scalar v = true) ->
  run_statement gp fl (S n) (SReturn (Some e)) lam st
  = Ok (Some (VObj (length (store st1))))
       (set_store (store st1 ++ [ObjCell d]) st1)
  /\ values_equal (VObj a) (VObj (length (store st1))) = false
  /\ obj_fields (store st1 ++ [ObjCell d]) a = Some d
  /\ obj_fields (store st1 ++ [ObjCell d]) (length (store st1)) = Some d.
Proof.
  intros He Ho Hd.
  assert (Hlt : (a < length (store st1))%nat).
  { apply nth_error_Some. unfold obj_fields in Ho.
    destruct (nth_error (store st1) a); [discriminate|discriminate Ho]. }
  split; [|split; [|split]].
  - destruct n as [|m]; [discriminate|].
    rewrite run_return_eq. unfold bind. rewrite He.
    now rewrite (deepcopy_flat_object m a d st1 Ho Hd).
  - cbn [values_equal]. apply Nat.eqb_neq. lia.
  - unfold obj_fields in *. now rewrite nth_error_app1.
  - unfold obj_fields. rewrite nth_error_app2, Nat.sub_diag; [reflexivity|].
    apply le_n.
Qed.

Lemma returned_object_witness :
  run_statement spec_printable [] 3 (SReturn (Some (EVar "y"))) LNone
                object_with_prototype
  = Ok (Some (VObj 2))
       (set_store (store object_with_prototype ++ [ObjCell [("f", VInt 5)]])
                  object_with_prototype).
Proof.
  refine (proj1 (returned_object_is_a_copy spec_printable [] 2 (EVar "y")
                   LNone object_with_prototype object_with_prototype 1%nat
                   [("f", VInt 5)] eq_refl eq_refl _)).
  intros k v [E|[]]. inversion E. reflexivity.
Defined.

Lemma lambda_captured_set_captured (a : nat) (k : name) (v : Value)
  (h : list Cell) (c : dict name Value) :
  lambda_captured h a = Some c ->
  lambda_captured (set_captured a k v h) a = Some (dict_set k v c).
Proof.
  unfold lambda_captured, set_captured. intro H.
  destruct (nth_error h a) as [[f|ps body c0]|] eqn:E; try discriminate.
  inversion H; subst.
  rewrite nth_error_set_nth_same; [reflexivity|].
  apply nth_error_Some. now rewrite E.
Qed.

(** X25.  An assignment statement that runs directly in the body of a
    lambda, to a name the lambda's snapshot holds, goes to the snapshot:
    the entry takes the new value, and neither the scope stack nor the
    alias stack changes (the lambda being run from its stored structure, as
    every call but the one of lines 797-801 runs it).  An [if] or [while]
    statement of the body runs without the lambda, so an assignment inside
    its block is an assignment outside any lambda. *)
Theorem assignment_to_a_captured_name_stays_in_the_snapshot
  (gp : Value -> string) (fl : Program) (n : nat) :
  (forall x e a st st1 v c,
     evaluate_expression gp fl n e (LCell a) st = Ok v st1 ->
     lambda_captured (store st1) a = Some c ->
     dict_mem (Some x) c = true ->
     exists st2,
       run_statement gp fl (S n) (SAssign x e) (LCell a) st = Ok None st2
       /\ variable_scope_list st2 = variable_scope_list st1
       /\ variable_alias_list st2 = variable_alias_list st1
       /\ lambda_captured (store st2) a = Some (dict_set (Some x) v c)
       /\ output_log st2 = output_log st1)
  /\
  (forall cond ss es lam st,
     run_statement gp fl (S n) (SIf cond ss es) lam st
     = run_statement gp fl (S n) (SIf cond ss es) LNone st
     /\ run_statement gp fl (S n) (SWhile cond ss) lam st
        = run_statement gp fl (S n) (SWhile cond ss) LNone st).
Proof.
  split.
  - intros x e a st st1 v c He Hc Hm.
    exists (set_store (set_captured a (Some x) v (store st1)) st1).
    split.
    + rewrite run_assign_eq. unfold bind, do_assignment, bind. rewrite He.
      unfold captured_of. rewrite Hc, Hm. reflexivity.
    + cbn [variable_scope_list variable_alias_list store output_log
           set_store].
      repeat (split; [reflexivity|]). split; [|reflexivity].
      now apply lambda_captured_set_captured.
  - intros cond ss es lam st. split; reflexivity.
Qed.

Lemma captured_assignment_witness :
  exists st2,
    run_statement spec_printable prog_assignment_in_lambda 2
                  (SAssign "y" (EInt 5)) (LCell 0) in_lambda_capturing_y
    = Ok None st2
    /\ variable_scope_list st2 = variable_scope_list in_lambda_capturing_y
    /\ variable_alias_list st2 = variable_alias_list in_lambda_capturing_y
    /\ lambda_captured (store st2) 0
       = option_map (dict_set (Some "y") (VInt 5))
                    (lambda_captured (store in_lambda_capturing_y) 0)
    /\ output_log st2 = output_log in_lambda_capturing_y.
Proof.
  destruct (lambda_captured (store in_lambda_capturing_y) 0) as [c|] eqn:Ec;
    [|discriminate Ec].
  refine (proj1 (assignment_to_a_captured_name_stays_in_the_snapshot
                   spec_printable prog_assignment_in_lambda 1)
                "y" (EInt 5) 0%nat in_lambda_capturing_y
                in_lambda_capturing_y (VInt 5) c eq_refl Ec _).
  revert Ec. vm_compute. intro Ec. inversion Ec. reflexivity.
Defined.

(* ------------------------------------------------------------------ *)
(** ** Truth values and the input built-ins *)

(** X26.  [&&] and [||] read a Bool operand as it is and an Int operand as
    true unless it is 0, and answer a Bool; an operand of any other kind is
    a TYPE_ERROR. *)
Theorem logical_operators_read_ints_as_truth_values
  (gp : Value -> string) (fl : Program) (n : nat) (e1 e2 : Expr)
  (lam : LambdaCtx) (st st1 st2 : State) (v1 v2 : Value) :
  evaluate_expression gp fl n e1 lam st = Ok v1 st1 ->
  evaluate_expression gp fl n e2 lam st1 = Ok v2 st2 ->
  (forall a b, truth v1 = Some a -> truth v2 = Some b ->
     evaluate_expression gp fl (S n) (EAnd e1 e2) lam st
     = Ok (VBool (a && b)) st2
     /\ evaluate_expression gp fl (S n) (EOr e1 e2) lam st
        = Ok (VBool (a || b)) st2)
  /\
  (truth v1 = None \/ truth v2 = None ->
   evaluate_expression gp fl (S n) (EAnd e1 e2) lam st
   = Fail (Error TYPE_ERROR) st2
   /\ evaluate_expression gp fl (S n) (EOr e1 e2) lam st
      = Fail (Error TYPE_ERROR) st2).
Proof.
  intros H1 H2. split.
  - intros a b Ha Hb.
    split; cbn [evaluate_expression]; unfold bind; rewrite H1, H2;
      destruct v1, v2; try discriminate; simpl in *;
      inversion Ha; inversion Hb; reflexivity.
  - intros Hn.
    split; cbn [evaluate_expression]; unfold bind; rewrite H1, H2;
      destruct v1, v2; simpl in *; try reflexivity;
      destruct Hn; discriminate.
Qed.

Lemma truth_value_witness :
  evaluate_expression spec_printable [] 2 (EAnd (EInt 3) (EBool true)) LNone
                      empty_state
  = Ok (VBool true) empty_state.
Proof.
  exact (proj1 (proj1 (logical_operators_read_ints_as_truth_values
                  spec_printable [] 1 (EInt 3) (EBool true) LNone empty_state
                  empty_state empty_state (VInt 3) (VBool true)
                  eq_refl eq_refl) true true eq_refl eq_refl)).
Defined.

(** X27.  [inputs] takes at most one prompt: with two or more arguments it
    is a NAME_ERROR, before anything is printed or read.  A method call
    named [inputi] or [inputs] is the built-in too: its receiver is not
    looked at. *)
Theorem inputs_takes_at_most_one_prompt
  (gp : Value -> string) (fl : Program) (n : nat) (lam : LambdaCtx)
  (st : State) :
  (forall args, (2 <= length args)%nat ->
     evaluate_expression gp fl (S n) (EFcall "inputs" args) lam st
     = Fail (Error NAME_ERROR) st)
  /\
  (forall o args,
     evaluate_expression gp fl (S n) (EMcall o "inputs" args) lam st
     = evaluate_expression gp fl (S n) (EFcall "inputs" args) lam st
     /\ evaluate_expression gp fl (S n) (EMcall o "inputi" args) lam st
        = evaluate_expression gp fl (S n) (EFcall "inputi" args) lam st).
Proof.
  split.
  - intros args Hlen. destruct args as [|a [|b r]]; simpl in Hlen; try lia.
    reflexivity.
  - intros o args. split; reflexivity.
Qed.

Lemma inputs_witness :
  evaluate_expression spec_printable [] 1 (EFcall "inputs" [EInt 1; EInt 2])
                      LNone empty_state
  = Fail (Error NAME_ERROR) empty_state.
Proof.
  apply (proj1 (inputs_takes_at_most_one_prompt spec_printable [] 0 LNone
                  empty_state)).
  simpl. lia.
Defined.

(* ------------------------------------------------------------------ *)
(** ** Arguments *)

Lemma nth_error_snoc {A : Type} (l : list A) (a : A) :
  nth_error (l ++ [a]) (length l) = Some a.
Proof.
  rewrite nth_error_app2 by apply le_n. now rewrite Nat.sub_diag.
Qed.

Lemma by_value_binding (depth i : nat) (k : name) (v : Value) :
  type v <> OBJ -> type v <> LAMBDA ->
  match type v with
  | OBJ | LAMBDA => c <- deepcopy depth v ;; bind_in_scope i k c
  | _ => bind_in_scope i k v
  end = bind_in_scope i k v.
Proof. intros Ho Hl. destruct v; simpl in *; try reflexivity; congruence. Qed.

(** X28.  The arguments of a call are evaluated after the callee's frame
    is pushed and while its parameters are being bound, outside any lambda
    snapshot.  So when the second argument is the name of the first
    parameter, it reads the argument just bound to that parameter, not the
    caller's variable of that name.  This is shown for a function whose
    first two parameters are passed by value, a first argument whose value
    is neither an object nor a lambda and whose evaluation leaves the two
    stacks as they are, a name that is no function's, and an alias table at
    the new frame's index that has no entry for the name. *)
Theorem later_argument_sees_an_earlier_parameter
  (gp : Value -> string) (fl : Program) (n : nat) (fname p1 p2 : string)
  (e1 : Expr) (rest : list Expr) (ps : list Param) (body : list Stmt)
  (lam : LambdaCtx) (st st1 : State) (v1 : Value) (tbl : AliasTable) :
  fname <> "print" -> fname <> "inputi" -> fname <> "inputs" ->
  match_name_arity fname (length (e1 :: EVar p1 :: rest)) fl None
  = Some (mkParam ByValue p1 :: mkParam ByValue p2 :: ps, body) ->
  (forall d, In d fl -> f_name d <> p1) ->
  has_dot p1 = false ->
  evaluate_expression gp fl (S n) e1 LNone
    (set_aliases (variable_alias_list st ++ [[]])
       (set_scopes (variable_scope_list st ++ [[]]) st))
  = Ok v1 st1 ->
  type v1 <> OBJ -> type v1 <> LAMBDA ->
  variable_scope_list st1 = (variable_scope_list st ++ [[]])%list ->
  variable_alias_list st1 = (variable_alias_list st ++ [[]])%list ->
  nth_error (variable_alias_list st ++ [[]])
            (length (variable_scope_list st)) = Some tbl ->
  dict_get (Some p1) tbl = None ->
  evaluate_expression gp fl (S (S n)) (EFcall fname (e1 :: EVar p1 :: rest))
                      lam st
  = (bind_args (evaluate_expression gp fl (S n)) (S n)
               (length (variable_scope_list st)) rest ps ;;;
     run_func (run_statement gp fl (S n)) body LNone)
      (set_scopes (variable_scope_list st ++
                     [dict_set (Some p2) v1 [(Some p1, v1)]]) st1).
Proof.
  intros Hp Hi Hs Hm Hnofun Hdot He1 Hobj Hlam Hsc Hal Htbl Hnoalias.
  apply String.eqb_neq in Hi. apply String.eqb_neq in Hs.
  rewrite (evaluate_fcall_eq gp fl (S n) fname _ lam Hi Hs).
  rewrite (do_func_call_defined gp fl _ _ _ fname (e1 :: EVar p1 :: rest)
             LNone st _ _ Hp Hm).
  set (scopes := variable_scope_list st) in *.
  set (aliases := variable_alias_list st) in *.
  set (i := length scopes) in *.
  set (st0 := set_aliases (aliases ++ [[]]) (set_scopes (scopes ++ [[]]) st))
    in *.
  set (st2 := set_scopes (scopes ++ [[(Some p1, v1)]]) st1).
  assert (Hidx : (length (variable_scope_list st0) - 1)%nat = i).
  { subst st0 i. cbn [variable_scope_list set_aliases set_scopes].
    rewrite length_app. cbn [length]. lia. }
  assert (Hfirst : bind_in_scope i (Some p1) v1 st1 = Ok tt st2).
  { unfold bind_in_scope. rewrite Hsc.
    rewrite (frame_set_nat _ _ [] _ _ (nth_error_snoc scopes [])).
    subst i. rewrite set_nth_snoc. reflexivity. }
  assert (Hread :
    evaluate_expression gp fl (S n) (EVar p1) LNone st2 = Ok v1 st2).
  { rewrite evaluate_var_eq.
    rewrite (evaluate_var_prefix fl n p1 LNone st2 I).
    cbn [snapshot_search]. rewrite (functions_named_none p1 fl Hnofun 0).
    rewrite Hdot.
    apply (read_var_plain p1 st2 i tbl).
    - subst st2. cbn [variable_scope_list set_scopes].
      rewrite length_app. cbn [length]. rewrite Nat.add_1_r.
      cbn [closest_scope]. fold i. rewrite (nth_error_snoc scopes _).
      unfold dict_mem. cbn [dict_get]. now rewrite keqb_refl.
    - subst st2. cbn [variable_alias_list set_scopes]. rewrite Hal.
      exact Htbl.
    - exact Hnoalias.
    - subst st2 i. cbn [variable_scope_list set_scopes].
      unfold lookup. rewrite (nth_error_snoc scopes _).
      cbn [dict_get]. now rewrite keqb_refl. }
  assert (Hsecond :
    bind_in_scope i (Some p2) v1 st2
    = Ok tt (set_scopes (scopes ++
                           [dict_set (Some p2) v1 [(Some p1, v1)]]) st1)).
  { unfold bind_in_scope. subst st2.
    cbn [variable_scope_list set_scopes].
    rewrite (frame_set_nat _ _ [(Some p1, v1)] _ _
               (nth_error_snoc scopes _)).
    subst i. rewrite set_nth_snoc. reflexivity. }
  unfold bind at 1. unfold push_scope, modify. fold scopes aliases st0.
  unfold bind at 1. unfold get_state. rewrite Hidx.
  unfold bind at 1. cbn [bind_args p_kind p_name].
  unfold bind at 1. rewrite He1.
  rewrite (by_value_binding (S n) i (Some p1) v1 Hobj Hlam).
  unfold bind at 1. unfold bind at 1. rewrite Hfirst.
  unfold bind at 1. unfold ret at 1.
  unfold bind at 1. rewrite Hread.
  rewrite (by_value_binding (S n) i (Some p2) v1 Hobj Hlam).
  unfold bind at 1. unfold bind at 1. rewrite Hsecond.
  reflexivity.
Qed.

Lemma later_argument_witness :
  evaluate_expression spec_printable prog_two_parameters 3
                      (EFcall "f" [EInt 1; EVar "x"]) LNone state_x_is_5
  = (bind_args (evaluate_expression spec_printable prog_two_parameters 2) 2
               (length (variable_scope_list state_x_is_5)) [] [] ;;;
     run_func (run_statement spec_printable prog_two_parameters 2)
              [SReturn (Some (EVar "y"))] LNone)
      (set_scopes (variable_scope_list state_x_is_5 ++
                     [dict_set (Some "y") (VInt 1) [(Some "x", VInt 1)]])
         (set_aliases (variable_alias_list state_x_is_5 ++ [[]])
            (set_scopes (variable_scope_list state_x_is_5 ++ [[]])
                        state_x_is_5))).
Proof.
  apply (later_argument_sees_an_earlier_parameter spec_printable
           prog_two_parameters 1 "f" "x" "y" (EInt 1) [] []
           [SReturn (Some (EVar "y"))] LNone state_x_is_5
           (set_aliases (variable_alias_list state_x_is_5 ++ [[]])
              (set_scopes (variable_scope_list state_x_is_5 ++ [[]])
                          state_x_is_5))
           (VInt 1) []);
    try discriminate; try reflexivity.
  intros d [<-|[]]. discriminate.
Defined.
